(** * route-machine: a shallow embedding of the router core

    The development follows the layout of the package:
    - [Js]        the string primitives of the language the code relies on;
    - [Platform]  the [URL] and [URLSearchParams] objects of the host;
    - [Dom]       router.dom.ts   (parseUrl, createUrl, the route matcher);
    - [Machine]   router.machine.ts (context, actions, transitions);
    - [Connect]   router.connect.ts (isActive, createUrl of the public API).

    Definitions come first, the properties of the code afterwards. *)

From Stdlib Require Import String Ascii List ZArith Lia Bool.
From Stdlib Require Import Sorting.Permutation Sorting.Sorted.
From stdpp Require Import base list strings.
Import ListNotations.

Local Open Scope string_scope.
Local Open Scope list_scope.

(* ================================================================== *)
(** ** String primitives *)
(* ================================================================== *)

Module Js.

(** [s.startsWith(p)] *)
Definition startsWith (s p : string) : bool := String.prefix p s.

Fixpoint drop (n : nat) (s : string) : string :=
  match n, s with
  | O, _ => s
  | S _, EmptyString => EmptyString
  | S n', String _ s' => drop n' s'
  end.

Fixpoint take (n : nat) (s : string) : string :=
  match n, s with
  | O, _ => EmptyString
  | S _, EmptyString => EmptyString
  | S n', String c s' => String c (take n' s')
  end.

(** [s.slice(n)] for a non-negative [n] *)
Definition sliceFrom (n : nat) (s : string) : string := drop n s.

(** [s.slice(0, -k)] *)
Definition sliceDropLast (k : nat) (s : string) : string :=
  take (String.length s - k) s.

(** [s.endsWith(suffix)] *)
Definition endsWith (s suffix : string) : bool :=
  (String.length suffix <=? String.length s)%nat
  && String.eqb (drop (String.length s - String.length suffix) s) suffix.

(** [s.includes(sub)] *)
Fixpoint includes (s sub : string) : bool :=
  String.prefix sub s
  || match s with
     | EmptyString => false
     | String _ s' => includes s' sub
     end.

(** [s.split(sep)] for a one-character separator *)
Fixpoint split (sep : ascii) (s : string) : list string :=
  match s with
  | EmptyString => [EmptyString]
  | String c s' =>
      if Ascii.eqb c sep then EmptyString :: split sep s'
      else match split sep s' with
           | h :: t => String c h :: t
           | [] => [String c EmptyString]
           end
  end.

(** [s || d]: the empty string is falsy *)
Definition orElse (s d : string) : string :=
  if String.eqb s "" then d else s.

(** [o || d] where [o] may be undefined *)
Definition optOrElse (o : option string) (d : string) : string :=
  match o with
  | Some s => orElse s d
  | None => d
  end.

(** the character class [\w] of regular expressions *)
Definition isWordChar (c : ascii) : bool :=
  let n := nat_of_ascii c in
  ((48 <=? n) && (n <=? 57) || (65 <=? n) && (n <=? 90)
   || (97 <=? n) && (n <=? 122) || (n =? 95))%nat.

Definition isAlpha (c : ascii) : bool :=
  let n := nat_of_ascii c in
  ((65 <=? n) && (n <=? 90) || (97 <=? n) && (n <=? 122))%nat.

End Js.

(* ================================================================== *)
(** ** The host's URL objects *)
(* ================================================================== *)

(** [new URL(url, base)] and [URLSearchParams] belong to the host, not to
    the package.  The model below follows the URL standard for http
    addresses on the inputs the router hands over: an optional
    [scheme://authority] origin, a path, a query introduced by the first
    [?] and a fragment introduced by the first [#]; a reference without
    origin is resolved against the base.  Percent-encoding, the removal of
    dot segments, of backslashes and of white space, and the rejection of
    malformed addresses are left out: the model agrees with the host on
    addresses that need none of them. *)
Module Platform.

Record URLObject := mkURL {
  url_pathname : string;
  url_search : string;
  url_hash : string;
  url_searchParams : list (string * string)
}.

(** [cutAt c s]: the part of [s] before the first [c], and the rest
    (starting with that [c]); the rest is empty when [c] is absent. *)
Fixpoint cutAt (c : ascii) (s : string) : string * string :=
  match s with
  | EmptyString => (EmptyString, EmptyString)
  | String d s' =>
      if Ascii.eqb d c then (EmptyString, s)
      else let '(a, b) := cutAt c s' in (String d a, b)
  end.

(** a query or a fragment that is only its delimiter reads as empty *)
Definition nonBare (s : string) : string :=
  match s with
  | String _ EmptyString => EmptyString
  | _ => s
  end.

Definition isSchemeChar (c : ascii) : bool :=
  Js.isWordChar c && negb (Ascii.eqb c "_")
  || Ascii.eqb c "+" || Ascii.eqb c "-" || Ascii.eqb c ".".

Fixpoint afterScheme (s : string) : option string :=
  match s with
  | EmptyString => None
  | String c s' =>
      if Ascii.eqb c ":" then
        if String.prefix "//" s' then Some (Js.drop 2 s') else None
      else if isSchemeChar c then afterScheme s' else None
  end.

Fixpoint dropAuthority (s : string) : string :=
  match s with
  | EmptyString => EmptyString
  | String c s' =>
      if Ascii.eqb c "/" || Ascii.eqb c "?" || Ascii.eqb c "#" then s
      else dropAuthority s'
  end.

(** [Some rest] when [s] is an absolute address, [rest] being what
    follows its origin *)
Definition stripOrigin (s : string) : option string :=
  match s with
  | EmptyString => None
  | String c _ =>
      if Js.isAlpha c then option_map dropAuthority (afterScheme s)
      else None
  end.

(** path, query (with its [?]) and fragment (with its [#]) of what
    follows an origin *)
Definition components (s : string) : string * string * string :=
  let '(beforeHash, fragment) := cutAt "#" s in
  let '(path, query) := cutAt "?" beforeHash in
  (path, query, fragment).

(** the path of the base without its last segment *)
Fixpoint dirname (s : string) : string :=
  match s with
  | EmptyString => EmptyString
  | String c s' =>
      if Js.includes s' "/" then String c (dirname s')
      else if Ascii.eqb c "/" then "/" else EmptyString
  end.

Definition rootIfEmpty (p : string) : string := Js.orElse p "/".

Fixpoint parsePairs (pieces : list string) : list (string * string) :=
  match pieces with
  | [] => []
  | p :: rest =>
      if String.eqb p "" then parsePairs rest
      else let '(k, v) := cutAt "=" p in (k, Js.drop 1 v) :: parsePairs rest
  end.

(** [new URLSearchParams(init)]: a leading [?] is ignored *)
Definition URLSearchParams (init : string) : list (string * string) :=
  let q := if String.prefix "?" init then Js.drop 1 init else init in
  parsePairs (Js.split "&" q).

Definition assemble (path query fragment : string) : URLObject :=
  {| url_pathname := rootIfEmpty path;
     url_search := nonBare query;
     url_hash := nonBare fragment;
     url_searchParams := URLSearchParams query |}.

(** [new URL(url, base)] for an absolute [base] *)
Definition URL (url base : string) : URLObject :=
  match stripOrigin url with
  | Some rest =>
      let '(p, q, f) := components rest in assemble p q f
  | None =>
      let '(bp, bq, _) :=
        components (match stripOrigin base with Some r => r | None => base end) in
      let bp := rootIfEmpty bp in
      if String.prefix "//" url then
        let '(p, q, f) := components (dropAuthority (Js.drop 2 url)) in
        assemble p q f
      else
        let '(p, q, f) := components url in
        if String.prefix "/" url then assemble p q f
        else if String.eqb p "" then
          if String.eqb q "" then assemble bp bq f
          else assemble bp q f
        else assemble (dirname bp +:+ p) q f
  end.

(** the [window] object, when there is one: its [location] *)
Record Window := mkWindow {
  location_href : string;
  location_origin : string;
  location_hash : string
}.

End Platform.

(* ================================================================== *)
(** ** router.types.ts *)
(* ================================================================== *)

Module Types.

(** values of [Record<string, any>] as far as route metadata needs them *)
Inductive JsValue :=
| JsNull
| JsBool (b : bool)
| JsNum (z : Z)
| JsStr (s : string).

Definition Meta := list (string * JsValue).

Inductive QueryValue :=
| QStr (s : string)
| QArr (l : list string).

(** objects used as string-keyed maps keep their keys in insertion
    order; an assignment to a present key keeps its place *)
Fixpoint objGet {V} (o : list (string * V)) (k : string) : option V :=
  match o with
  | [] => None
  | (k', v) :: o' => if String.eqb k' k then Some v else objGet o' k
  end.

Fixpoint objSet {V} (o : list (string * V)) (k : string) (v : V) : list (string * V) :=
  match o with
  | [] => [(k, v)]
  | (k', v') :: o' =>
      if String.eqb k' k then (k, v) :: o' else (k', v') :: objSet o' k v
  end.

Record RouteLocation := mkLocation {
  pathname : string;
  search : string;
  hash : string;
  params : list (string * string);
  query : list (string * QueryValue);
  meta : option Meta;
  name : option string
}.

(** [Partial<RouteLocation>], as far as the code reads it *)
Record PartialLocation := mkPartial {
  p_pathname : option string;
  p_search : option string;
  p_hash : option string;
  p_params : option (list (string * string));
  p_query : option (list (string * QueryValue));
  p_meta : option Meta;
  p_name : option string
}.

Record RouteDefinition := mkRoute {
  path : string;
  route_name : option string;
  route_meta : option Meta
}.

Inductive NavigationType := push | replace | back | forward | initial.
Inductive NavigationSource := programmatic | browser | user.

Record NavigationDetails := mkDetails {
  from : option RouteLocation;
  to : RouteLocation;
  type : NavigationType;
  source : option NavigationSource
}.

(** the string a source is at run time *)
Definition sourceTag (s : NavigationSource) : string :=
  match s with
  | programmatic => "programmatic"
  | browser => "browser"
  | user => "user"
  end.

End Types.

(* ================================================================== *)
(** ** router.dom.ts *)
(* ================================================================== *)

Module Dom.
Import Types Platform.

(** one step of the loop of [parseUrl] over [searchParams.entries()] *)
Definition addQueryEntry (query : list (string * QueryValue)) (kv : string * string)
  : list (string * QueryValue) :=
  let '(key, value) := kv in
  match objGet query key with
  | Some (QArr l) => objSet query key (QArr (l ++ [value]))
  | Some (QStr s) =>
      if String.eqb s "" then objSet query key (QStr value)
      else objSet query key (QArr [s; value])
  | None => objSet query key (QStr value)
  end.

Definition parseUrl (win : option Window) (url basePath : string) : RouteLocation :=
  let urlObj :=
    match win with
    | None => URL url "http://localhost"
    | Some w =>
        if Js.startsWith url "/" || Js.includes url "://"
        then URL url (location_origin w)
        else URL url (location_href w)
    end in
  let pathname0 := url_pathname urlObj in
  let pathname1 :=
    if negb (String.eqb basePath "/") && Js.startsWith pathname0 basePath
    then Js.orElse (Js.sliceFrom (String.length basePath) pathname0) "/"
    else pathname0 in
  {| pathname := pathname1;
     search := url_search urlObj;
     hash := url_hash urlObj;
     params := [];
     query := fold_left addQueryEntry (url_searchParams urlObj) [];
     meta := None;
     name := None |}.

Definition createUrl (pathname search hash basePath : string) : string :=
  let fullPath :=
    if negb (String.eqb basePath "") && negb (String.eqb basePath "/")
    then basePath +:+ (if Js.startsWith pathname "/" then Js.sliceFrom 1 pathname
                       else pathname)
    else pathname in
  fullPath +:+ search +:+ hash.

(** *** Patterns as regular expressions

    [pattern.replace(/:(\w+)/g, "([^/]+)")] turns each [:name] into a
    group and leaves the other characters as they are; the result is
    matched between [^] and [$].  The tokens below are that regular
    expression for patterns whose other characters stand for
    themselves (no regular-expression operators among them). *)
Inductive Token :=
| TLit (c : ascii)
| TParam (paramName : string).

Fixpoint gatherWord (ts : list Token) : string * list Token :=
  match ts with
  | TLit c :: ts' =>
      if Js.isWordChar c
      then let '(w, r) := gatherWord ts' in (String c w, r)
      else (EmptyString, ts)
  | _ => (EmptyString, ts)
  end.

Fixpoint tokenize (pattern : string) : list Token :=
  match pattern with
  | EmptyString => []
  | String c s' =>
      let rest := tokenize s' in
      if Ascii.eqb c ":" then
        match gatherWord rest with
        | (EmptyString, _) => TLit c :: rest
        | (w, r) => TParam w :: r
        end
      else TLit c :: rest
  end.

(** anchored match; a group is [[^/]+], greedy, and gives back
    characters when the rest fails.  The result lists the groups. *)
Fixpoint matchTokens (ts : list Token) : string -> option (list (string * string)) :=
  match ts with
  | [] => fun s => if String.eqb s "" then Some [] else None
  | TLit c :: ts' => fun s =>
      match s with
      | String d s' => if Ascii.eqb d c then matchTokens ts' s' else None
      | EmptyString => None
      end
  | TParam n :: ts' =>
      let continue := matchTokens ts' in
      (fix group (captured s : string) {struct s} :=
         match s with
         | EmptyString => None
         | String d s' =>
             if Ascii.eqb d "/" then None
             else
               let captured' := captured +:+ String d EmptyString in
               match group captured' s' with
               | Some r => Some r
               | None =>
                   match continue s' with
                   | Some r => Some ((n, captured') :: r)
                   | None => None
                   end
               end
         end) EmptyString
  end.

Definition extractParams (pathname pattern : string) : list (string * string) :=
  if String.eqb pattern "*" || String.eqb pattern "/*" || Js.endsWith pattern "/*"
  then []
  else
    match matchTokens (tokenize pattern) pathname with
    | Some groups => fold_left (fun o kv => objSet o (fst kv) (snd kv)) groups []
    | None => []
    end.

Definition matchesPattern (pathname pattern : string) : bool :=
  if String.eqb pathname pattern then true
  else if String.eqb pattern "*" || String.eqb pattern "/*" then true
  else if Js.endsWith pattern "/*" then
    let prefix := Js.sliceDropLast 2 pattern in
    Js.startsWith pathname (prefix +:+ "/") || String.eqb pathname prefix
  else
    match matchTokens (tokenize pattern) pathname with
    | Some _ => true
    | None => false
    end.

(** the comparator handed to [sort] *)
Definition compareRoutes (a b : RouteDefinition) : Z :=
  let aStatic := negb (Js.includes (path a) ":") && negb (Js.includes (path a) "*") in
  let bStatic := negb (Js.includes (path b) ":") && negb (Js.includes (path b) "*") in
  if aStatic && negb bStatic then (-1)%Z
  else if negb aStatic && bStatic then 1%Z
  else
    let aSegments := Z.of_nat (length (Js.split "/" (path a))) in
    let bSegments := Z.of_nat (length (Js.split "/" (path b))) in
    if negb (aSegments =? bSegments)%Z then (bSegments - aSegments)%Z
    else if Js.includes (path a) "*" && negb (Js.includes (path b) "*") then 1%Z
    else if negb (Js.includes (path a) "*") && Js.includes (path b) "*" then (-1)%Z
    else 0%Z.

(** [Array.prototype.sort] is stable: an element goes in front of the
    first element it does not compare greater than *)
Fixpoint sortInsert {A} (cmp : A -> A -> Z) (x : A) (l : list A) : list A :=
  match l with
  | [] => [x]
  | y :: l' => if (cmp x y <=? 0)%Z then x :: l else y :: sortInsert cmp x l'
  end.

Fixpoint sort {A} (cmp : A -> A -> Z) (l : list A) : list A :=
  match l with
  | [] => []
  | x :: l' => sortInsert cmp x (sort cmp l')
  end.

(** [a] may stand in front of [b] in a list sorted by [cmp] *)
Definition notAfter {A} (cmp : A -> A -> Z) (a b : A) : Prop := (cmp a b <= 0)%Z.

Definition sortedRoutes (routes : list RouteDefinition) : list RouteDefinition :=
  sort compareRoutes routes.

Definition findBestMatchingRoute (pathname : string) (routes : list RouteDefinition)
  : option RouteDefinition :=
  find (fun route => matchesPattern pathname (path route)) (sortedRoutes routes).

End Dom.

(* ================================================================== *)
(** ** router.machine.ts *)
(* ================================================================== *)

Module Machine.
Import Types Platform.

(** what [onBeforeNavigate] may return: [void | boolean | string] *)
Inductive GuardResult :=
| ReturnsVoid
| ReturnsBool (b : bool)
| ReturnsString (s : string).

(** the props after [props()] has filled in the defaults.  The four
    observers only receive values; the record says whether each is
    given, and their calls are recorded among the effects. *)
Record Props := mkProps {
  basePath : string;
  hashRouting : bool;
  scrollToTop : bool;
  initialLocation : option PartialLocation;
  routes : option (list RouteDefinition);
  onBeforeNavigate : option (NavigationDetails -> GuardResult);
  onNavigate : bool;
  onNavigationStart : bool;
  onNavigationEnd : bool;
  onNavigationError : bool
}.

Inductive State := Initializing | Idle | Navigating | Error.

Inductive EventType :=
| NAVIGATE | BACK | FORWARD | REPLACE | PUSH | POP_STATE | HASH_CHANGE
| NAVIGATION_COMPLETE | NAVIGATION_ERROR | INITIALIZE.

(** [error] holds the message of the [Error] object *)
Record Event := mkEvent {
  ev_type : EventType;
  ev_pathname : option string;
  ev_search : option string;
  ev_hash : option string;
  ev_url : option string;
  ev_error : option string
}.

Definition plainEvent (t : EventType) : Event :=
  mkEvent t None None None None None.

Record Context := mkContext {
  location : RouteLocation;
  previousLocation : option RouteLocation;
  navigating : bool;
  pendingNavigation : option NavigationDetails;
  initialized : bool;
  historyStack : list RouteLocation;
  historyIndex : nat
}.

(** what the machine does to the outside, in the order it does it *)
Inductive Effect :=
| CallBeforeNavigate (details : NavigationDetails)
| CallNavigationStart (details : NavigationDetails)
| CallNavigationEnd (details : NavigationDetails)
| CallNavigate (details : NavigationDetails)
| CallNavigationError (message : string) (details : NavigationDetails)
| HistoryPushState (url : string)
| HistoryReplaceState (url : string)
| AssignLocationHash (value : string)
| ScrollTo (x y : nat).

(** callbacks handed to [setTimeout(..., 0)] *)
Inductive Timer :=
| TimerSend (e : Event)
| TimerInitialGuard.

(** [queue] holds the events sent and not yet handled; a timer runs
    once the queue is empty *)
Record Config := mkConfig {
  state : State;
  context : Context;
  window : option Window;
  queue : list Event;
  timers : list Timer;
  effects : list Effect
}.

Definition setContext (ctx : Context) (c : Config) : Config :=
  mkConfig (state c) ctx (window c) (queue c) (timers c) (effects c).
Definition setState (s : State) (c : Config) : Config :=
  mkConfig s (context c) (window c) (queue c) (timers c) (effects c).
Definition setQueue (q : list Event) (c : Config) : Config :=
  mkConfig (state c) (context c) (window c) q (timers c) (effects c).
Definition setTimers (t : list Timer) (c : Config) : Config :=
  mkConfig (state c) (context c) (window c) (queue c) t (effects c).
Definition setWindow (w : option Window) (c : Config) : Config :=
  mkConfig (state c) (context c) w (queue c) (timers c) (effects c).

Definition send (e : Event) (c : Config) : Config :=
  setQueue (queue c ++ [e]) c.
Definition setTimeout (t : Timer) (c : Config) : Config :=
  setTimers (timers c ++ [t]) c.
Definition perform (e : Effect) (c : Config) : Config :=
  mkConfig (state c) (context c) (window c) (queue c) (timers c) (effects c ++ [e]).

Definition setLocation (l : RouteLocation) (x : Context) : Context :=
  mkContext l (previousLocation x) (navigating x) (pendingNavigation x)
            (initialized x) (historyStack x) (historyIndex x).
Definition setPreviousLocation (l : option RouteLocation) (x : Context) : Context :=
  mkContext (location x) l (navigating x) (pendingNavigation x)
            (initialized x) (historyStack x) (historyIndex x).
Definition setNavigatingFlag (b : bool) (x : Context) : Context :=
  mkContext (location x) (previousLocation x) b (pendingNavigation x)
            (initialized x) (historyStack x) (historyIndex x).
Definition setPendingNavigation (d : option NavigationDetails) (x : Context) : Context :=
  mkContext (location x) (previousLocation x) (navigating x) d
            (initialized x) (historyStack x) (historyIndex x).
Definition setInitialized (b : bool) (x : Context) : Context :=
  mkContext (location x) (previousLocation x) (navigating x) (pendingNavigation x)
            b (historyStack x) (historyIndex x).
Definition setHistoryStack (s : list RouteLocation) (x : Context) : Context :=
  mkContext (location x) (previousLocation x) (navigating x) (pendingNavigation x)
            (initialized x) s (historyIndex x).
Definition setHistoryIndex (i : nat) (x : Context) : Context :=
  mkContext (location x) (previousLocation x) (navigating x) (pendingNavigation x)
            (initialized x) (historyStack x) i.

Definition setParams (p : list (string * string)) (l : RouteLocation) : RouteLocation :=
  mkLocation (pathname l) (search l) (hash l) p (query l) (meta l) (name l).
Definition setPathname (p : string) (l : RouteLocation) : RouteLocation :=
  mkLocation p (search l) (hash l) (params l) (query l) (meta l) (name l).
Definition setTo (l : RouteLocation) (d : NavigationDetails) : NavigationDetails :=
  mkDetails (from d) l (type d) (source d).

Definition rootLocation : RouteLocation :=
  mkLocation "/" "" "" [] [] None None.

(** *** Helper functions *)

Definition getInitialLocation (initialLocation : option PartialLocation)
  (basePath : string) (win : option Window) : RouteLocation :=
  match initialLocation with
  | Some i =>
      {| pathname := default "/" (p_pathname i);
         search := default "" (p_search i);
         hash := default "" (p_hash i);
         params := default [] (p_params i);
         query := default [] (p_query i);
         meta := p_meta i;
         name := p_name i |}
  | None =>
      match win with
      | None => rootLocation
      | Some w => Dom.parseUrl win (location_href w) basePath
      end
  end.

Definition truthy (o : option string) : bool :=
  match o with
  | Some s => negb (String.eqb s "")
  | None => false
  end.

Definition fromEntries (entries : list (string * string)) : list (string * QueryValue) :=
  fold_left (fun o kv => objSet o (fst kv) (QStr (snd kv))) entries [].

Definition createNavigationTarget (event : Event) (currentLocation : RouteLocation)
  (basePath : string) (win : option Window) : RouteLocation :=
  match ev_pathname event with
  | Some p =>
      {| pathname := Js.orElse p "/";
         search := Js.optOrElse (ev_search event) "";
         hash := Js.optOrElse (ev_hash event) "";
         params := [];
         query := if truthy (ev_search event)
                  then fromEntries (URLSearchParams (default "" (ev_search event)))
                  else [];
         meta := None;
         name := None |}
  | None =>
      if truthy (ev_url event)
      then Dom.parseUrl win (default "" (ev_url event)) basePath
      else currentLocation
  end.

Definition getNavigationType (event : Event) : NavigationType :=
  match ev_type event with
  | PUSH => push
  | REPLACE => replace
  | BACK => back
  | FORWARD => forward
  | POP_STATE => back
  | HASH_CHANGE => push
  | INITIALIZE => initial
  | _ => push
  end.

Definition findRouteByLocation (location : RouteLocation) (routes : list RouteDefinition)
  : option RouteDefinition :=
  Dom.findBestMatchingRoute (pathname location) routes.

Definition enrichLocationWithMeta (location : RouteLocation)
  (routes : option (list RouteDefinition)) : RouteLocation :=
  match routes with
  | None => location
  | Some rs =>
      match findRouteByLocation location rs with
      | None => location
      | Some matchedRoute =>
          mkLocation (pathname location) (search location) (hash location)
                     (params location) (query location)
                     (route_meta matchedRoute) (route_name matchedRoute)
      end
  end.

Definition createNavigationDetailsWithMeta (from : option RouteLocation)
  (to : RouteLocation) (type : NavigationType) (source : NavigationSource)
  (routes : option (list RouteDefinition)) : NavigationDetails :=
  {| from := option_map (fun f => enrichLocationWithMeta f routes) from;
     to := enrichLocationWithMeta to routes;
     type := type;
     source := Some source |}.

(** [location.params = extractParams(...)] when a route matches *)
Definition withRouteParams (location : RouteLocation)
  (routes : option (list RouteDefinition)) : RouteLocation :=
  match routes with
  | None => location
  | Some rs =>
      match findRouteByLocation location rs with
      | Some matchedRoute =>
          setParams (Dom.extractParams (pathname location) (path matchedRoute)) location
      | None => location
      end
  end.

(** *** Implementations

    The actions and guards that a transition or an entry names.  (The
    action [initializeLocation] and the guards [isHistoryRouting] and
    [canNavigate] are named by none and left out.)

    An action gets the event being handled and the configuration.  It
    yields [None] where the code would go on with [undefined] in the
    place of a [RouteLocation] (an entry read or left outside the
    history stack); the embedding does not follow the code there. *)
Definition Action := Event -> Config -> option Config.

Definition updateContext (f : Context -> Context) (c : Config) : Config :=
  setContext (f (context c)) c.

(** the details [invokeNavigationError] hands to the observer *)
Definition errorDetails : NavigationDetails :=
  {| from := None;
     to := mkLocation "" "" "" [] [] None None;
     type := push;
     source := Some programmatic |}.

Definition completeEvent : Event := plainEvent NAVIGATION_COMPLETE.

Definition preventedEvent : Event :=
  mkEvent NAVIGATION_ERROR None None None None (Some "Navigation prevented").

Definition state_eqb (a b : State) : bool :=
  match a, b with
  | Initializing, Initializing | Idle, Idle
  | Navigating, Navigating | Error, Error => true
  | _, _ => false
  end.

Section Implementations.
Variable P : Props.

Definition currentUrl (c : Config) : string :=
  match window c with
  | Some w => location_href w
  | None => "/"
  end.

(** guards *)
Definition isHashRouting (c : Config) : bool := hashRouting P.
Definition canGoBack (c : Config) : bool :=
  (0 <? historyIndex (context c))%nat.
Definition canGoForward (c : Config) : bool :=
  (historyIndex (context c) <? length (historyStack (context c)) - 1)%nat.

(** actions *)
Definition initializeWithGuards : Action := fun _ c =>
  let location := Dom.parseUrl (window c) (currentUrl c) (basePath P) in
  let location := withRouteParams location (routes P) in
  let navigationDetails :=
    createNavigationDetailsWithMeta None location initial browser (routes P) in
  Some (updateContext
          (fun x => setInitialized true
                      (setPendingNavigation (Some navigationDetails) x)) c).

Definition setNavigating : Action := fun event c =>
  let x := setNavigatingFlag true (context c) in
  let to := createNavigationTarget event (location x) (basePath P) (window c) in
  let from := location x in
  let type := getNavigationType event in
  let navigationDetails :=
    createNavigationDetailsWithMeta (Some from) to type programmatic (routes P) in
  Some (setContext (setPendingNavigation (Some navigationDetails) x) c).

Definition clearNavigating : Action := fun _ c =>
  Some (updateContext
          (fun x => setPendingNavigation None (setNavigatingFlag false x)) c).

Definition updateLocation : Action := fun _ c =>
  let x := context c in
  match pendingNavigation x with
  | None => Some c
  | Some pendingNav =>
      let enrichedCurrentLocation := enrichLocationWithMeta (location x) (routes P) in
      let newLocation := withRouteParams (to pendingNav) (routes P) in
      let enrichedNewLocation := enrichLocationWithMeta newLocation (routes P) in
      Some (setContext
              (setLocation enrichedNewLocation
                 (setPendingNavigation (Some (setTo newLocation pendingNav))
                    (setPreviousLocation (Some enrichedCurrentLocation) x))) c)
  end.

Definition updateHistory : Action := fun _ c =>
  let x := context c in
  match pendingNavigation x with
  | None => Some c
  | Some pendingNav =>
      let stack := historyStack x in
      let index := historyIndex x in
      match type pendingNav with
      | push =>
          let newStack := firstn (index + 1) stack ++ [to pendingNav] in
          Some (setContext
                  (setHistoryIndex (length newStack - 1)
                     (setHistoryStack newStack x)) c)
      | replace =>
          if (index <? length stack)%nat then
            Some (setContext (setHistoryStack (<[index := to pendingNav]> stack) x) c)
          else if (index =? length stack)%nat then
            Some (setContext (setHistoryStack (stack ++ [to pendingNav]) x) c)
          else None
      | back => Some c
      | forward => Some c
      | initial => Some c
      end
  end.

Definition goBack : Action := fun _ c =>
  let x := context c in
  let index := historyIndex x in
  if (0 <? index)%nat then
    match historyStack x !! (index - 1)%nat with
    | Some location =>
        let navigationDetails :=
          createNavigationDetailsWithMeta
            (Some (Machine.location x)) location back programmatic (routes P) in
        Some (setContext
                (setPendingNavigation (Some navigationDetails)
                   (setHistoryIndex (index - 1) x)) c)
    | None => None
    end
  else Some c.

Definition goForward : Action := fun _ c =>
  let x := context c in
  let index := historyIndex x in
  let stack := historyStack x in
  if (index <? length stack - 1)%nat then
    match stack !! (index + 1)%nat with
    | Some location =>
        let navigationDetails :=
          createNavigationDetailsWithMeta
            (Some (Machine.location x)) location forward programmatic (routes P) in
        Some (setContext
                (setPendingNavigation (Some navigationDetails)
                   (setHistoryIndex (index + 1) x)) c)
    | None => None
    end
  else Some c.

Definition handlePopState : Action := fun _ c =>
  let x := context c in
  let location := Dom.parseUrl (window c) (currentUrl c) (basePath P) in
  let navigationDetails :=
    createNavigationDetailsWithMeta
      (Some (Machine.location x)) location back browser (routes P) in
  Some (setTimeout (TimerSend completeEvent)
          (setContext (setPendingNavigation (Some navigationDetails) x) c)).

Definition handleHashChange : Action := fun _ c =>
  if negb (hashRouting P) then Some c
  else
    let x := context c in
    let hash := match window c with
                | Some w => location_hash w
                | None => ""
                end in
    let pathname := Js.orElse (Js.sliceFrom 1 hash) "/" in
    let location := setPathname pathname (Machine.location x) in
    let navigationDetails :=
      createNavigationDetailsWithMeta
        (Some (Machine.location x)) location push browser (routes P) in
    Some (setTimeout (TimerSend completeEvent)
            (setContext (setPendingNavigation (Some navigationDetails) x) c)).

Definition invokeNavigationStart : Action := fun _ c =>
  match pendingNavigation (context c) with
  | Some pendingNav =>
      if onNavigationStart P then Some (perform (CallNavigationStart pendingNav) c)
      else Some c
  | None => Some c
  end.

Definition invokeNavigationEnd : Action := fun _ c =>
  match pendingNavigation (context c) with
  | Some pendingNav =>
      if onNavigationEnd P then Some (perform (CallNavigationEnd pendingNav) c)
      else Some c
  | None => Some c
  end.

Definition invokeOnNavigate : Action := fun _ c =>
  match pendingNavigation (context c) with
  | Some pendingNav =>
      if onNavigate P then Some (perform (CallNavigate pendingNav) c)
      else Some c
  | None => Some c
  end.

Definition invokeNavigationError : Action := fun event c =>
  match ev_error event with
  | Some message =>
      if onNavigationError P
      then Some (perform (CallNavigationError message errorDetails) c)
      else Some c
  | None => Some c
  end.

Definition invokeBeforeNavigate : Action := fun _ c =>
  let x := context c in
  match onBeforeNavigate P, pendingNavigation x with
  | Some guard, Some pendingNav =>
      let c := perform (CallBeforeNavigate pendingNav) c in
      match guard pendingNav with
      | ReturnsBool false => Some (send preventedEvent c)
      | ReturnsString result =>
          let redirectLocation := Dom.parseUrl (window c) result (basePath P) in
          let enrichedLocation := enrichLocationWithMeta redirectLocation (routes P) in
          let redirectDetails :=
            createNavigationDetailsWithMeta
              (Some (location x)) enrichedLocation replace programmatic (routes P) in
          Some (send completeEvent
                  (setContext (setPendingNavigation (Some redirectDetails) x) c))
      | _ => Some (send completeEvent c)
      end
  | _, _ => Some (send completeEvent c)
  end.

(** the callback [invokeBeforeNavigateForInitial] hands to [setTimeout] *)
Definition initialGuardCallback (c : Config) : option Config :=
  let x := context c in
  match onBeforeNavigate P, pendingNavigation x with
  | Some guard, Some pendingNav =>
      let c := perform (CallBeforeNavigate pendingNav) c in
      match guard pendingNav with
      | ReturnsBool false =>
          let fallbackLocation := Dom.parseUrl (window c) "/" (basePath P) in
          let enrichedFallback := enrichLocationWithMeta fallbackLocation (routes P) in
          let fallbackDetails :=
            createNavigationDetailsWithMeta
              None enrichedFallback replace programmatic (routes P) in
          Some (send completeEvent
                  (setContext (setPendingNavigation (Some fallbackDetails) x) c))
      | ReturnsString result =>
          let redirectLocation := Dom.parseUrl (window c) result (basePath P) in
          let enrichedLocation := enrichLocationWithMeta redirectLocation (routes P) in
          let redirectDetails :=
            createNavigationDetailsWithMeta
              None enrichedLocation replace programmatic (routes P) in
          Some (send completeEvent
                  (setContext (setPendingNavigation (Some redirectDetails) x) c))
      | _ => Some (send completeEvent c)
      end
  | _, _ => Some (send completeEvent c)
  end.

Definition invokeBeforeNavigateForInitial : Action := fun _ c =>
  Some (setTimeout TimerInitialGuard c).

Definition updateBrowserHistory : Action := fun _ c =>
  match window c with
  | None => Some c
  | Some _ =>
      let pendingNav := pendingNavigation (context c) in
      let location := match pendingNav with
                      | Some d => to d
                      | None => Machine.location (context c)
                      end in
      let url := Dom.createUrl (pathname location) (search location)
                               (hash location) (basePath P) in
      if hashRouting P then
        Some (perform (AssignLocationHash (pathname location +:+ search location)) c)
      else
        match pendingNav with
        | Some (mkDetails _ _ back (Some browser))
        | Some (mkDetails _ _ forward (Some browser)) => Some c
        | Some (mkDetails _ _ replace _)
        | Some (mkDetails _ _ back _)
        | Some (mkDetails _ _ forward _) => Some (perform (HistoryReplaceState url) c)
        | _ => Some (perform (HistoryPushState url) c)
        end
  end.

Definition scrollToTopEffect : Action := fun _ c =>
  match window c with
  | Some _ => if scrollToTop P then Some (perform (ScrollTo 0 0) c) else Some c
  | None => Some c
  end.

(** *** The machine *)

Record Transition := mkTransition {
  guard : option (Config -> bool);
  target : option State;
  actions : list Action
}.

Definition start_navigation (extra : list Action) : Transition :=
  mkTransition None (Some Navigating) ([setNavigating; invokeNavigationStart] ++ extra).

Definition guarded_navigation (g : Config -> bool) (extra : list Action) : Transition :=
  mkTransition (Some g) (Some Navigating) ([setNavigating; invokeNavigationStart] ++ extra).

Definition on (s : State) (t : EventType) : list Transition :=
  match s, t with
  | Initializing, NAVIGATION_COMPLETE =>
      [mkTransition None (Some Idle)
         [updateLocation; updateHistory; invokeNavigationEnd; invokeOnNavigate;
          clearNavigating]]
  | Initializing, NAVIGATION_ERROR =>
      [mkTransition None (Some Error) [clearNavigating; invokeNavigationError]]
  | Idle, NAVIGATE | Idle, PUSH | Idle, REPLACE => [start_navigation []]
  | Idle, BACK => [guarded_navigation canGoBack [goBack]]
  | Idle, FORWARD => [guarded_navigation canGoForward [goForward]]
  | Idle, POP_STATE => [start_navigation [handlePopState]]
  | Idle, HASH_CHANGE => [guarded_navigation isHashRouting [handleHashChange]]
  | Navigating, NAVIGATION_COMPLETE =>
      [mkTransition None (Some Idle)
         [updateLocation; updateHistory; updateBrowserHistory; scrollToTopEffect;
          invokeNavigationEnd; invokeOnNavigate; clearNavigating]]
  | Navigating, NAVIGATION_ERROR =>
      [mkTransition None (Some Error) [clearNavigating; invokeNavigationError]]
  | Navigating, NAVIGATE =>
      [mkTransition None None [setNavigating; invokeNavigationStart]]
  | Error, NAVIGATE | Error, PUSH | Error, REPLACE => [start_navigation []]
  | Error, BACK => [guarded_navigation canGoBack [goBack]]
  | Error, FORWARD => [guarded_navigation canGoForward [goForward]]
  | _, _ => []
  end.

Definition entry (s : State) : list Action :=
  match s with
  | Initializing => [invokeBeforeNavigateForInitial]
  | Navigating => [invokeBeforeNavigate]
  | _ => []
  end.

(** the first transition whose guard lets it through *)
Definition choose (ts : list Transition) (c : Config) : option Transition :=
  find (fun tr => match guard tr with
                  | Some g => g c
                  | None => true
                  end) ts.

Fixpoint runActions (acts : list Action) (event : Event) (c : Config) : option Config :=
  match acts with
  | [] => Some c
  | a :: rest =>
      match a event c with
      | Some c' => runActions rest event c'
      | None => None
      end
  end.

(** the transition an event selects, carried out up to the entry
    actions of its target: [None] when the event selects none *)
Definition transit (event : Event) (c : Config) : option (option Config) :=
  match choose (on (state c) (ev_type event)) c with
  | None => None
  | Some tr =>
      Some (runActions (actions tr) event
                       (setState (default (state c) (target tr)) c))
  end.

(** handling one event: the chosen transition's actions, then the
    entry actions of the target when the state changes; an event that
    selects no transition is dropped *)
Definition dispatch (event : Event) (c : Config) : option Config :=
  match choose (on (state c) (ev_type event)) c with
  | None => Some c
  | Some tr =>
      let target := default (state c) (target tr) in
      let changed := negb (state_eqb target (state c)) in
      match runActions (actions tr) event (setState target c) with
      | None => None
      | Some c' => if changed then runActions (entry target) event c' else Some c'
      end
  end.

Definition fire (t : Timer) (c : Config) : option Config :=
  match t with
  | TimerSend e => Some (send e c)
  | TimerInitialGuard => initialGuardCallback c
  end.

(** the machine after construction: the root entry action, then the
    entry action of the initial state *)
Definition initialContext (win : option Window) : Context :=
  let initialLocation := getInitialLocation (initialLocation P) (basePath P) win in
  {| location := initialLocation;
     previousLocation := None;
     navigating := false;
     pendingNavigation := None;
     initialized := false;
     historyStack := [initialLocation];
     historyIndex := 0 |}.

Definition start (win : option Window) : option Config :=
  runActions ([initializeWithGuards] ++ entry Initializing)
             (plainEvent INITIALIZE)
             (mkConfig Initializing (initialContext win) win [] [] []).

(** what the machine does next by itself: the oldest event sent,
    or, with no event waiting, the oldest timer *)
Definition next (c : Config) : option Config :=
  match queue c with
  | e :: q => dispatch e (setQueue q c)
  | [] =>
      match timers c with
      | t :: ts => fire t (setTimers ts c)
      | [] => None
      end
  end.

Fixpoint run (n : nat) (c : Config) : option Config :=
  match n with
  | O => Some c
  | S n' =>
      match next c with
      | Some c' => run n' c'
      | None => None
      end
  end.

(** the steps of a machine in its surroundings: its own, an event
    sent from outside, the host moving to another address *)
Inductive Step : Config -> Config -> Prop :=
| StepNext c c' : next c = Some c' -> Step c c'
| StepSend c e : Step c (send e c)
| StepAddress c w : Step c (setWindow (option_map (fun _ => w) (window c)) c).

Inductive Reachable (win : option Window) : Config -> Prop :=
| ReachStart c : start win = Some c -> Reachable win c
| ReachStep c c' : Reachable win c -> Step c c' -> Reachable win c'.

End Implementations.

Definition settled (c : Config) : Prop := queue c = [] /\ timers c = [].

(** the history invariant: the index points into the stack *)
Definition historyOk (x : Context) : Prop :=
  (historyIndex x < length (historyStack x))%nat.

(** an error notification that carries the details [invokeNavigationError]
    makes up *)
Definition notifiesErrorDetails (e : Effect) : Prop :=
  match e with
  | CallNavigationError _ details => details = errorDetails
  | _ => True
  end.

(** details that come from somewhere, or are not of type push *)
Definition proper (d : NavigationDetails) : Prop :=
  from d <> None \/ type d <> push.

Definition Invariant (c : Config) : Prop :=
  historyOk (context c)
  /\ Forall notifiesErrorDetails (effects c)
  /\ (forall d, pendingNavigation (context c) = Some d -> proper d).

Definition Preserves (a : Action) : Prop :=
  forall event c c', a event c = Some c' -> Invariant c -> Invariant c'.

Definition isGuardCall (e : Effect) : bool :=
  match e with
  | CallBeforeNavigate _ => true
  | _ => false
  end.

(** how often the guard has been asked *)
Definition guardCalls (c : Config) : nat :=
  length (List.filter isGuardCall (effects c)).

Definition isErrorCall (e : Effect) : bool :=
  match e with
  | CallNavigationError _ _ => true
  | _ => false
  end.

(** an effect other than a call of the guard or of the error observer *)
Definition quiet (e : Effect) : Prop :=
  isGuardCall e = false /\ isErrorCall e = false.

(** [c'] differs from [c] as the start of a navigation makes it differ:
    the state, the address, the events waiting and the current location
    are the same, the history invariant is kept, the only timers added send
    NAVIGATION_COMPLETE, and the only effects added are quiet ones *)
Definition started (c c' : Config) : Prop :=
  state c' = state c
  /\ window c' = window c
  /\ queue c' = queue c
  /\ location (context c') = location (context c)
  /\ (historyOk (context c) -> historyOk (context c'))
  /\ (exists ts, timers c' = timers c ++ ts
                 /\ Forall (eq (TimerSend completeEvent)) ts)
  /\ (exists es, effects c' = effects c ++ es /\ Forall quiet es).

Definition Starts (a : Action) : Prop :=
  forall event c c', a event c = Some c' -> started c c'.

(** [c'] differs from [c] at most in quiet effects added and in parts of
    the context other than the current location, the history invariant
    being kept *)
Definition quietly (c c' : Config) : Prop :=
  state c' = state c
  /\ window c' = window c
  /\ queue c' = queue c
  /\ timers c' = timers c
  /\ location (context c') = location (context c)
  /\ pendingNavigation (context c') = pendingNavigation (context c)
  /\ (historyOk (context c) -> historyOk (context c'))
  /\ (exists es, effects c' = effects c ++ es /\ Forall quiet es).

(** an action that always goes through, quietly *)
Definition Quiet (a : Action) : Prop :=
  forall event c, exists c', a event c = Some c' /\ quietly c c'.

End Machine.

(* ================================================================== *)
(** ** router.connect.ts *)
(* ================================================================== *)

Module Connect.
Import Types Platform Machine.

(** the argument [to]: a string or a [Partial<RouteLocation>] *)
Inductive Target :=
| ToString (url : string)
| ToLocation (l : PartialLocation).

Definition asPartial (l : RouteLocation) : PartialLocation :=
  {| p_pathname := Some (pathname l);
     p_search := Some (search l);
     p_hash := Some (hash l);
     p_params := Some (params l);
     p_query := Some (query l);
     p_meta := meta l;
     p_name := name l |}.

Section Api.
Variable P : Props.
Variable service : Config.

(** [typeof to === "string" ? dom.parseUrl(to, prop("basePath")) : to] *)
Definition resolve (to : Target) : PartialLocation :=
  match to with
  | ToString url => asPartial (Dom.parseUrl (window service) url (basePath P))
  | ToLocation l => l
  end.

Definition createUrl (to : Target) : string :=
  let target := resolve to in
  Dom.createUrl (Js.optOrElse (p_pathname target) "/")
                (Js.optOrElse (p_search target) "")
                (Js.optOrElse (p_hash target) "")
                (basePath P).

Definition isActive (to : Target) (exact : bool) : bool :=
  let target := resolve to in
  let currentPathname := pathname (location (context service)) in
  if exact then String.eqb currentPathname (Js.optOrElse (p_pathname target) "/")
  else
    let targetPathname := Js.optOrElse (p_pathname target) "/" in
    Js.startsWith currentPathname targetPathname.

Definition parseUrl (url : string) : RouteLocation :=
  Dom.parseUrl (window service) url (basePath P).

End Api.

End Connect.

(* ================================================================== *)
(** ** Vocabulary of the properties *)
(* ================================================================== *)

Module Specificity.
Import Types.

(** the three quantities the comparator looks at *)
Definition isStatic (r : RouteDefinition) : bool :=
  negb (Js.includes (path r) ":") && negb (Js.includes (path r) "*").
Definition segments (r : RouteDefinition) : nat :=
  length (Js.split "/" (path r)).
Definition hasWildcard (r : RouteDefinition) : bool :=
  Js.includes (path r) "*".

(** [a] is strictly more specific than [b] *)
Definition precedes (a b : RouteDefinition) : Prop :=
  (isStatic a = true /\ isStatic b = false)
  \/ (isStatic a = isStatic b
      /\ ((segments b < segments a)%nat
          \/ (segments a = segments b
              /\ hasWildcard a = false /\ hasWildcard b = true))).

(** neither is more specific than the other *)
Definition tied (a b : RouteDefinition) : bool :=
  (Dom.compareRoutes a b =? 0)%Z.

(** the order as the description has it: a pattern with a wildcard
    comes after every pattern without one, whatever their lengths *)
Definition describedBefore (a b : RouteDefinition) : Prop :=
  (isStatic a = true /\ isStatic b = false)
  \/ (isStatic a = false /\ isStatic b = false
      /\ hasWildcard a = false /\ hasWildcard b = true).

Definition matching (pathname : string) (r : RouteDefinition) : bool :=
  Dom.matchesPattern pathname (path r).

(** no two different matching routes of the list are tied *)
Definition unambiguous (pathname : string) (routes : list RouteDefinition) : Prop :=
  forall a b, In a routes -> In b routes ->
    matching pathname a = true -> matching pathname b = true ->
    Dom.compareRoutes a b = 0%Z -> a = b.

End Specificity.

Module Prefix.

(** the description's reading of a non-exact match: the current path
    is the target, or continues it at a segment boundary *)
Definition segmentOrFull (target current : string) : Prop :=
  current = target \/ exists rest, current = target +:+ "/" +:+ rest.

(** a path that the address parser leaves as it is: it starts with one
    slash and has neither query nor fragment *)
Definition plainPath (s : string) : bool :=
  Js.startsWith s "/" && negb (Js.startsWith s "//")
  && negb (Js.includes s "?") && negb (Js.includes s "#").

End Prefix.

Module Examples.
Import Types Platform Machine.

Definition route (p : string) : RouteDefinition := mkRoute p None None.

Definition at_path (p : string) : RouteLocation :=
  mkLocation p "" "" [] [] None None.

Definition only_pathname (p : string) : PartialLocation :=
  mkPartial (Some p) None None None None None None.

Definition bare_props : Props :=
  mkProps "/" false true None None None false false false false.

Definition props_with (base : string) (rs : option (list RouteDefinition))
  (g : option (NavigationDetails -> GuardResult)) : Props :=
  mkProps base false true None rs g true true true true.

Definition resting_at (p : string) : Config :=
  mkConfig Idle
    (mkContext (at_path p) None false None true [at_path p] 0)
    None [] [] [].

Definition navigate_to (p : string) : Event :=
  mkEvent NAVIGATE (Some p) None None None None.

(** a guard that lets nothing through, and one that sends everything to
    [/login] *)
Definition blocking_props : Props :=
  props_with "/" None (Some (fun _ => ReturnsBool false)).

Definition redirecting_props (base : string) : Props :=
  props_with base None (Some (fun _ => ReturnsString "/login")).

(** a machine without a window after its first load *)
Definition loaded (P : Props) : option Config :=
  match start P None with
  | Some c => run P 2 c
  | None => None
  end.

Definition the (o : option Config) : Config :=
  match o with
  | Some c => c
  | None => resting_at ""
  end.

(** the redirecting machine under the base path [/login], loaded *)
Definition login_under_login : Config :=
  Eval vm_compute in the (loaded (redirecting_props "/login")).

(** the blocking machine, loaded, and then asked to go to [/admin] *)
Definition blocking_loaded : Config :=
  Eval vm_compute in the (loaded blocking_props).

Definition blocked_at_admin : Config :=
  Eval vm_compute in
    the (run blocking_props 2 (send (navigate_to "/admin") blocking_loaded)).

End Examples.

(* ================================================================== *)
(** ** router.connect.ts: the methods *)
(* ================================================================== *)

Module Methods.
Import Types Platform Machine Connect.

Section Methods.
Variable P : Props.
Variable service : Config.

(** [navigate(to, options)]: the event it sends.  The [state] option
    travels with the event and is read nowhere. *)
Definition navigateEvent (to : Target) (replaceOption : bool) : Event :=
  let target := resolve P service to in
  {| ev_type := if replaceOption then REPLACE else NAVIGATE;
     ev_pathname := Some (Js.optOrElse (p_pathname target) "/");
     ev_search := Some (Js.optOrElse (p_search target) "");
     ev_hash := Some (Js.optOrElse (p_hash target) "");
     ev_url := None;
     ev_error := None |}.

Definition navigate (to : Target) (replaceOption : bool) : Config :=
  send (navigateEvent to replaceOption) service.

Definition push (to : Target) : Config := navigate to false.

Definition replace (to : Target) : Config := navigate to true.

Definition back : Config := send (plainEvent BACK) service.

Definition forward : Config := send (plainEvent FORWARD) service.

(** [go(delta)] for an integral [delta]: one call of [back] or [forward]
    for each step *)
Definition go (delta : Z) : Config :=
  if (delta <? 0)%Z then Nat.iter (Z.abs_nat delta) (send (plainEvent BACK)) service
  else if (0 <? delta)%Z then Nat.iter (Z.to_nat delta) (send (plainEvent FORWARD)) service
  else service.

(** the attributes of [getLinkProps] that depend on the location, for a
    link to the address [to] *)
Definition linkHref (to : string) : string := createUrl P service (ToString to).

Definition linkActive (to : string) : bool := isActive P service (ToString to) false.

Definition linkCurrent (to : string) : bool :=
  String.eqb (pathname (location (context service)))
             (pathname (Dom.parseUrl (window service) to (basePath P))).

(** the computed values [canGoBack], [canGoForward] are the guards of the
    same names; [currentRouteName] and [currentRouteMeta]: *)
Definition currentRoute : option RouteDefinition :=
  match routes P with
  | None => None
  | Some rs => findRouteByLocation (location (context service)) rs
  end.

Definition currentRouteName : option string :=
  match currentRoute with
  | Some r => route_name r
  | None => None
  end.

Definition currentRouteMeta : option Meta :=
  match currentRoute with
  | Some r => route_meta r
  | None => None
  end.

End Methods.

End Methods.

(* ================================================================== *)
(** ** Further vocabulary *)
(* ================================================================== *)

Module Query.
Import Types.

(** the values given to a key, in the order of the entries *)
Definition valuesOf (k : string) (entries : list (string * string)) : list string :=
  map snd (List.filter (fun kv => String.eqb (fst kv) k) entries).

(** without the empty strings in front *)
Fixpoint dropEmpty (vs : list string) : list string :=
  match vs with
  | EmptyString :: vs' => dropEmpty vs'
  | _ => vs
  end.

(** what a list of values comes to under one key: nothing for no value,
    a string for one, a list for more; empty strings in front are lost to
    the value behind them *)
Definition collapsed (vs : list string) : option QueryValue :=
  match vs with
  | [] => None
  | _ :: _ =>
      match dropEmpty vs with
      | [] => Some (QStr EmptyString)
      | [v] => Some (QStr v)
      | l => Some (QArr l)
      end
  end.

Definition lastOf (vs : list string) : option string :=
  match rev vs with
  | v :: _ => Some v
  | [] => None
  end.

(** a captured segment: not empty, and without a slash *)
Definition segmentValue (v : string) : Prop :=
  v <> EmptyString /\ Js.includes v "/" = false.

(** what one more value makes of the value stored under its key *)
Definition step (stored : option QueryValue) (value : string) : QueryValue :=
  match stored with
  | Some (QArr l) => QArr (l ++ [value])
  | Some (QStr EmptyString) => QStr value
  | Some (QStr s) => QArr [s; value]
  | None => QStr value
  end.

(** the names every object has from its prototype: [query[key]] finds
    something under them before any entry is stored *)
Definition inherited : list string :=
  ["constructor"; "hasOwnProperty"; "isPrototypeOf"; "propertyIsEnumerable";
   "toLocaleString"; "toString"; "valueOf"; "__proto__";
   "__defineGetter__"; "__defineSetter__"; "__lookupGetter__"; "__lookupSetter__"].

Definition plainKey (k : string) : bool :=
  negb (existsb (String.eqb k) inherited).

(** the address object [parseUrl] reads *)
Definition urlOf (win : option Platform.Window) (url : string) : Platform.URLObject :=
  match win with
  | None => Platform.URL url "http://localhost"
  | Some w =>
      if Js.startsWith url "/" || Js.includes url "://"
      then Platform.URL url (Platform.location_origin w)
      else Platform.URL url (Platform.location_href w)
  end.

End Query.

Module Commit.
Import Types Platform Machine.

(** the guard lets the navigation through: there is none, or it returns
    neither [false] nor a string *)
Definition allows (P : Props) (d : NavigationDetails) : bool :=
  match onBeforeNavigate P with
  | None => true
  | Some guard =>
      match guard d with
      | ReturnsBool false => false
      | ReturnsString _ => false
      | _ => true
      end
  end.

(** an effect on the address of the host *)
Definition isAddressWrite (e : Effect) : bool :=
  match e with
  | HistoryPushState _ | HistoryReplaceState _ | AssignLocationHash _ => true
  | _ => false
  end.

(** the details as the observers of a commit get them: the target
    carries the parameters of its route *)
Definition committedDetails (P : Props) (d : NavigationDetails) : NavigationDetails :=
  setTo (withRouteParams (to d) (routes P)) d.

(** the location a commit makes current *)
Definition committedLocation (P : Props) (d : NavigationDetails) : RouteLocation :=
  enrichLocationWithMeta (withRouteParams (to d) (routes P)) (routes P).

(** several effects, one after the other *)
Definition performs (es : list Effect) (c : Config) : Config :=
  mkConfig (state c) (context c) (window c) (queue c) (timers c) (effects c ++ es).

(** the call of an observer that may not be there *)
Definition when (given : bool) (e : Effect) : list Effect :=
  if given then [e] else [].

(** the call of the guard, if there is one *)
Definition asked (P : Props) (d : NavigationDetails) : list Effect :=
  match onBeforeNavigate P with
  | Some _ => [CallBeforeNavigate d]
  | None => []
  end.

(** an action that leaves the state and the flag [navigating] as they
    are, and a pending navigation pending *)
Definition steady (a : Action) : Prop :=
  forall event c c', a event c = Some c' ->
    state c' = state c
    /\ navigating (context c') = navigating (context c)
    /\ (pendingNavigation (context c) <> None -> pendingNavigation (context c') <> None).

(** the machine is busy exactly in [navigating]; at rest nothing is pending *)
Definition flagsOk (c : Config) : Prop :=
  match state c with
  | Navigating =>
      navigating (context c) = true /\ pendingNavigation (context c) <> None
  | Initializing => navigating (context c) = false
  | Idle | Error =>
      navigating (context c) = false /\ pendingNavigation (context c) = None
  end.

End Commit.

Module Pattern.
Import Types.

(** the characters that are operators in a regular expression *)
Definition isRegexOperator (c : ascii) : bool :=
  existsb (Ascii.eqb c)
          ["\"; "^"; "$"; "."; "|"; "?"; "*"; "+"; "("; ")"; "["; "]"; "{"; "}"]%char.

Fixpoint regexFree (pattern : string) : bool :=
  match pattern with
  | EmptyString => true
  | String c s => negb (isRegexOperator c) && regexFree s
  end.

(** the names of the parameters of a pattern, in order *)
Fixpoint paramNamesOf (ts : list Dom.Token) : list string :=
  match ts with
  | [] => []
  | Dom.TLit _ :: ts' => paramNamesOf ts'
  | Dom.TParam n :: ts' => n :: paramNamesOf ts'
  end.

Definition paramNames (pattern : string) : list string :=
  paramNamesOf (Dom.tokenize pattern).

Definition isDigit (c : ascii) : bool :=
  let n := nat_of_ascii c in ((48 <=? n) && (n <=? 57))%nat.

(** a name that may name a group and that [Object.assign] makes a key of
    the result: it does not start with a digit, and it is not [__proto__],
    whose assignment sets no key *)
Definition groupName (n : string) : bool :=
  match n with
  | EmptyString => false
  | String c _ => negb (isDigit c) && negb (String.eqb n "__proto__")
  end.

(** every character of the string has the property *)
Fixpoint allChars (p : ascii -> bool) (s : string) : bool :=
  match s with
  | EmptyString => true
  | String c s' => p c && allChars p s'
  end.

(** the tokens of a text without parameters *)
Fixpoint literals (s : string) : list Dom.Token :=
  match s with
  | EmptyString => []
  | String c s' => Dom.TLit c :: literals s'
  end.

(** a pattern with its parameters filled in: each [:name] gives way to
    the value the parameters have for it *)
Fixpoint fillTokens (ts : list Dom.Token) (params : list (string * string)) : string :=
  match ts with
  | [] => EmptyString
  | Dom.TLit c :: ts' => String c (fillTokens ts' params)
  | Dom.TParam n :: ts' =>
      match objGet params n with
      | Some v => v
      | None => EmptyString
      end +:+ fillTokens ts' params
  end.

Definition fill (pattern : string) (params : list (string * string)) : string :=
  fillTokens (Dom.tokenize pattern) params.

(** the loop in which [matchTokens] lets a group take its characters *)
Section GroupLoop.
Variable n : string.
Variable continue : string -> option (list (string * string)).

Fixpoint groupLoop (captured s : string) {struct s}
  : option (list (string * string)) :=
  match s with
  | EmptyString => None
  | String d s' =>
      if Ascii.eqb d "/" then None
      else
        let captured' := captured +:+ String d EmptyString in
        match groupLoop captured' s' with
        | Some r => Some r
        | None =>
            match continue s' with
            | Some r => Some ((n, captured') :: r)
            | None => None
            end
        end
  end.

End GroupLoop.

(** a pattern whose regular expressions the host accepts and reads as
    the tokens do, and whose groups all become parameters: no operators of
    its own, parameter names that may name groups, each name once *)
Definition wellFormed (pattern : string) : Prop :=
  regexFree pattern = true
  /\ forallb groupName (paramNames pattern) = true
  /\ List.NoDup (paramNames pattern).

End Pattern.

Module Visits.
Import Types Platform Machine.

(** a machine at rest at the second of the two pages it has visited *)
Definition at_second : Config :=
  mkConfig Idle
    (mkContext (Examples.at_path "/about") (Some (Examples.at_path "/")) false None true
               [Examples.at_path "/"; Examples.at_path "/about"] 1)
    None [] [] [].

(** the same machine gone back to the first *)
Definition at_first : Config :=
  mkConfig Idle
    (mkContext (Examples.at_path "/") (Some (Examples.at_path "/about")) false None true
               [Examples.at_path "/"; Examples.at_path "/about"] 0)
    None [] [] [].

(** a browser showing [/about] *)
Definition showing_about : Window :=
  mkWindow "http://localhost/about" "http://localhost" "".

(** a machine at rest at [/] in a browser that has moved on to [/about] *)
Definition behind_browser : Config :=
  mkConfig Idle
    (mkContext (Examples.at_path "/") None false None true [Examples.at_path "/"] 0)
    (Some showing_about) [] [] [].

(** a machine in the middle of three pages, about to commit a push, and
    the same about to commit a replace *)
Definition three_pages : list RouteLocation :=
  [Examples.at_path "/"; Examples.at_path "/a"; Examples.at_path "/b"].

Definition committing (t : NavigationType) : Config :=
  mkConfig Navigating
    (mkContext (Examples.at_path "/a") (Some (Examples.at_path "/")) true
               (Some (mkDetails (Some (Examples.at_path "/a")) (Examples.at_path "/new") t
                                (Some programmatic)))
               true three_pages 1)
    None [] [] [].

(** the machine whose guard sends everything to [/login], at rest at [/]
    and asked to go to [/admin] and, before that is handled, to [/other] *)
Definition asked_twice : Config :=
  send (Examples.navigate_to "/other")
       (send (Examples.navigate_to "/admin") (Examples.resting_at "/")).

Definition overtaken : Config :=
  Eval vm_compute in
    Examples.the (run (Examples.redirecting_props "/") 3 asked_twice).

(** props with every observer, and with a location to start from *)
Definition starting_at (p : string) : Props :=
  mkProps "/" false true (Some (Examples.only_pathname p)) None None true true true true.

End Visits.

Module Address.

(** a character the address parser of the host leaves as it is, wherever
    it stands in a path: a letter, a digit, or one of [_ / - ~] *)
Definition verbatim (c : ascii) : bool :=
  Js.isWordChar c || Ascii.eqb c "/" || Ascii.eqb c "-" || Ascii.eqb c "~".

(** a path the host reads as it is written: it starts with one slash and
    holds only such characters *)
Definition verbatimPath (s : string) : bool :=
  Prefix.plainPath s && Pattern.allChars verbatim s.

End Address.

(* ================================================================== *)
(** ** Properties of the string primitives *)
(* ================================================================== *)

Lemma append_cons (c : ascii) (s t : string) :
  String c s +:+ t = String c (s +:+ t).
Proof. reflexivity. Qed.

Lemma append_empty_r (s : string) : s +:+ "" = s.
Proof.
  induction s as [|c s IH]; [reflexivity |].
  now rewrite append_cons, IH.
Qed.

Lemma append_assoc (a b c : string) : (a +:+ b) +:+ c = a +:+ (b +:+ c).
Proof.
  induction a as [|x a IH]; [reflexivity |].
  now rewrite !append_cons, IH.
Qed.

Lemma startsWith_iff (s p : string) :
  Js.startsWith s p = true <-> exists rest, s = p +:+ rest.
Proof.
  unfold Js.startsWith. revert s.
  induction p as [|c p IH]; intros s.
  - split; [intros _; exists s; reflexivity | destruct s; reflexivity].
  - destruct s as [|d s].
    + split; [discriminate | intros [rest H]; discriminate].
    + change (String.prefix (String c p) (String d s))
        with (if Ascii.ascii_dec c d then String.prefix p s else false).
      destruct (Ascii.ascii_dec c d) as [->|Hne].
      * rewrite IH. split; intros [rest H]; exists rest;
          rewrite append_cons in *; congruence.
      * split; [discriminate |].
        intros [rest H]. rewrite append_cons in H. congruence.
Qed.

Lemma string_eqb_iff (a b : string) : String.eqb a b = true <-> a = b.
Proof. apply String.eqb_eq. Qed.

(* ================================================================== *)
(** ** isActive *)
(* ================================================================== *)

(** C1, as the code has it.  In exact mode [isActive] holds iff the
    current pathname is the target pathname, and otherwise iff the current
    pathname starts with the target pathname as a plain string: any
    continuation counts, at a segment boundary or not.  The target
    pathname is ["/"] when the target has none or an empty one. *)
Theorem C1_isActive_string_prefix :
  forall (P : Machine.Props) (service : Machine.Config) (to : Connect.Target),
    let current := Types.pathname (Machine.location (Machine.context service)) in
    let targetPathname :=
      Js.optOrElse (Types.p_pathname (Connect.resolve P service to)) "/" in
    (Connect.isActive P service to true = true <-> current = targetPathname)
    /\ (Connect.isActive P service to false = true
        <-> exists rest, current = targetPathname +:+ rest).
Proof.
  intros P service to current targetPathname. unfold Connect.isActive.
  fold current. fold targetPathname. split.
  - apply string_eqb_iff.
  - apply startsWith_iff.
Qed.

(** C1 as stated fails: with the current pathname [/users2] the target
    [/users] is active in non-exact mode, although [/users2] neither is
    [/users] nor continues it at a segment boundary. *)
Lemma C1_counterexample :
  Connect.isActive Examples.bare_props (Examples.resting_at "/users2")
    (Connect.ToLocation (Examples.only_pathname "/users")) false = true
  /\ ~ Prefix.segmentOrFull "/users" "/users2".
Proof.
  split; [reflexivity |].
  intros [H | [rest H]]; discriminate.
Qed.

(* ================================================================== *)
(** ** parseUrl and createUrl *)
(* ================================================================== *)

(** C2 at the base path of the documentation.  With the base path
    [/my-app] the address made for [/about] is [/my-appabout], and reading
    it back gives the pathname [about]; with [/my-app/] the address is
    [/my-app/about] and reading it back gives [about] again.  Neither
    returns [/about]. *)
Theorem C2_base_path_breaks_round_trip :
  Dom.createUrl "/about" "" "" "/my-app" = "/my-appabout"
  /\ Types.pathname
       (Dom.parseUrl None (Dom.createUrl "/about" "" "" "/my-app") "/my-app")
     = "about"
  /\ Dom.createUrl "/about" "" "" "/my-app/" = "/my-app/about"
  /\ Types.pathname
       (Dom.parseUrl None (Dom.createUrl "/about" "" "" "/my-app/") "/my-app/")
     = "about"
  /\ Types.pathname (Dom.parseUrl None "/my-app/about" "/my-app") = "/about".
Proof. repeat split; reflexivity. Qed.

(* ================================================================== *)
(** ** The stable sort *)
(* ================================================================== *)

Section StableSort.
Context {A : Type} (cmp : A -> A -> Z).

Hypothesis cmp_total : forall a b, (Dom.notAfter cmp) a b \/ (Dom.notAfter cmp) b a.
Hypothesis cmp_trans : forall a b c, (Dom.notAfter cmp) a b -> (Dom.notAfter cmp) b c -> (Dom.notAfter cmp) a c.
Hypothesis cmp_tie : forall z x y, cmp z x = 0%Z -> cmp z y = 0%Z -> cmp x y = 0%Z.

Lemma sortInsert_perm (x : A) (l : list A) :
  Permutation (x :: l) (Dom.sortInsert cmp x l).
Proof.
  induction l as [|y l IH]; simpl.
  - apply Permutation_refl.
  - destruct (cmp x y <=? 0)%Z.
    + apply Permutation_refl.
    + eapply perm_trans; [apply perm_swap | apply perm_skip, IH].
Qed.

Lemma sort_perm (l : list A) : Permutation l (Dom.sort cmp l).
Proof.
  induction l as [|x l IH]; simpl.
  - apply perm_nil.
  - eapply perm_trans; [apply perm_skip, IH | apply sortInsert_perm].
Qed.

Lemma sortInsert_sorted (x : A) (l : list A) :
  StronglySorted (Dom.notAfter cmp) l -> StronglySorted (Dom.notAfter cmp) (Dom.sortInsert cmp x l).
Proof.
  induction 1 as [|y l Hs IH Hall]; simpl.
  - constructor; [constructor | constructor].
  - destruct (Z.leb_spec (cmp x y) 0) as [Hle | Hgt].
    + constructor; [constructor; assumption |].
      constructor; [exact Hle |].
      eapply List.Forall_impl; [| exact Hall].
      intros z Hz. eapply cmp_trans; eassumption.
    + constructor; [exact IH |].
      assert (Hyx : (Dom.notAfter cmp) y x).
      { destruct (cmp_total x y) as [H | H]; [unfold Dom.notAfter in H; lia | exact H]. }
      eapply Permutation_Forall; [apply sortInsert_perm |].
      constructor; assumption.
Qed.

Lemma sort_sorted (l : list A) : StronglySorted (Dom.notAfter cmp) (Dom.sort cmp l).
Proof.
  induction l as [|x l IH]; simpl; [constructor | now apply sortInsert_sorted].
Qed.

(** elements that compare equal keep the order they came in *)
Lemma sortInsert_stable (z x : A) (l : list A) :
  List.filter (fun y => (cmp z y =? 0)%Z) (Dom.sortInsert cmp x l)
  = List.filter (fun y => (cmp z y =? 0)%Z) (x :: l).
Proof.
  induction l as [|y l IH]; [reflexivity |].
  simpl Dom.sortInsert.
  destruct (Z.leb_spec (cmp x y) 0) as [Hle | Hgt]; [reflexivity |].
  change (List.filter ?f (y :: ?t)) with (if f y then y :: List.filter f t else List.filter f t).
  rewrite IH. simpl.
  destruct (Z.eqb_spec (cmp z x) 0) as [Hx | Hx];
    destruct (Z.eqb_spec (cmp z y) 0) as [Hy | Hy]; try reflexivity.
  pose proof (cmp_tie z x y Hx Hy). lia.
Qed.

Lemma sort_stable (z : A) (l : list A) :
  List.filter (fun y => (cmp z y =? 0)%Z) (Dom.sort cmp l)
  = List.filter (fun y => (cmp z y =? 0)%Z) l.
Proof.
  induction l as [|x l IH]; [reflexivity |].
  simpl Dom.sort. rewrite sortInsert_stable. simpl. now rewrite IH.
Qed.

(** in a sorted list the first element with a property is not after
    any other element with it *)
Hypothesis cmp_refl : forall a, cmp a a = 0%Z.

Lemma find_sorted_least (p : A -> bool) (l : list A) (r : A) :
  StronglySorted (Dom.notAfter cmp) l -> find p l = Some r ->
  In r l /\ p r = true /\ forall y, In y l -> p y = true -> (Dom.notAfter cmp) r y.
Proof.
  induction 1 as [|a l Hs IH Hall]; simpl; [discriminate |].
  destruct (p a) eqn:Hpa.
  - intros [= <-]. repeat split; [now left | exact Hpa |].
    intros y [<- | Hy] _.
    + unfold Dom.notAfter. rewrite cmp_refl. lia.
    + rewrite List.Forall_forall in Hall. now apply Hall.
  - intros Hf. destruct (IH Hf) as (Hin & Hpr & Hleast).
    repeat split; [now right | exact Hpr |].
    intros y [<- | Hy] Hpy; [congruence | now apply Hleast].
Qed.

Lemma find_none_forall (p : A -> bool) (l : list A) :
  find p l = None <-> forall y, In y l -> p y = false.
Proof.
  induction l as [|a l IH]; simpl.
  - split; [intros _ y [] | reflexivity].
  - destruct (p a) eqn:Hpa.
    + split; [discriminate |]. intros H. specialize (H a (or_introl eq_refl)). congruence.
    + rewrite IH. split.
      * intros H y [<- | Hy]; [exact Hpa | now apply H].
      * intros H y Hy. apply H. now right.
Qed.

End StableSort.

(* ================================================================== *)
(** ** The comparator of findBestMatchingRoute *)
(* ================================================================== *)

Ltac comparator_cases a b :=
  unfold Dom.compareRoutes, Dom.notAfter, Specificity.precedes, Specificity.isStatic,
    Specificity.segments, Specificity.hasWildcard in *;
  destruct (Js.includes (Types.path a) ":"), (Js.includes (Types.path a) "*"),
           (Js.includes (Types.path b) ":"), (Js.includes (Types.path b) "*");
  simpl;
  try match goal with
      | |- context [(Z.of_nat ?x =? Z.of_nat ?y)%Z] =>
          destruct (Z.eqb_spec (Z.of_nat x) (Z.of_nat y)); simpl
      end.

Lemma compareRoutes_neg (a b : Types.RouteDefinition) :
  (Dom.compareRoutes a b < 0)%Z <-> Specificity.precedes a b.
Proof. comparator_cases a b; intuition (try congruence; try lia). Qed.

Lemma compareRoutes_pos (a b : Types.RouteDefinition) :
  (0 < Dom.compareRoutes a b)%Z <-> Specificity.precedes b a.
Proof. comparator_cases a b; intuition (try congruence; try lia). Qed.

Lemma precedes_irrefl (a b : Types.RouteDefinition) :
  Specificity.precedes a b -> Specificity.precedes b a -> False.
Proof.
  unfold Specificity.precedes.
  destruct (Specificity.isStatic a), (Specificity.isStatic b),
           (Specificity.hasWildcard a), (Specificity.hasWildcard b);
    intuition (try congruence; try lia).
Qed.

Lemma precedes_trans (a b c : Types.RouteDefinition) :
  ~ Specificity.precedes b a -> ~ Specificity.precedes c b -> ~ Specificity.precedes c a.
Proof.
  unfold Specificity.precedes.
  destruct (Specificity.isStatic a), (Specificity.isStatic b), (Specificity.isStatic c),
           (Specificity.hasWildcard a), (Specificity.hasWildcard b),
           (Specificity.hasWildcard c);
    intuition (try congruence; try lia).
Qed.

Lemma notAfter_iff (a b : Types.RouteDefinition) :
  Dom.notAfter Dom.compareRoutes a b <-> ~ Specificity.precedes b a.
Proof.
  unfold Dom.notAfter. rewrite <- compareRoutes_pos. lia.
Qed.

Lemma tie_iff (a b : Types.RouteDefinition) :
  Dom.compareRoutes a b = 0%Z
  <-> ~ Specificity.precedes a b /\ ~ Specificity.precedes b a.
Proof. rewrite <- compareRoutes_neg, <- compareRoutes_pos. lia. Qed.

Lemma compareRoutes_total (a b : Types.RouteDefinition) :
  Dom.notAfter Dom.compareRoutes a b \/ Dom.notAfter Dom.compareRoutes b a.
Proof.
  rewrite !notAfter_iff.
  destruct (Z_lt_le_dec 0 (Dom.compareRoutes a b)) as [H | H].
  - right. apply compareRoutes_pos in H. intros H'. exact (precedes_irrefl _ _ H' H).
  - left. rewrite <- compareRoutes_pos. lia.
Qed.

Lemma compareRoutes_trans (a b c : Types.RouteDefinition) :
  Dom.notAfter Dom.compareRoutes a b -> Dom.notAfter Dom.compareRoutes b c ->
  Dom.notAfter Dom.compareRoutes a c.
Proof. rewrite !notAfter_iff. apply precedes_trans. Qed.

Lemma compareRoutes_refl (a : Types.RouteDefinition) : Dom.compareRoutes a a = 0%Z.
Proof. apply tie_iff. split; intros H; exact (precedes_irrefl _ _ H H). Qed.

Lemma compareRoutes_tie (z x y : Types.RouteDefinition) :
  Dom.compareRoutes z x = 0%Z -> Dom.compareRoutes z y = 0%Z ->
  Dom.compareRoutes x y = 0%Z.
Proof.
  rewrite !tie_iff. intros [Hzx Hxz] [Hzy Hyz]. split.
  - intros H. apply (precedes_trans y z x); [exact Hzy | exact Hxz | exact H].
  - intros H. apply (precedes_trans x z y); [exact Hzx | exact Hyz | exact H].
Qed.

Lemma compareRoutes_antisym (a b : Types.RouteDefinition) :
  Dom.notAfter Dom.compareRoutes a b -> Dom.notAfter Dom.compareRoutes b a ->
  Dom.compareRoutes a b = 0%Z.
Proof. rewrite !notAfter_iff, tie_iff. tauto. Qed.

Lemma StronglySorted_weaken {A} (R R' : A -> A -> Prop) (l : list A) :
  (forall a b, R a b -> R' a b) -> StronglySorted R l -> StronglySorted R' l.
Proof.
  intros HR. induction 1 as [|a l Hs IH Hall]; constructor; [exact IH |].
  eapply List.Forall_impl; [| exact Hall]. intros b. apply HR.
Qed.

(** C3, as the code has it.  The list the lookup goes through is a
    rearrangement of the routes in which no route stands behind a less
    specific one, where [a] is more specific than [b] when [a] is static and
    [b] is not, or both are of the same kind and [a] has more segments, or
    they also have the same number of segments and only [b] has a wildcard;
    routes that are tied keep the order of their declaration; and the
    lookup returns the first route of that list that matches.  A wildcard
    thus comes last only among routes of its own length. *)
Theorem C3_specificity_order :
  forall (pathname : string) (routes : list Types.RouteDefinition),
    let sorted := Dom.sortedRoutes routes in
    Permutation routes sorted
    /\ StronglySorted (fun a b => ~ Specificity.precedes b a) sorted
    /\ (forall r, List.filter (Specificity.tied r) sorted
                  = List.filter (Specificity.tied r) routes)
    /\ (forall a b, Specificity.tied a b = true
                    <-> ~ Specificity.precedes a b /\ ~ Specificity.precedes b a)
    /\ Dom.findBestMatchingRoute pathname routes
       = find (Specificity.matching pathname) sorted.
Proof.
  intros pathname routes sorted. unfold sorted, Dom.sortedRoutes.
  split; [apply sort_perm |].
  split.
  { eapply StronglySorted_weaken; [intros a b; apply notAfter_iff |].
    apply sort_sorted; [apply compareRoutes_total | apply compareRoutes_trans]. }
  split.
  { intros r. unfold Specificity.tied. apply sort_stable. apply compareRoutes_tie. }
  split.
  { intros a b. unfold Specificity.tied. rewrite Z.eqb_eq. apply tie_iff. }
  reflexivity.
Qed.

(** C3 as stated fails: [/users/admin/*] has a wildcard and [/users/:id]
    has none, both are dynamic, so the description puts [/users/:id] first;
    the code puts the longer [/users/admin/*] first and returns it for
    [/users/admin], which [/users/:id] matches too. *)
Lemma C3_counterexample :
  Dom.sortedRoutes [Examples.route "/users/:id"; Examples.route "/users/admin/*"]
  = [Examples.route "/users/admin/*"; Examples.route "/users/:id"]
  /\ Specificity.describedBefore (Examples.route "/users/:id")
                                 (Examples.route "/users/admin/*")
  /\ Specificity.matching "/users/admin" (Examples.route "/users/:id") = true
  /\ Dom.findBestMatchingRoute "/users/admin"
       [Examples.route "/users/:id"; Examples.route "/users/admin/*"]
     = Some (Examples.route "/users/admin/*").
Proof.
  split; [reflexivity |].
  split; [right; repeat split; reflexivity |].
  split; reflexivity.
Qed.

(** C4.  Two lists with the same routes give the same best match for a
    pathname, as long as no two different matching routes are tied. *)
Theorem C4_order_independent :
  forall (pathname : string) (l1 l2 : list Types.RouteDefinition),
    Permutation l1 l2 ->
    Specificity.unambiguous pathname l1 ->
    Dom.findBestMatchingRoute pathname l1 = Dom.findBestMatchingRoute pathname l2.
Proof.
  intros pathname l1 l2 Hperm Hunamb.
  unfold Dom.findBestMatchingRoute, Dom.sortedRoutes.
  fold (Specificity.matching pathname).
  set (p := Specificity.matching pathname).
  assert (Hs1 := sort_sorted Dom.compareRoutes compareRoutes_total compareRoutes_trans l1).
  assert (Hs2 := sort_sorted Dom.compareRoutes compareRoutes_total compareRoutes_trans l2).
  assert (Hin : forall y, In y (Dom.sort Dom.compareRoutes l1)
                          <-> In y (Dom.sort Dom.compareRoutes l2)).
  { intros y. split; intros H.
    - eapply Permutation_in; [apply sort_perm |].
      eapply Permutation_in; [exact Hperm |].
      eapply Permutation_in; [apply Permutation_sym, sort_perm | exact H].
    - eapply Permutation_in; [apply sort_perm |].
      eapply Permutation_in; [apply Permutation_sym, Hperm |].
      eapply Permutation_in; [apply Permutation_sym, sort_perm | exact H]. }
  destruct (find p (Dom.sort Dom.compareRoutes l1)) as [r1|] eqn:H1.
  - destruct (find_sorted_least _ compareRoutes_refl p _ _ Hs1 H1) as (Hin1 & Hp1 & Hleast1).
    destruct (find p (Dom.sort Dom.compareRoutes l2)) as [r2|] eqn:H2.
    + destruct (find_sorted_least _ compareRoutes_refl p _ _ Hs2 H2) as (Hin2 & Hp2 & Hleast2).
      f_equal. apply Hunamb; try assumption.
      * eapply Permutation_in; [apply Permutation_sym, sort_perm | exact Hin1].
      * eapply Permutation_in; [apply Permutation_sym, sort_perm |].
        apply Hin. exact Hin2.
      * apply compareRoutes_antisym.
        -- apply Hleast1; [apply Hin; exact Hin2 | exact Hp2].
        -- apply Hleast2; [apply Hin; exact Hin1 | exact Hp1].
    + rewrite find_none_forall in H2.
      specialize (H2 r1 (proj1 (Hin r1) Hin1)). congruence.
  - symmetry. rewrite find_none_forall in H1 |- *.
    intros y Hy. apply H1. apply Hin. exact Hy.
Qed.

(** C4 at the lists of the description: [/users/:id] and [/*] in either
    order, looked up for [/users/7]. *)
Lemma C4_witness :
  Dom.findBestMatchingRoute "/users/7"
    [Examples.route "/users/:id"; Examples.route "/*"]
  = Dom.findBestMatchingRoute "/users/7"
      [Examples.route "/*"; Examples.route "/users/:id"].
Proof.
  apply (C4_order_independent "/users/7"
           [Examples.route "/users/:id"; Examples.route "/*"]
           [Examples.route "/*"; Examples.route "/users/:id"]).
  - apply perm_swap.
  - intros a b Ha Hb _ _ Hab.
    destruct Ha as [<- | [<- | []]]; destruct Hb as [<- | [<- | []]];
      first [reflexivity | vm_compute in Hab; discriminate Hab].
Defined.

(* ================================================================== *)
(** ** An invariant of the machine *)
(* ================================================================== *)
Import Types Platform Machine.

Lemma runActions_app (a b : list Action) (event : Event) (c : Config) :
  runActions (a ++ b) event c
  = match runActions a event c with
    | Some c' => runActions b event c'
    | None => None
    end.
Proof.
  revert c. induction a as [|x a IH]; intros c; simpl; [reflexivity |].
  destruct (x event c); [apply IH | reflexivity].
Qed.

Lemma Invariant_perform (e : Effect) (c : Config) :
  notifiesErrorDetails e -> Invariant c -> Invariant (perform e c).
Proof.
  intros He (Hh & Hf & Hp). repeat split; simpl; try assumption.
  apply Forall_app. split; [assumption | constructor; [assumption | constructor]].
Qed.

Lemma Invariant_send (e : Event) (c : Config) : Invariant c -> Invariant (send e c).
Proof. intros (Hh & Hf & Hp). repeat split; assumption. Qed.

Lemma Invariant_setTimeout (t : Timer) (c : Config) :
  Invariant c -> Invariant (setTimeout t c).
Proof. intros (Hh & Hf & Hp). repeat split; assumption. Qed.

Lemma Invariant_setPending (d : NavigationDetails) (c : Config) :
  proper d -> Invariant c ->
  Invariant (setContext (setPendingNavigation (Some d) (context c)) c).
Proof.
  intros Hd (Hh & Hf & Hp). repeat split; simpl; try assumption.
  intros d' [= <-]. exact Hd.
Qed.

Lemma proper_from (f : RouteLocation) to ty src rs :
  proper (createNavigationDetailsWithMeta (Some f) to ty src rs).
Proof. left. discriminate. Qed.

Lemma proper_type from to ty src rs :
  ty <> push -> proper (createNavigationDetailsWithMeta from to ty src rs).
Proof. intros H. right. exact H. Qed.

Lemma Invariant_ext (c c' : Config) :
  historyStack (context c') = historyStack (context c) ->
  historyIndex (context c') = historyIndex (context c) ->
  effects c' = effects c ->
  (forall d, pendingNavigation (context c') = Some d -> proper d) ->
  Invariant c -> Invariant c'.
Proof.
  intros Hs Hi He Hp (Hh & Hf & _). unfold Invariant, historyOk.
  rewrite Hs, Hi, He. repeat split; assumption.
Qed.

Ltac open_action H :=
  repeat match type of H with
         | context [match ?e with _ => _ end] => destruct e eqn:?
         end;
  try discriminate H; injection H as <-.

Ltac by_ext c Hinv :=
  apply (Invariant_ext c); simpl;
  [reflexivity | reflexivity | reflexivity | | exact Hinv];
  try (intros d0 [= <-]; first [apply proper_from | apply proper_type; discriminate]);
  try (destruct Hinv as (_ & _ & Hp); exact Hp);
  try discriminate.

Create HintDb preserves discriminated.
#[export] Hint Constants Opaque : preserves.

Lemma initializeWithGuards_preserves P : Preserves (initializeWithGuards P).
Proof.
  intros event c c' H Hinv. unfold initializeWithGuards in H. open_action H.
  by_ext c Hinv.
Qed.

Lemma setNavigating_preserves P : Preserves (setNavigating P).
Proof.
  intros event c c' H Hinv. unfold setNavigating in H. open_action H.
  by_ext c Hinv.
Qed.

Lemma clearNavigating_preserves : Preserves clearNavigating.
Proof.
  intros event c c' H Hinv. unfold clearNavigating in H. open_action H.
  by_ext c Hinv.
Qed.

Lemma updateLocation_preserves P : Preserves (updateLocation P).
Proof.
  intros event c c' H Hinv. unfold updateLocation in H. open_action H;
    [| exact Hinv].
  apply (Invariant_ext c); simpl; [reflexivity | reflexivity | reflexivity | | exact Hinv].
  intros d0 [= <-]. destruct Hinv as (_ & _ & Hp).
  destruct (Hp _ Heqo) as [Hf | Ht]; [left | right]; assumption.
Qed.

Lemma Invariant_history (c : Config) (stack : list RouteLocation) (index : nat) :
  (index < length stack)%nat -> Invariant c ->
  Invariant (setContext (setHistoryIndex index (setHistoryStack stack (context c))) c).
Proof.
  intros Hlt (_ & Hf & Hp). repeat split; simpl; assumption.
Qed.

Lemma updateHistory_preserves : Preserves updateHistory.
Proof.
  intros event c c' H Hinv. unfold updateHistory in H.
  destruct (pendingNavigation (context c)) as [d|] eqn:Hd; [| injection H as <-; exact Hinv].
  assert (Hh : historyOk (context c)) by apply Hinv. unfold historyOk in Hh.
  destruct (type d).
  - injection H as <-. apply Invariant_history; [| exact Hinv].
    rewrite length_app. simpl. lia.
  - destruct (Nat.ltb_spec (historyIndex (context c)) (length (historyStack (context c))));
      [| lia].
    injection H as <-. destruct Hinv as (_ & Hf & Hp).
    repeat split; simpl; try assumption.
    unfold historyOk. simpl. rewrite length_insert. exact Hh.
  - injection H as <-; exact Hinv.
  - injection H as <-; exact Hinv.
  - injection H as <-; exact Hinv.
Qed.

Lemma goBack_preserves P : Preserves (goBack P).
Proof.
  intros event c c' H Hinv. unfold goBack in H.
  assert (Hh : historyOk (context c)) by apply Hinv. unfold historyOk in Hh.
  destruct (Nat.ltb_spec 0 (historyIndex (context c))); [| injection H as <-; exact Hinv].
  destruct (historyStack (context c) !! (historyIndex (context c) - 1)%nat);
    [| discriminate H].
  injection H as <-. destruct Hinv as (_ & Hf & Hp).
  repeat split; simpl; try assumption.
  - unfold historyOk. simpl. lia.
  - intros d0 [= <-]. apply proper_from.
Qed.

Lemma goForward_preserves P : Preserves (goForward P).
Proof.
  intros event c c' H Hinv. unfold goForward in H.
  destruct (Nat.ltb_spec (historyIndex (context c))
                         (length (historyStack (context c)) - 1));
    [| injection H as <-; exact Hinv].
  destruct (historyStack (context c) !! (historyIndex (context c) + 1)%nat);
    [| discriminate H].
  injection H as <-. destruct Hinv as (_ & Hf & Hp).
  repeat split; simpl; try assumption.
  - unfold historyOk. simpl. lia.
  - intros d0 [= <-]. apply proper_from.
Qed.

Lemma handlePopState_preserves P : Preserves (handlePopState P).
Proof.
  intros event c c' H Hinv. unfold handlePopState in H. open_action H.
  apply Invariant_setTimeout. by_ext c Hinv.
Qed.

Lemma handleHashChange_preserves P : Preserves (handleHashChange P).
Proof.
  intros event c c' H Hinv. unfold handleHashChange in H.
  destruct (hashRouting P); simpl in H; injection H as <-; [| exact Hinv].
  apply Invariant_setTimeout. by_ext c Hinv.
Qed.

Ltac by_perform H Hinv :=
  open_action H; first [exact Hinv | apply Invariant_perform; [exact I | exact Hinv]].

Lemma invokeNavigationStart_preserves P : Preserves (invokeNavigationStart P).
Proof. intros event c c' H Hinv. unfold invokeNavigationStart in H. by_perform H Hinv. Qed.

Lemma invokeNavigationEnd_preserves P : Preserves (invokeNavigationEnd P).
Proof. intros event c c' H Hinv. unfold invokeNavigationEnd in H. by_perform H Hinv. Qed.

Lemma invokeOnNavigate_preserves P : Preserves (invokeOnNavigate P).
Proof. intros event c c' H Hinv. unfold invokeOnNavigate in H. by_perform H Hinv. Qed.

Lemma invokeNavigationError_preserves P : Preserves (invokeNavigationError P).
Proof.
  intros event c c' H Hinv. unfold invokeNavigationError in H. open_action H;
    first [exact Hinv | apply Invariant_perform; [reflexivity | exact Hinv]].
Qed.

Lemma updateBrowserHistory_preserves P : Preserves (updateBrowserHistory P).
Proof. intros event c c' H Hinv. unfold updateBrowserHistory in H. by_perform H Hinv. Qed.

Lemma scrollToTopEffect_preserves P : Preserves (scrollToTopEffect P).
Proof. intros event c c' H Hinv. unfold scrollToTopEffect in H. by_perform H Hinv. Qed.

Lemma invokeBeforeNavigateForInitial_preserves : Preserves invokeBeforeNavigateForInitial.
Proof.
  intros event c c' H Hinv. unfold invokeBeforeNavigateForInitial in H.
  injection H as <-. apply Invariant_setTimeout, Hinv.
Qed.

Lemma invokeBeforeNavigate_preserves P : Preserves (invokeBeforeNavigate P).
Proof.
  intros event c c' H Hinv. unfold invokeBeforeNavigate in H.
  destruct (onBeforeNavigate P) as [g|];
    [| injection H as <-; apply Invariant_send, Hinv].
  destruct (pendingNavigation (context c)) as [d|] eqn:Hd;
    [| injection H as <-; apply Invariant_send, Hinv].
  assert (Hc : Invariant (perform (CallBeforeNavigate d) c))
    by (apply Invariant_perform; [exact I | exact Hinv]).
  destruct (g d) as [|[|]|s]; injection H as <-; apply Invariant_send; try exact Hc.
  apply (Invariant_ext (perform (CallBeforeNavigate d) c)); simpl;
    [reflexivity | reflexivity | reflexivity | | exact Hc].
  intros d0 [= <-]. apply proper_from.
Qed.

Lemma initialGuardCallback_preserves P (c c' : Config) :
  initialGuardCallback P c = Some c' -> Invariant c -> Invariant c'.
Proof.
  intros H Hinv. unfold initialGuardCallback in H.
  destruct (onBeforeNavigate P) as [g|];
    [| injection H as <-; apply Invariant_send, Hinv].
  destruct (pendingNavigation (context c)) as [d|] eqn:Hd;
    [| injection H as <-; apply Invariant_send, Hinv].
  assert (Hc : Invariant (perform (CallBeforeNavigate d) c))
    by (apply Invariant_perform; [exact I | exact Hinv]).
  destruct (g d) as [|[|]|s]; injection H as <-; apply Invariant_send; try exact Hc.
  - apply (Invariant_ext (perform (CallBeforeNavigate d) c)); simpl;
      [reflexivity | reflexivity | reflexivity | | exact Hc].
    intros d0 [= <-]. apply proper_type. discriminate.
  - apply (Invariant_ext (perform (CallBeforeNavigate d) c)); simpl;
      [reflexivity | reflexivity | reflexivity | | exact Hc].
    intros d0 [= <-]. apply proper_type. discriminate.
Qed.

#[export] Hint Resolve initializeWithGuards_preserves setNavigating_preserves
  clearNavigating_preserves updateLocation_preserves updateHistory_preserves
  goBack_preserves goForward_preserves handlePopState_preserves
  handleHashChange_preserves invokeNavigationStart_preserves
  invokeNavigationEnd_preserves invokeOnNavigate_preserves
  invokeNavigationError_preserves updateBrowserHistory_preserves
  scrollToTopEffect_preserves invokeBeforeNavigateForInitial_preserves
  invokeBeforeNavigate_preserves : preserves.

Lemma runActions_preserves (acts : list Action) :
  Forall Preserves acts ->
  forall event c c', runActions acts event c = Some c' -> Invariant c -> Invariant c'.
Proof.
  induction 1 as [|a acts Ha _ IH]; intros event c c' H Hinv; simpl in H.
  - injection H as <-. exact Hinv.
  - destruct (a event c) as [c1|] eqn:Hc1; [| discriminate H].
    eapply IH; [exact H |]. eapply Ha; eassumption.
Qed.

Ltac each_preserves :=
  repeat (apply List.Forall_cons; [solve [auto with preserves] |]);
  apply List.Forall_nil.

Lemma on_preserves P (s : State) (t : EventType) (tr : Transition) :
  In tr (on P s t) -> Forall Preserves (actions tr).
Proof.
  intros Hin.
  assert (Hall : Forall (fun tr => Forall Preserves (actions tr)) (on P s t)).
  { destruct s, t; unfold on, start_navigation, guarded_navigation;
      repeat (apply List.Forall_cons; [cbn [actions app]; each_preserves |]);
      apply List.Forall_nil. }
  rewrite List.Forall_forall in Hall. apply Hall, Hin.
Qed.

Lemma entry_preserves P (s : State) : Forall Preserves (entry P s).
Proof. destruct s; unfold entry; each_preserves. Qed.

Lemma Invariant_setState (s : State) (c : Config) : Invariant c -> Invariant (setState s c).
Proof. intros (Hh & Hf & Hp). repeat split; assumption. Qed.

Lemma dispatch_preserves P (event : Event) (c c' : Config) :
  dispatch P event c = Some c' -> Invariant c -> Invariant c'.
Proof.
  unfold dispatch. intros H Hinv.
  destruct (choose (on P (state c) (ev_type event)) c) as [tr|] eqn:Hch;
    [| injection H as <-; exact Hinv].
  apply find_some in Hch. destruct Hch as [Hin _].
  destruct (runActions (actions tr) event _) as [c1|] eqn:Hrun; [| discriminate H].
  assert (Hinv1 : Invariant c1).
  { eapply runActions_preserves;
      [eapply on_preserves; exact Hin | exact Hrun | apply Invariant_setState, Hinv]. }
  destruct (negb _).
  - eapply runActions_preserves; [apply entry_preserves | exact H | exact Hinv1].
  - injection H as <-. exact Hinv1.
Qed.

Lemma Invariant_setQueue (q : list Event) (c : Config) : Invariant c -> Invariant (setQueue q c).
Proof. intros (Hh & Hf & Hp). repeat split; assumption. Qed.

Lemma Invariant_setTimers (t : list Timer) (c : Config) : Invariant c -> Invariant (setTimers t c).
Proof. intros (Hh & Hf & Hp). repeat split; assumption. Qed.

Lemma Invariant_setWindow (w : option Window) (c : Config) :
  Invariant c -> Invariant (setWindow w c).
Proof. intros (Hh & Hf & Hp). repeat split; assumption. Qed.

Lemma next_preserves P (c c' : Config) : next P c = Some c' -> Invariant c -> Invariant c'.
Proof.
  unfold next. intros H Hinv.
  destruct (queue c) as [|e q].
  - destruct (timers c) as [|t ts]; [discriminate H |].
    destruct t as [e|]; simpl in H.
    + injection H as <-. apply Invariant_send, Invariant_setTimers, Hinv.
    + eapply initialGuardCallback_preserves; [exact H |].
      apply Invariant_setTimers, Hinv.
  - eapply dispatch_preserves; [exact H | apply Invariant_setQueue, Hinv].
Qed.

Lemma start_invariant P (win : option Window) (c : Config) :
  start P win = Some c -> Invariant c.
Proof.
  unfold start. intros H.
  eapply runActions_preserves; [| exact H |].
  - unfold entry. cbn [app]. each_preserves.
  - repeat split; cbn [context effects pendingNavigation initialContext].
    + unfold historyOk. cbn [initialContext historyIndex historyStack length]. lia.
    + constructor.
    + discriminate.
Qed.

Lemma reachable_invariant P (win : option Window) (c : Config) :
  Reachable P win c -> Invariant c.
Proof.
  induction 1 as [c Hstart | c c' _ IH Hstep].
  - eapply start_invariant; exact Hstart.
  - destruct Hstep as [c c' Hnext | c e | c w].
    + eapply next_preserves; eassumption.
    + apply Invariant_send, IH.
    + apply Invariant_setWindow, IH.
Qed.

(* ================================================================== *)
(** ** The first pending navigation *)
(* ================================================================== *)

Lemma start_unfold P (win : option Window) :
  start P win
  = Some (setTimeout TimerInitialGuard
            (updateContext
               (fun x =>
                  setInitialized true
                    (setPendingNavigation
                       (Some (createNavigationDetailsWithMeta None
                                (withRouteParams
                                   (Dom.parseUrl win
                                      (currentUrl (mkConfig Initializing (initialContext P win)
                                                            win [] [] []))
                                      (basePath P))
                                   (routes P))
                                initial browser (routes P))) x))
               (mkConfig Initializing (initialContext P win) win [] [] []))).
Proof. reflexivity. Qed.

(** C5, as the code has it.  The machine is constructed in the state
    [initializing] with a pending navigation whose [from] is null, whose
    type is [initial] and whose source is [browser]. *)
Theorem C5_initial_pending_navigation :
  forall (P : Props) (win : option Window),
  exists c d,
    start P win = Some c
    /\ state c = Initializing
    /\ pendingNavigation (context c) = Some d
    /\ from d = None /\ type d = initial /\ source d = Some browser.
Proof.
  intros P win. rewrite start_unfold.
  eexists _, _. repeat split.
Qed.

(** C5 as stated fails: the source of the first pending navigation is
    [browser], not [initial] (a value the type of sources does not have). *)
Lemma C5_counterexample :
  exists c d,
    start Examples.bare_props None = Some c
    /\ pendingNavigation (context c) = Some d
    /\ option_map sourceTag (source d) = Some "browser"
    /\ option_map sourceTag (source d) <> Some "initial".
Proof.
  eexists _, _. split; [reflexivity |]. split; [reflexivity |].
  split; [reflexivity | discriminate].
Qed.

(* ================================================================== *)
(** ** The history stack *)
(* ================================================================== *)

(** C9.  In a configuration whose index points into the stack, the stack
    is not empty, and each operation on the history leaves the index
    pointing into the stack: [updateHistory] for a push keeps the entries
    up to the index, appends the target and moves the index to the new last
    entry; for a replace it overwrites the entry at the index and keeps
    length and index; otherwise it changes nothing; [goBack] and
    [goForward] keep the stack and move the index by one when there is room,
    and not at all otherwise.  Every configuration the machine reaches is
    such a configuration. *)
Theorem C9_history_stack :
  forall (P : Props) (event : Event) (c : Config),
    historyOk (context c) ->
    let stack := historyStack (context c) in
    let index := historyIndex (context c) in
    (1 <= length stack)%nat
    /\ (exists c',
           updateHistory event c = Some c'
           /\ historyOk (context c')
           /\ match pendingNavigation (context c) with
              | Some d =>
                  match type d with
                  | push =>
                      historyStack (context c') = firstn (index + 1) stack ++ [to d]
                      /\ historyIndex (context c') = (index + 1)%nat
                      /\ historyIndex (context c')
                         = (length (historyStack (context c')) - 1)%nat
                  | replace =>
                      historyStack (context c') = <[index := to d]> stack
                      /\ historyStack (context c') !! index = Some (to d)
                      /\ length (historyStack (context c')) = length stack
                      /\ historyIndex (context c') = index
                  | _ =>
                      historyStack (context c') = stack
                      /\ historyIndex (context c') = index
                  end
              | None =>
                  historyStack (context c') = stack
                  /\ historyIndex (context c') = index
              end)
    /\ (exists c',
           goBack P event c = Some c'
           /\ historyOk (context c')
           /\ historyStack (context c') = stack
           /\ historyIndex (context c')
              = if canGoBack c then (index - 1)%nat else index)
    /\ (exists c',
           goForward P event c = Some c'
           /\ historyOk (context c')
           /\ historyStack (context c') = stack
           /\ historyIndex (context c')
              = if canGoForward c then (index + 1)%nat else index)
    /\ (forall win c0, Reachable P win c0 -> historyOk (context c0)).
Proof.
  intros P event c Hok stack index. unfold historyOk in Hok.
  fold stack in Hok. fold index in Hok.
  split; [lia |]. split; [| split; [| split]].
  - unfold updateHistory. fold stack. fold index.
    destruct (pendingNavigation (context c)) as [d|]; [| eexists; repeat split; exact Hok].
    destruct (type d).
    + eexists. split; [reflexivity |]. unfold historyOk. cbn.
      rewrite !length_app, !List.length_firstn. cbn. repeat split; lia.
    + destruct (Nat.ltb_spec index (length stack)) as [_ | Hge]; [| lia].
      eexists. split; [reflexivity |]. unfold historyOk. cbn.
      rewrite length_insert. repeat split; try assumption.
      apply list_lookup_insert_eq. exact Hok.
    + eexists. repeat split; exact Hok.
    + eexists. repeat split; exact Hok.
    + eexists. repeat split; exact Hok.
  - unfold goBack, canGoBack. fold stack. fold index.
    destruct (Nat.ltb_spec 0 index) as [Hpos | Hzero].
    + destruct (lookup_lt_is_Some_2 stack (index - 1)) as [l Hl]; [lia |].
      rewrite Hl. eexists. split; [reflexivity |]. unfold historyOk. cbn.
      repeat split. fold stack. lia.
    + eexists. repeat split. exact Hok.
  - unfold goForward, canGoForward. fold stack. fold index.
    destruct (Nat.ltb_spec index (length stack - 1)) as [Hroom | Hlast].
    + destruct (lookup_lt_is_Some_2 stack (index + 1)) as [l Hl]; [lia |].
      rewrite Hl. eexists. split; [reflexivity |]. unfold historyOk. cbn.
      repeat split. fold stack. lia.
    + eexists. repeat split. exact Hok.
  - intros win c0 Hreach. apply (reachable_invariant P win c0 Hreach).
Qed.

(** C9 at a machine in the middle of the three pages [/], [/a], [/b]
    with a navigation to [/new] pending: a push drops [/b], appends [/new]
    and moves the index to it; a replace puts [/new] in the place of [/a];
    going back and forward move the index to 0 and to 2 and leave the
    pages alone. *)
Lemma C9_witness :
  (exists c',
      updateHistory completeEvent (Visits.committing push) = Some c'
      /\ historyStack (context c')
         = [Examples.at_path "/"; Examples.at_path "/a"; Examples.at_path "/new"]
      /\ historyIndex (context c') = 2%nat
      /\ historyOk (context c'))
  /\ (exists c',
         updateHistory completeEvent (Visits.committing replace) = Some c'
         /\ historyStack (context c')
            = [Examples.at_path "/"; Examples.at_path "/new"; Examples.at_path "/b"]
         /\ historyIndex (context c') = 1%nat
         /\ historyOk (context c'))
  /\ (exists c',
         goBack Examples.bare_props (plainEvent BACK) (Visits.committing push) = Some c'
         /\ historyStack (context c') = Visits.three_pages
         /\ historyIndex (context c') = 0%nat)
  /\ (exists c',
         goForward Examples.bare_props (plainEvent FORWARD) (Visits.committing push)
         = Some c'
         /\ historyStack (context c') = Visits.three_pages
         /\ historyIndex (context c') = 2%nat).
Proof.
  assert (Hok : forall t, historyOk (context (Visits.committing t)))
    by (intros t; unfold historyOk; cbn; lia).
  pose proof (C9_history_stack Examples.bare_props completeEvent
                (Visits.committing push) (Hok push)) as Hpush.
  pose proof (C9_history_stack Examples.bare_props completeEvent
                (Visits.committing replace) (Hok replace)) as Hreplace.
  pose proof (C9_history_stack Examples.bare_props (plainEvent BACK)
                (Visits.committing push) (Hok push)) as Hback.
  pose proof (C9_history_stack Examples.bare_props (plainEvent FORWARD)
                (Visits.committing push) (Hok push)) as Hforward.
  cbv zeta in Hpush, Hreplace, Hback, Hforward.
  destruct Hpush as (_ & (c1 & H1 & Hok1 & Hstack1 & Hindex1 & _) & _).
  destruct Hreplace as (_ & (c2 & H2 & Hok2 & Hstack2 & _ & _ & Hindex2) & _).
  destruct Hback as (_ & _ & (c3 & H3 & _ & Hstack3 & Hindex3) & _).
  destruct Hforward as (_ & _ & _ & (c4 & H4 & _ & Hstack4 & Hindex4) & _).
  split; [exists c1; repeat split; assumption |].
  split; [exists c2; repeat split; assumption |].
  split; [exists c3; repeat split; assumption |].
  exists c4; repeat split; assumption.
Defined.

(* ================================================================== *)
(** ** What the error observer is told *)
(* ================================================================== *)

Lemma proper_not_errorDetails (d : NavigationDetails) : proper d -> d <> errorDetails.
Proof. intros [H | H] ->; apply H; reflexivity. Qed.

(** C10.  In every configuration the machine reaches, each call of the
    error observer recorded so far carries the same made-up details, and
    these are never the details of a navigation that is pending. *)
Theorem C10_error_observer_details :
  forall (P : Props) (win : option Window) (c : Config),
    Reachable P win c ->
    (forall message details,
        In (CallNavigationError message details) (effects c) ->
        details = errorDetails)
    /\ (forall d, pendingNavigation (context c) = Some d -> d <> errorDetails).
Proof.
  intros P win c Hreach.
  destruct (reachable_invariant P win c Hreach) as (_ & Hf & Hp).
  split.
  - intros message details Hin. rewrite List.Forall_forall in Hf.
    exact (Hf _ Hin).
  - intros d Hd. apply proper_not_errorDetails, Hp, Hd.
Qed.
(* ================================================================== *)
(** ** The start of a navigation *)
(* ================================================================== *)

Lemma started_refl (c : Config) : started c c.
Proof.
  repeat split; try (intros H; exact H).
  - exists []. split; [now rewrite app_nil_r | constructor].
  - exists []. split; [now rewrite app_nil_r | constructor].
Qed.

Lemma started_trans (a b c : Config) : started a b -> started b c -> started a c.
Proof.
  intros (Hs1 & Hw1 & Hq1 & Hl1 & Hh1 & (ts1 & Ht1 & Hf1) & (es1 & He1 & Hg1))
         (Hs2 & Hw2 & Hq2 & Hl2 & Hh2 & (ts2 & Ht2 & Hf2) & (es2 & He2 & Hg2)).
  repeat split; try congruence.
  - intros H. apply Hh2, Hh1, H.
  - exists (ts1 ++ ts2). split; [rewrite Ht2, Ht1; now rewrite app_assoc |].
    apply Forall_app; split; assumption.
  - exists (es1 ++ es2). split; [rewrite He2, He1; now rewrite app_assoc |].
    apply Forall_app; split; assumption.
Qed.

Lemma started_context (c : Config) (x : Context) :
  location x = location (context c) ->
  (historyOk (context c) -> historyOk x) ->
  started c (setContext x c).
Proof.
  intros Hl Hh. repeat split; try assumption.
  - exists []. split; [now rewrite app_nil_r | constructor].
  - exists []. split; [now rewrite app_nil_r | constructor].
Qed.

Lemma started_perform (c : Config) (e : Effect) : quiet e -> started c (perform e c).
Proof.
  intros He. repeat split; try (intros H; exact H).
  - exists []. split; [now rewrite app_nil_r | constructor].
  - exists [e]. split; [reflexivity | constructor; [exact He | constructor]].
Qed.

Lemma started_setTimeout (c : Config) :
  started c (setTimeout (TimerSend completeEvent) c).
Proof.
  repeat split; try (intros H; exact H).
  - exists [TimerSend completeEvent]. split; [reflexivity | repeat constructor].
  - exists []. split; [now rewrite app_nil_r | constructor].
Qed.

Create HintDb starts discriminated.
#[export] Hint Constants Opaque : starts.

Lemma setNavigating_starts P : Starts (setNavigating P).
Proof.
  intros event c c' H. unfold setNavigating in H. injection H as <-.
  apply started_context; [reflexivity | intros Hh; exact Hh].
Qed.

Lemma invokeNavigationStart_starts P : Starts (invokeNavigationStart P).
Proof.
  intros event c c' H. unfold invokeNavigationStart in H. open_action H;
    first [apply started_refl | apply started_perform; split; reflexivity].
Qed.

Lemma goBack_starts P : Starts (goBack P).
Proof.
  intros event c c' H. unfold goBack in H.
  destruct (Nat.ltb_spec 0 (historyIndex (context c)));
    [| injection H as <-; apply started_refl].
  destruct (historyStack (context c) !! (historyIndex (context c) - 1)%nat);
    [| discriminate H].
  injection H as <-. apply started_context; [reflexivity |].
  unfold historyOk. cbn. lia.
Qed.

Lemma goForward_starts P : Starts (goForward P).
Proof.
  intros event c c' H. unfold goForward in H.
  destruct (Nat.ltb_spec (historyIndex (context c))
                         (length (historyStack (context c)) - 1));
    [| injection H as <-; apply started_refl].
  destruct (historyStack (context c) !! (historyIndex (context c) + 1)%nat);
    [| discriminate H].
  injection H as <-. apply started_context; [reflexivity |].
  unfold historyOk. cbn. lia.
Qed.

Lemma handlePopState_starts P : Starts (handlePopState P).
Proof.
  intros event c c' H. unfold handlePopState in H. injection H as <-.
  eapply started_trans; [| apply started_setTimeout].
  apply started_context; [reflexivity | intros Hh; exact Hh].
Qed.

Lemma handleHashChange_starts P : Starts (handleHashChange P).
Proof.
  intros event c c' H. unfold handleHashChange in H.
  destruct (hashRouting P); cbn [negb] in H; injection H as <-; [| apply started_refl].
  eapply started_trans; [| apply started_setTimeout].
  apply started_context; [reflexivity | intros Hh; exact Hh].
Qed.

#[export] Hint Resolve setNavigating_starts invokeNavigationStart_starts goBack_starts
  goForward_starts handlePopState_starts handleHashChange_starts : starts.

Lemma runActions_started (acts : list Action) :
  Forall Starts acts ->
  forall event c c', runActions acts event c = Some c' -> started c c'.
Proof.
  induction 1 as [|a acts Ha _ IH]; intros event c c' H; cbn [runActions] in H.
  - injection H as <-. apply started_refl.
  - destruct (a event c) as [c1|] eqn:Hc1; [| discriminate H].
    eapply started_trans; [eapply Ha; exact Hc1 | eapply IH; exact H].
Qed.

Lemma started_setState (s : State) (c c' : Config) :
  started (setState s c) c' ->
  state c' = s /\ window c' = window c /\ queue c' = queue c
  /\ location (context c') = location (context c)
  /\ (historyOk (context c) -> historyOk (context c'))
  /\ (exists ts, timers c' = timers c ++ ts
                 /\ Forall (eq (TimerSend completeEvent)) ts)
  /\ (exists es, effects c' = effects c ++ es /\ Forall quiet es).
Proof. intros H. exact H. Qed.

Ltac each_starts :=
  repeat (apply List.Forall_cons; [solve [auto with starts] |]);
  apply List.Forall_nil.

(** every transition out of [idle] and [error] leads to [navigating] and
    is a start of navigation *)
Lemma on_starts P (s : State) (t : EventType) (tr : Transition) :
  s = Idle \/ s = Error ->
  In tr (on P s t) -> target tr = Some Navigating /\ Forall Starts (actions tr).
Proof.
  intros Hs Hin.
  assert (Hall : Forall (fun tr => target tr = Some Navigating
                                   /\ Forall Starts (actions tr)) (on P s t)).
  { destruct Hs as [-> | ->]; destruct t;
      unfold on, start_navigation, guarded_navigation;
      repeat (apply List.Forall_cons;
              [split; [reflexivity | cbn [actions app]; each_starts] |]);
      apply List.Forall_nil. }
  rewrite List.Forall_forall in Hall. apply Hall, Hin.
Qed.

Lemma transit_started P (event : Event) (c cb : Config) :
  state c = Idle \/ state c = Error ->
  transit P event c = Some (Some cb) ->
  state cb = Navigating /\ window cb = window c /\ queue cb = queue c
  /\ location (context cb) = location (context c)
  /\ (historyOk (context c) -> historyOk (context cb))
  /\ (exists ts, timers cb = timers c ++ ts
                 /\ Forall (eq (TimerSend completeEvent)) ts)
  /\ (exists es, effects cb = effects c ++ es /\ Forall quiet es).
Proof.
  intros Hs H. unfold transit in H.
  destruct (choose (on P (state c) (ev_type event)) c) as [tr|] eqn:Hch; [| discriminate H].
  apply find_some in Hch. destruct Hch as [Hin _].
  destruct (on_starts P _ _ tr Hs Hin) as [Htarget Hacts].
  injection H as H. rewrite Htarget in H. cbn [default] in H.
  apply started_setState. eapply runActions_started; eassumption.
Qed.

(** out of [idle] and [error] an event that selects a transition is
    handled by that transition and then by the guard *)
Lemma dispatch_start P (event : Event) (c cb : Config) :
  state c = Idle \/ state c = Error ->
  transit P event c = Some (Some cb) ->
  dispatch P event c = invokeBeforeNavigate P event cb.
Proof.
  intros Hs H. unfold transit in H. unfold dispatch.
  destruct (choose (on P (state c) (ev_type event)) c) as [tr|] eqn:Hch; [| discriminate H].
  apply find_some in Hch. destruct Hch as [Hin _].
  destruct (on_starts P _ _ tr Hs Hin) as [Htarget _].
  injection H as H. rewrite Htarget in *. cbn [default from_option id] in *. rewrite H.
  replace (state_eqb Navigating (state c)) with false
    by (destruct Hs as [-> | ->]; reflexivity).
  cbn [negb entry runActions]. destruct (invokeBeforeNavigate P event cb); reflexivity.
Qed.

(** NAVIGATION_ERROR while a navigation is under way *)
Lemma dispatch_error P (message : string) (c : Config) :
  state c = Navigating \/ state c = Initializing ->
  dispatch P (mkEvent NAVIGATION_ERROR None None None None (Some message)) c
  = Some ((if onNavigationError P
           then perform (CallNavigationError message errorDetails)
           else fun c' => c')
            (setContext (setPendingNavigation None (setNavigatingFlag false (context c)))
                        (setState Error c))).
Proof.
  intros Hs. unfold dispatch.
  destruct Hs as [-> | ->]; cbn -[invokeNavigationError clearNavigating];
    unfold clearNavigating, invokeNavigationError; cbn;
    destruct (onNavigationError P); reflexivity.
Qed.

(** timers that send NAVIGATION_COMPLETE to a machine at rest go by
    without a trace *)
Lemma run_flush P (ts : list Timer) :
  Forall (eq (TimerSend completeEvent)) ts ->
  forall c, state c = Idle \/ state c = Error -> queue c = [] -> timers c = ts ->
    exists cf,
      run P (2 * length ts) c = Some cf
      /\ settled cf /\ state cf = state c /\ context cf = context c
      /\ effects cf = effects c /\ window cf = window c.
Proof.
  induction 1 as [|t ts <- _ IH]; intros c Hs Hq Ht.
  - exists c. repeat split; assumption.
  - replace (2 * length (TimerSend completeEvent :: ts))%nat
      with (S (S (2 * length ts))) by (cbn [length]; lia).
    set (c1 := send completeEvent (setTimers ts c)).
    assert (H1 : next P c = Some c1).
    { unfold next. rewrite Hq, Ht. reflexivity. }
    assert (H2 : next P c1 = Some (setQueue [] c1)).
    { unfold next, c1. cbn [queue send setTimers setQueue]. rewrite Hq. cbn [app].
      unfold dispatch. cbn [state setQueue send setTimers].
      destruct Hs as [-> | ->]; reflexivity. }
    destruct (IH (setQueue [] c1)) as (cf & Hrun & Hset & Hst & Hctx & Hfx & Hw);
      [exact Hs | reflexivity | reflexivity |].
    exists cf. cbn [run]. rewrite H1, H2. repeat split; try assumption; apply Hset.
Qed.

(* ================================================================== *)
(** ** A blocked navigation *)
(* ================================================================== *)

(** A navigation that the guard refuses.  The machine is at rest in
    [idle] or [error]; an event selects a transition, and the guard answers
    [false] to the navigation this makes pending.  Handling the event leaves
    the machine in [navigating] with NAVIGATION_ERROR sent; handling that
    puts it into [error], clears the pending navigation and calls the error
    observer, if there is one, with the message "Navigation prevented"; what
    is left to run changes nothing.  The current location is the same
    throughout.  (What has become of the history is another matter, see
    below for BACK.) *)
Lemma blocked_navigation :
  forall (P : Props) (event : Event) (c0 cb : Config)
         (guard : NavigationDetails -> GuardResult) (d : NavigationDetails),
    settled c0 ->
    state c0 = Idle \/ state c0 = Error ->
    transit P event c0 = Some (Some cb) ->
    onBeforeNavigate P = Some guard ->
    pendingNavigation (context cb) = Some d ->
    guard d = ReturnsBool false ->
    exists c1 c2 n cf,
      dispatch P event c0 = Some c1
      /\ state c1 = Navigating
      /\ queue c1 = [preventedEvent]
      /\ location (context c1) = location (context c0)
      /\ next P c1 = Some c2
      /\ state c2 = Error
      /\ location (context c2) = location (context c0)
      /\ pendingNavigation (context c2) = None
      /\ effects c2
         = effects c1
           ++ (if onNavigationError P
               then [CallNavigationError "Navigation prevented" errorDetails]
               else [])
      /\ run P n c2 = Some cf
      /\ settled cf
      /\ state cf = Error
      /\ context cf = context c2
      /\ effects cf = effects c2.
Proof.
  intros P event c0 cb guard d [Hq0 Ht0] Hs Htransit Hguard Hpending Hfalse.
  destruct (transit_started P event c0 cb Hs Htransit)
    as (Hst & Hw & Hq & Hloc & _ & (ts & Hts & Hall) & _).
  rewrite Hq0 in Hq. rewrite Ht0 in Hts. cbn [app] in Hts.
  set (c1 := send preventedEvent (perform (CallBeforeNavigate d) cb)).
  assert (H1 : dispatch P event c0 = Some c1).
  { rewrite (dispatch_start P event c0 cb Hs Htransit).
    unfold invokeBeforeNavigate. rewrite Hguard, Hpending, Hfalse. reflexivity. }
  assert (Hq1 : queue c1 = [preventedEvent]) by (unfold c1; cbn; now rewrite Hq).
  set (c2 := (if onNavigationError P
              then perform (CallNavigationError "Navigation prevented" errorDetails)
              else fun c' => c')
               (setContext (setPendingNavigation None
                              (setNavigatingFlag false (context (setQueue [] c1))))
                           (setState Error (setQueue [] c1)))).
  assert (H2 : next P c1 = Some c2).
  { unfold next. rewrite Hq1. unfold preventedEvent. rewrite dispatch_error; [reflexivity |].
    left. exact Hst. }
  assert (Hc2 : state c2 = Error /\ queue c2 = [] /\ timers c2 = ts
                /\ location (context c2) = location (context c0)
                /\ pendingNavigation (context c2) = None).
  { unfold c2. destruct (onNavigationError P); cbn; rewrite Hts, Hloc; repeat split. }
  destruct Hc2 as (Hst2 & Hq2 & Ht2 & Hloc2 & Hp2).
  destruct (run_flush P ts Hall c2 (or_intror Hst2) Hq2 Ht2)
    as (cf & Hrun & Hset & Hstf & Hctxf & Hfxf & _).
  exists c1, c2, (2 * length ts)%nat, cf.
  split; [exact H1 |]. split; [exact Hst |]. split; [exact Hq1 |].
  split; [exact Hloc |]. split; [exact H2 |]. split; [exact Hst2 |].
  split; [exact Hloc2 |]. split; [exact Hp2 |].
  split; [unfold c2; destruct (onNavigationError P); cbn;
          [reflexivity | now rewrite app_nil_r] |].
  split; [exact Hrun |]. split; [exact Hset |].
  split; [now rewrite Hstf |]. split; assumption.
Qed.

(* ================================================================== *)
(** ** The end of a navigation *)
(* ================================================================== *)

Lemma quietly_refl (c : Config) : quietly c c.
Proof.
  repeat split; try (intros H; exact H).
  exists []. split; [now rewrite app_nil_r | constructor].
Qed.

Lemma quietly_trans (a b c : Config) : quietly a b -> quietly b c -> quietly a c.
Proof.
  intros (Hs1 & Hw1 & Hq1 & Ht1 & Hl1 & Hp1 & Hh1 & (es1 & He1 & Hg1))
         (Hs2 & Hw2 & Hq2 & Ht2 & Hl2 & Hp2 & Hh2 & (es2 & He2 & Hg2)).
  repeat split; try congruence.
  - intros H. apply Hh2, Hh1, H.
  - exists (es1 ++ es2). split; [rewrite He2, He1; now rewrite app_assoc |].
    apply Forall_app; split; assumption.
Qed.

Lemma quietly_perform (c : Config) (e : Effect) : quiet e -> quietly c (perform e c).
Proof.
  intros He. repeat split; try (intros H; exact H).
  exists [e]. split; [reflexivity | constructor; [exact He | constructor]].
Qed.

Ltac quiet_cases :=
  repeat match goal with
         | |- context [match ?e with _ => _ end] => destruct e
         end;
  eexists; (split; [reflexivity |]);
  first [apply quietly_refl | apply quietly_perform; split; reflexivity].

Create HintDb quiet discriminated.
#[export] Hint Constants Opaque : quiet.

Lemma updateBrowserHistory_quiet P : Quiet (updateBrowserHistory P).
Proof. intros event c. unfold updateBrowserHistory. quiet_cases. Qed.

Lemma scrollToTopEffect_quiet P : Quiet (scrollToTopEffect P).
Proof. intros event c. unfold scrollToTopEffect. quiet_cases. Qed.

Lemma invokeNavigationEnd_quiet P : Quiet (invokeNavigationEnd P).
Proof. intros event c. unfold invokeNavigationEnd. quiet_cases. Qed.

Lemma invokeOnNavigate_quiet P : Quiet (invokeOnNavigate P).
Proof. intros event c. unfold invokeOnNavigate. quiet_cases. Qed.

#[export] Hint Resolve updateBrowserHistory_quiet scrollToTopEffect_quiet
  invokeNavigationEnd_quiet invokeOnNavigate_quiet : quiet.

Lemma runActions_quiet (acts : list Action) :
  Forall Quiet acts ->
  forall event c, exists c', runActions acts event c = Some c' /\ quietly c c'.
Proof.
  induction 1 as [|a acts Ha _ IH]; intros event c; cbn [runActions].
  - exists c. split; [reflexivity | apply quietly_refl].
  - destruct (Ha event c) as (c1 & H1 & Hq1). rewrite H1.
    destruct (IH event c1) as (c2 & H2 & Hq2).
    exists c2. split; [exact H2 | eapply quietly_trans; eassumption].
Qed.

(** [updateHistory] goes through when the index points into the stack *)
Lemma updateHistory_total (event : Event) (c : Config) :
  historyOk (context c) ->
  exists c', updateHistory event c = Some c'
             /\ historyOk (context c')
             /\ state c' = state c /\ window c' = window c /\ queue c' = queue c
             /\ timers c' = timers c /\ effects c' = effects c
             /\ location (context c') = location (context c)
             /\ pendingNavigation (context c') = pendingNavigation (context c).
Proof.
  intros Hok. unfold updateHistory. unfold historyOk in Hok.
  destruct (pendingNavigation (context c)) as [d|] eqn:Hd;
    [| exists c; rewrite Hd; repeat split; exact Hok].
  destruct (type d).
  - eexists. split; [reflexivity |]. unfold historyOk. cbn. rewrite length_app. cbn.
    repeat split; [lia | exact Hd].
  - destruct (Nat.ltb_spec (historyIndex (context c)) (length (historyStack (context c))))
      as [_ | Hge]; [| lia].
    eexists. split; [reflexivity |]. unfold historyOk. cbn. rewrite length_insert.
    repeat split; [exact Hok | exact Hd].
  - exists c. rewrite Hd. repeat split; exact Hok.
  - exists c. rewrite Hd. repeat split; exact Hok.
  - exists c. rewrite Hd. repeat split; exact Hok.
Qed.

Lemma pathname_enrich (l : RouteLocation) (rs : option (list RouteDefinition)) :
  pathname (enrichLocationWithMeta l rs) = pathname l.
Proof.
  unfold enrichLocationWithMeta. destruct rs as [rs|]; [| reflexivity].
  destruct (findRouteByLocation l rs); reflexivity.
Qed.

Lemma pathname_withRouteParams (l : RouteLocation) (rs : option (list RouteDefinition)) :
  pathname (withRouteParams l rs) = pathname l.
Proof.
  unfold withRouteParams. destruct rs as [rs|]; [| reflexivity].
  destruct (findRouteByLocation l rs); reflexivity.
Qed.

(** NAVIGATION_COMPLETE while a navigation is pending: the target is
    committed and the machine comes to rest *)
Lemma dispatch_complete P (c : Config) (d : NavigationDetails) :
  state c = Navigating \/ state c = Initializing ->
  pendingNavigation (context c) = Some d ->
  historyOk (context c) ->
  exists c',
    dispatch P completeEvent c = Some c'
    /\ state c' = Idle
    /\ location (context c')
       = enrichLocationWithMeta (withRouteParams (to d) (routes P)) (routes P)
    /\ pendingNavigation (context c') = None
    /\ navigating (context c') = false
    /\ queue c' = queue c /\ timers c' = timers c /\ window c' = window c
    /\ historyOk (context c')
    /\ (exists es, effects c' = effects c ++ es /\ Forall quiet es).
Proof.
  intros Hs Hp Hok.
  set (cL := setContext
               (setLocation
                  (enrichLocationWithMeta (withRouteParams (to d) (routes P)) (routes P))
                  (setPendingNavigation
                     (Some (setTo (withRouteParams (to d) (routes P)) d))
                     (setPreviousLocation
                        (Some (enrichLocationWithMeta (location (context c)) (routes P)))
                        (context c))))
               (setState Idle c)).
  assert (HL : updateLocation P completeEvent (setState Idle c) = Some cL).
  { unfold updateLocation. cbn [context setState]. rewrite Hp. reflexivity. }
  destruct (updateHistory_total completeEvent cL) as
    (cH & HH & HokH & HstH & HwH & HqH & HtH & HfxH & HlocH & HpH);
    [exact Hok |].
  set (middle := match state c with
                 | Navigating => [updateBrowserHistory P; scrollToTopEffect P;
                                  invokeNavigationEnd P; invokeOnNavigate P]
                 | _ => [invokeNavigationEnd P; invokeOnNavigate P]
                 end).
  assert (Hmid : Forall Quiet middle).
  { unfold middle. destruct (state c);
      repeat (apply List.Forall_cons; [solve [auto with quiet] |]);
      apply List.Forall_nil. }
  destruct (runActions_quiet middle Hmid completeEvent cH)
    as (cM & HM & (HstM & HwM & HqM & HtM & HlocM & HpM & HokM & (es & Hes & Hquiet))).
  exists (updateContext (fun x => setPendingNavigation None (setNavigatingFlag false x)) cM).
  split.
  { unfold dispatch.
    assert (Hrun : runActions (updateLocation P :: updateHistory :: middle ++ [clearNavigating])
                              completeEvent (setState Idle c)
                   = Some (updateContext
                             (fun x => setPendingNavigation None (setNavigatingFlag false x))
                             cM)).
    { cbn [runActions]. rewrite HL, HH. rewrite runActions_app, HM. reflexivity. }
    unfold middle in Hrun.
    destruct Hs as [Hst | Hst]; rewrite Hst in *;
      cbn [on choose find guard target actions default from_option id ev_type completeEvent
           plainEvent state_eqb negb entry];
      cbn [app] in Hrun; rewrite Hrun; reflexivity. }
  cbn [updateContext setContext state context pendingNavigation navigating
       setPendingNavigation setNavigatingFlag queue timers window effects location
       historyStack historyIndex].
  split; [rewrite HstM, HstH; reflexivity |].
  split; [rewrite HlocM, HlocH; reflexivity |].
  split; [reflexivity |]. split; [reflexivity |].
  split; [rewrite HqM, HqH; reflexivity |].
  split; [rewrite HtM, HtH; reflexivity |].
  split; [rewrite HwM, HwH; reflexivity |].
  split; [apply HokM, HokH |].
  exists es. split; [rewrite Hes, HfxH; reflexivity | exact Hquiet].
Qed.

(* ================================================================== *)
(** ** Addresses that are plain paths *)
(* ================================================================== *)

Lemma cutAt_absent (c : ascii) (s : string) :
  Js.includes s (String c EmptyString) = false -> Platform.cutAt c s = (s, EmptyString).
Proof.
  induction s as [|d s IH]; intros H; [reflexivity |].
  cbn [Js.includes] in H. apply orb_false_iff in H. destruct H as [Hhead Htail].
  cbn [Platform.cutAt].
  change (String.prefix (String c EmptyString) (String d s))
    with (if Ascii.ascii_dec c d then String.prefix EmptyString s else false) in Hhead.
  destruct (Ascii.eqb_spec d c) as [-> | Hne].
  - destruct (Ascii.ascii_dec c c); [destruct s; discriminate Hhead | congruence].
  - rewrite (IH Htail). reflexivity.
Qed.

Lemma URL_path_absolute (url base : string) :
  Js.startsWith url "/" = true -> Js.startsWith url "//" = false ->
  Platform.URL url base
  = let '(p, q, f) := Platform.components url in Platform.assemble p q f.
Proof.
  intros H1 H2. unfold Platform.URL.
  destruct url as [|a url]; [discriminate H1 |].
  assert (Ha : a = "/"%char).
  { unfold Js.startsWith in H1.
    change (String.prefix "/" (String a url))
      with (if Ascii.ascii_dec "/" a then String.prefix EmptyString url else false) in H1.
    destruct (Ascii.ascii_dec "/" a) as [<- | Hne]; [reflexivity | discriminate H1]. }
  subst a. unfold Js.startsWith in H1, H2.
  cbn [Platform.stripOrigin].
  replace (Js.isAlpha "/") with false by reflexivity.
  destruct (Platform.components _) as [[bp bq] bf].
  rewrite H2, H1. reflexivity.
Qed.

Lemma parseUrl_path_absolute (win : option Window) (url basePath : string) :
  Js.startsWith url "/" = true -> Js.startsWith url "//" = false ->
  Dom.parseUrl win url basePath = Dom.parseUrl None url basePath.
Proof.
  intros H1 H2. unfold Dom.parseUrl.
  destruct win as [w|]; [| reflexivity].
  rewrite H1. cbn [orb].
  rewrite !(URL_path_absolute url _ H1 H2). reflexivity.
Qed.

Lemma parseUrl_root (win : option Window) (basePath : string) :
  Dom.parseUrl win "/" basePath = mkLocation "/" "" "" [] [] None None.
Proof.
  rewrite parseUrl_path_absolute by reflexivity.
  unfold Dom.parseUrl.
  replace (Platform.URL "/" "http://localhost") with (Platform.mkURL "/" "" "" [])
    by reflexivity.
  cbn [Platform.url_pathname Platform.url_search Platform.url_hash
       Platform.url_searchParams fold_left].
  replace (if negb (String.eqb basePath "/") && Js.startsWith "/" basePath
           then Js.orElse (Js.sliceFrom (String.length basePath) "/") "/"
           else "/") with "/"; [reflexivity |].
  destruct basePath as [|a [|b r]]; try reflexivity.
  - destruct (Ascii.ascii_dec a "/") as [-> | Hne]; [reflexivity |].
    unfold Js.startsWith.
    change (String.prefix (String a "") "/")
      with (if Ascii.ascii_dec a "/" then String.prefix EmptyString EmptyString else false).
    destruct (Ascii.ascii_dec a "/"); [congruence |].
    now rewrite andb_false_r.
  - unfold Js.startsWith.
    change (String.prefix (String a (String b r)) "/")
      with (if Ascii.ascii_dec a "/" then String.prefix (String b r) EmptyString else false).
    destruct (Ascii.ascii_dec a "/"); cbn; now rewrite andb_false_r.
Qed.

(** a plain path is read back as it is, unless the base path is cut off
    its front (by the host as by its model when the path needs no
    normalising, as the paths of [Address.verbatimPath] do) *)
Lemma parseUrl_plain_path (win : option Window) (s basePath : string) :
  Prefix.plainPath s = true ->
  basePath = "/" \/ Js.startsWith s basePath = false ->
  pathname (Dom.parseUrl win s basePath) = s.
Proof.
  unfold Prefix.plainPath. intros H Hbase.
  apply andb_true_iff in H. destruct H as [H Hhash].
  apply andb_true_iff in H. destruct H as [H Hquery].
  apply andb_true_iff in H. destruct H as [Hslash Hdouble].
  apply negb_true_iff in Hhash, Hquery, Hdouble.
  rewrite parseUrl_path_absolute by assumption.
  unfold Dom.parseUrl. rewrite (URL_path_absolute s _ Hslash Hdouble).
  unfold Platform.components. rewrite (cutAt_absent "#" s Hhash).
  rewrite (cutAt_absent "?" s Hquery).
  cbn [pathname Platform.assemble Platform.url_pathname].
  assert (Hroot : Platform.rootIfEmpty s = s).
  { destruct s; [discriminate Hslash | reflexivity]. }
  rewrite Hroot.
  destruct Hbase as [-> | Hno]; [reflexivity |].
  rewrite Hno, andb_false_r. reflexivity.
Qed.

(** with the base path ["/"] a plain path survives [createUrl] followed
    by [parseUrl] *)
Lemma round_trip_at_root (win : option Window) (p : string) :
  Prefix.plainPath p = true ->
  pathname (Dom.parseUrl win (Dom.createUrl p "" "" "/") "/") = p.
Proof.
  intros Hplain. unfold Dom.createUrl. cbn [String.eqb negb andb].
  replace (negb (String.eqb "/" "") && negb (String.eqb "/" "/")) with false
    by reflexivity.
  rewrite !append_empty_r. apply parseUrl_plain_path; [exact Hplain | now left].
Qed.

(* ================================================================== *)
(** ** The guard on the first load *)
(* ================================================================== *)

Lemma guardCalls_quiet (c c' : Config) (es : list Effect) :
  effects c' = effects c ++ es -> Forall quiet es -> guardCalls c' = guardCalls c.
Proof.
  intros He Hq. unfold guardCalls. rewrite He, List.filter_app, length_app.
  clear He.
  replace (List.filter isGuardCall es) with (@nil Effect); [cbn; lia |].
  induction Hq as [|e es [He1 _] _ IH]; [reflexivity |].
  cbn [List.filter]. rewrite He1. exact IH.
Qed.

Lemma no_error_quiet (es : list Effect) :
  Forall quiet es -> Forall (fun e => isErrorCall e = false) es.
Proof. apply List.Forall_impl. intros e [_ H]. exact H. Qed.

(** the first step of a freshly constructed machine whose guard is there:
    the timer lets the guard decide *)
Lemma next_start P (win : option Window) (c0 : Config)
      (guard : NavigationDetails -> GuardResult) (d : NavigationDetails) :
  start P win = Some c0 ->
  onBeforeNavigate P = Some guard ->
  pendingNavigation (context c0) = Some d ->
  state c0 = Initializing /\ window c0 = win /\ queue c0 = [] /\ effects c0 = []
  /\ timers c0 = [TimerInitialGuard] /\ historyOk (context c0)
  /\ next P c0
     = match guard d with
       | ReturnsBool false =>
           Some (send completeEvent
                   (setContext
                      (setPendingNavigation
                         (Some (createNavigationDetailsWithMeta None
                                  (enrichLocationWithMeta
                                     (Dom.parseUrl win "/" (basePath P)) (routes P))
                                  replace programmatic (routes P)))
                         (context c0))
                      (perform (CallBeforeNavigate d) (setTimers [] c0))))
       | ReturnsString result =>
           Some (send completeEvent
                   (setContext
                      (setPendingNavigation
                         (Some (createNavigationDetailsWithMeta None
                                  (enrichLocationWithMeta
                                     (Dom.parseUrl win result (basePath P)) (routes P))
                                  replace programmatic (routes P)))
                         (context c0))
                      (perform (CallBeforeNavigate d) (setTimers [] c0))))
       | _ => Some (send completeEvent (perform (CallBeforeNavigate d) (setTimers [] c0)))
       end.
Proof.
  intros Hstart Hguard Hpending. rewrite start_unfold in Hstart.
  injection Hstart as Hc0.
  assert (Hst0 : state c0 = Initializing) by (rewrite <- Hc0; reflexivity).
  assert (Hw0 : window c0 = win) by (rewrite <- Hc0; reflexivity).
  assert (Hq0 : queue c0 = []) by (rewrite <- Hc0; reflexivity).
  assert (Hfx0 : effects c0 = []) by (rewrite <- Hc0; reflexivity).
  assert (Ht0 : timers c0 = [TimerInitialGuard]) by (rewrite <- Hc0; reflexivity).
  assert (Hok0 : historyOk (context c0))
    by (rewrite <- Hc0; unfold historyOk; cbn; lia).
  repeat (split; [assumption |]).
  unfold next. rewrite Hq0, Ht0. unfold fire, initialGuardCallback.
  cbn [context setTimers]. rewrite Hguard, Hpending.
  cbn [window perform setTimers]. rewrite Hw0.
  destruct (guard d) as [|[|]|result]; reflexivity.
Qed.

(** C7.  The machine has just been constructed and the guard answers
    [false] to the first pending navigation.  When the guard has been
    asked, the machine is still in [initializing], with a navigation to the
    root of the application pending in place of the first one and
    NAVIGATION_COMPLETE sent; handling that commits the root location and
    leaves the machine at rest in [idle].  The error observer is not
    called, and the address of the committed location is the base path. *)
Theorem C7_blocked_initial_load :
  forall (P : Props) (win : option Window) (c0 : Config)
         (guard : NavigationDetails -> GuardResult) (d : NavigationDetails),
    start P win = Some c0 ->
    onBeforeNavigate P = Some guard ->
    pendingNavigation (context c0) = Some d ->
    guard d = ReturnsBool false ->
    exists c1 c2 fallback,
      state c0 = Initializing
      /\ next P c0 = Some c1
      /\ state c1 = Initializing
      /\ queue c1 = [completeEvent]
      /\ pendingNavigation (context c1) = Some fallback
      /\ from fallback = None /\ type fallback = replace
      /\ pathname (to fallback) = "/"
      /\ next P c1 = Some c2
      /\ state c2 = Idle
      /\ settled c2
      /\ pendingNavigation (context c2) = None
      /\ pathname (location (context c2)) = "/"
      /\ search (location (context c2)) = ""
      /\ hash (location (context c2)) = ""
      /\ Dom.createUrl (pathname (location (context c2))) (search (location (context c2)))
                       (hash (location (context c2))) (basePath P)
         = Js.orElse (basePath P) "/"
      /\ Forall (fun e => isErrorCall e = false) (effects c2).
Proof.
  intros P win c0 guard d Hstart Hguard Hpending Hfalse.
  destruct (next_start P win c0 guard d Hstart Hguard Hpending)
    as (Hst0 & Hw0 & Hq0 & Hfx0 & Ht0 & Hok0 & Hnext0).
  rewrite Hfalse in Hnext0.
  set (fallback := createNavigationDetailsWithMeta None
                     (enrichLocationWithMeta (Dom.parseUrl win "/" (basePath P)) (routes P))
                     replace programmatic (routes P)) in *.
  set (c1 := send completeEvent
               (setContext (setPendingNavigation (Some fallback) (context c0))
                           (perform (CallBeforeNavigate d) (setTimers [] c0)))) in *.
  assert (Hq1 : queue c1 = [completeEvent]) by (unfold c1; cbn; now rewrite Hq0).
  destruct (dispatch_complete P (setQueue [] c1) fallback)
    as (c2 & Hd2 & Hst2 & Hloc2 & Hp2 & _ & Hq2 & Ht2 & _ & _ & (es & Hes & Hquiet));
    [right; exact Hst0 | reflexivity | exact Hok0 |].
  assert (Hpath : pathname (to fallback) = "/").
  { unfold fallback. cbn [to createNavigationDetailsWithMeta].
    rewrite !pathname_enrich, parseUrl_root. reflexivity. }
  assert (Hfields : forall l rs,
             search (enrichLocationWithMeta l rs) = search l
             /\ hash (enrichLocationWithMeta l rs) = hash l
             /\ search (withRouteParams l rs) = search l
             /\ hash (withRouteParams l rs) = hash l).
  { intros l rs. unfold enrichLocationWithMeta, withRouteParams.
    destruct rs as [rs|]; [| repeat split].
    destruct (findRouteByLocation l rs); repeat split. }
  assert (Hsearch : search (location (context c2)) = ""
                    /\ hash (location (context c2)) = "").
  { rewrite Hloc2. unfold fallback. cbn [to createNavigationDetailsWithMeta].
    destruct (Hfields (withRouteParams
                         (enrichLocationWithMeta
                            (enrichLocationWithMeta (Dom.parseUrl win "/" (basePath P))
                                                    (routes P)) (routes P)) (routes P))
                      (routes P)) as (-> & -> & _ & _).
    destruct (Hfields (enrichLocationWithMeta
                         (enrichLocationWithMeta (Dom.parseUrl win "/" (basePath P))
                                                 (routes P)) (routes P))
                      (routes P)) as (_ & _ & -> & ->).
    destruct (Hfields (enrichLocationWithMeta (Dom.parseUrl win "/" (basePath P))
                                              (routes P))
                      (routes P)) as (-> & -> & _ & _).
    destruct (Hfields (Dom.parseUrl win "/" (basePath P)) (routes P)) as (-> & -> & _ & _).
    rewrite parseUrl_root. split; reflexivity. }
  assert (Hpath2 : pathname (location (context c2)) = "/").
  { rewrite Hloc2, pathname_enrich, pathname_withRouteParams. exact Hpath. }
  exists c1, c2, fallback.
  split; [exact Hst0 |]. split; [exact Hnext0 |]. split; [exact Hst0 |].
  split; [exact Hq1 |]. split; [reflexivity |]. split; [reflexivity |].
  split; [reflexivity |]. split; [exact Hpath |].
  split; [unfold next; rewrite Hq1; exact Hd2 |].
  split; [exact Hst2 |].
  split; [split; [rewrite Hq2; reflexivity | rewrite Ht2; reflexivity] |].
  split; [exact Hp2 |]. split; [exact Hpath2 |].
  destruct Hsearch as [Hs Hh]. split; [exact Hs |]. split; [exact Hh |].
  split.
  { rewrite Hpath2, Hs, Hh. unfold Dom.createUrl, Js.orElse.
    destruct (String.eqb_spec (basePath P) "") as [-> | Hne]; [reflexivity |].
    destruct (String.eqb_spec (basePath P) "/") as [-> | Hne']; [reflexivity |].
    cbn [negb andb Js.startsWith String.prefix Js.sliceFrom Js.drop].
    replace (Js.startsWith "/" "/") with true by reflexivity.
    cbn [Js.sliceFrom Js.drop]. now rewrite !append_empty_r. }
  rewrite Hes. cbn [effects setQueue c1 send perform setContext setTimers].
  unfold c1. cbn [effects setQueue send perform setContext setTimers].
  rewrite Hfx0. cbn [app].
  constructor; [reflexivity | apply no_error_quiet, Hquiet].
Qed.

(** C7 at a machine without a window whose guard lets nothing through. *)
Lemma C7_witness :
  exists c0 c1 c2,
    start Examples.blocking_props None = Some c0
    /\ next Examples.blocking_props c0 = Some c1
    /\ next Examples.blocking_props c1 = Some c2
    /\ state c2 = Idle
    /\ pathname (location (context c2)) = "/".
Proof.
  edestruct (C7_blocked_initial_load Examples.blocking_props None)
    as (c1 & c2 & fallback & H).
  - reflexivity.
  - reflexivity.
  - reflexivity.
  - reflexivity.
  - destruct H as (_ & H1 & _ & _ & _ & _ & _ & _ & H2 & Hst & _ & _ & Hp & _).
    eexists _, c1, c2. split; [reflexivity |].
    split; [exact H1 |]. split; [exact H2 |]. split; [exact Hst | exact Hp].
Defined.

(* ================================================================== *)
(** ** A redirecting guard *)
(* ================================================================== *)

(** C8, as the code has it.  When the guard answers a navigation with
    the string [s] - the first one of a freshly constructed machine, or one
    that an event starts in a machine at rest in [idle] or [error] with
    nothing else waiting - the guard is asked once, a navigation of type
    [replace] is pending when NAVIGATION_COMPLETE is handled, and the
    machine comes to rest in [idle] at the location [parseUrl] makes of
    [s].  Its pathname is [s] itself when [s] is a path that the host reads
    as it is written and the base path is ["/"] or does not begin [s]; a
    base path that begins [s] is cut off. *)
Theorem C8_redirecting_guard :
  forall (P : Props) (guard : NavigationDetails -> GuardResult) (s : string),
    onBeforeNavigate P = Some guard ->
    (forall win c0 d,
        start P win = Some c0 ->
        pendingNavigation (context c0) = Some d ->
        guard d = ReturnsString s ->
        exists c1 c2 d',
          next P c0 = Some c1
          /\ queue c1 = [completeEvent]
          /\ pendingNavigation (context c1) = Some d'
          /\ type d' = replace
          /\ next P c1 = Some c2
          /\ state c2 = Idle
          /\ settled c2
          /\ pathname (location (context c2))
             = pathname (Dom.parseUrl win s (basePath P))
          /\ guardCalls c2 = 1%nat)
    /\ (forall event c0 cb d,
           settled c0 ->
           historyOk (context c0) ->
           state c0 = Idle \/ state c0 = Error ->
           transit P event c0 = Some (Some cb) ->
           pendingNavigation (context cb) = Some d ->
           guard d = ReturnsString s ->
           exists c1 c2 d' n cf,
             dispatch P event c0 = Some c1
             /\ queue c1 = [completeEvent]
             /\ pendingNavigation (context c1) = Some d'
             /\ type d' = replace
             /\ next P c1 = Some c2
             /\ state c2 = Idle
             /\ pathname (location (context c2))
                = pathname (Dom.parseUrl (window c0) s (basePath P))
             /\ guardCalls c2 = (guardCalls c0 + 1)%nat
             /\ run P n c2 = Some cf
             /\ settled cf
             /\ state cf = Idle
             /\ context cf = context c2
             /\ effects cf = effects c2)
    /\ (forall win,
           Address.verbatimPath s = true ->
           basePath P = "/" \/ Js.startsWith s (basePath P) = false ->
           pathname (Dom.parseUrl win s (basePath P)) = s).
Proof.
  intros P guard s Hguard. split; [| split].
  - intros win c0 d Hstart Hpending Hredirect.
    destruct (next_start P win c0 guard d Hstart Hguard Hpending)
      as (Hst0 & Hw0 & Hq0 & Hfx0 & Ht0 & Hok0 & Hnext0).
    rewrite Hredirect in Hnext0.
    set (d' := createNavigationDetailsWithMeta None
                 (enrichLocationWithMeta (Dom.parseUrl win s (basePath P)) (routes P))
                 replace programmatic (routes P)) in *.
    set (c1 := send completeEvent
                 (setContext (setPendingNavigation (Some d') (context c0))
                             (perform (CallBeforeNavigate d) (setTimers [] c0)))) in *.
    assert (Hq1 : queue c1 = [completeEvent]) by (unfold c1; cbn; now rewrite Hq0).
    destruct (dispatch_complete P (setQueue [] c1) d')
      as (c2 & Hd2 & Hst2 & Hloc2 & _ & _ & Hq2 & Ht2 & _ & _ & (es & Hes & Hquiet));
      [right; exact Hst0 | reflexivity | exact Hok0 |].
    exists c1, c2, d'.
    split; [exact Hnext0 |]. split; [exact Hq1 |]. split; [reflexivity |].
    split; [reflexivity |].
    split; [unfold next; rewrite Hq1; exact Hd2 |].
    split; [exact Hst2 |].
    split; [split; [rewrite Hq2; reflexivity | rewrite Ht2; reflexivity] |].
    split.
    { rewrite Hloc2, pathname_enrich, pathname_withRouteParams. unfold d'.
      cbn [to createNavigationDetailsWithMeta]. now rewrite !pathname_enrich. }
    rewrite (guardCalls_quiet _ _ es Hes Hquiet).
    unfold guardCalls, c1. cbn [effects setQueue send perform setContext setTimers].
    rewrite Hfx0. reflexivity.
  - intros event c0 cb d [Hq0 Ht0] Hok0 Hs Htransit Hpending Hredirect.
    destruct (transit_started P event c0 cb Hs Htransit)
      as (Hst & Hw & Hq & Hloc & Hok & (ts & Hts & Hall) & (es0 & Hes0 & Hquiet0)).
    rewrite Hq0 in Hq. rewrite Ht0 in Hts. cbn [app] in Hts.
    set (d' := createNavigationDetailsWithMeta (Some (location (context cb)))
                 (enrichLocationWithMeta (Dom.parseUrl (window cb) s (basePath P))
                                         (routes P))
                 replace programmatic (routes P)).
    set (c1 := send completeEvent
                 (setContext (setPendingNavigation (Some d') (context cb))
                             (perform (CallBeforeNavigate d) cb))).
    assert (H1 : dispatch P event c0 = Some c1).
    { rewrite (dispatch_start P event c0 cb Hs Htransit).
      unfold invokeBeforeNavigate. rewrite Hguard, Hpending, Hredirect. reflexivity. }
    assert (Hq1 : queue c1 = [completeEvent]) by (unfold c1; cbn; now rewrite Hq).
    destruct (dispatch_complete P (setQueue [] c1) d')
      as (c2 & Hd2 & Hst2 & Hloc2 & _ & _ & Hq2 & Ht2 & _ & _ & (es & Hes & Hquiet));
      [left; exact Hst | reflexivity | exact (Hok Hok0) |].
    cbn [queue timers setQueue] in Hq2, Ht2.
    assert (Ht2' : timers c2 = ts) by (rewrite Ht2; unfold c1; cbn; exact Hts).
    destruct (run_flush P ts Hall c2 (or_introl Hst2) Hq2 Ht2')
      as (cf & Hrun & Hset & Hstf & Hctxf & Hfxf & _).
    exists c1, c2, d', (2 * length ts)%nat, cf.
    split; [exact H1 |]. split; [exact Hq1 |]. split; [reflexivity |].
    split; [reflexivity |].
    split; [unfold next; rewrite Hq1; exact Hd2 |].
    split; [exact Hst2 |].
    split.
    { rewrite Hloc2, pathname_enrich, pathname_withRouteParams. unfold d'.
      cbn [to createNavigationDetailsWithMeta]. rewrite !pathname_enrich.
      now rewrite Hw. }
    split.
    { rewrite (guardCalls_quiet _ _ es Hes Hquiet).
      unfold guardCalls, c1. cbn [effects setQueue send perform setContext].
      rewrite List.filter_app, length_app. cbn [List.filter isGuardCall length].
      fold (guardCalls cb). rewrite (guardCalls_quiet c0 cb es0 Hes0 Hquiet0).
      reflexivity. }
    split; [exact Hrun |]. split; [exact Hset |].
    split; [now rewrite Hstf |]. split; assumption.
  - intros win Hverbatim Hbase. unfold Address.verbatimPath in Hverbatim.
    apply andb_true_iff in Hverbatim. destruct Hverbatim as [Hplain _].
    apply parseUrl_plain_path; assumption.
Qed.

(** C8 as stated fails, in two ways.  Under the base path [/login] a
    guard that answers ["/login"] on the first load leaves the machine at
    the pathname ["/"], the base path being cut off the target.  And when
    the machine is asked to go to [/admin] and, before that is handled, to
    [/other], the guard is asked about [/admin] and answers ["/login"], but
    the second request takes the place of the redirect unasked: the machine
    comes to rest at [/other], by a push. *)
Lemma C8_counterexample :
  (Examples.loaded (Examples.redirecting_props "/login")
   = Some Examples.login_under_login
   /\ state Examples.login_under_login = Idle
   /\ settled Examples.login_under_login
   /\ guardCalls Examples.login_under_login = 1%nat
   /\ pathname (location (context Examples.login_under_login)) = "/"
   /\ pathname (location (context Examples.login_under_login)) <> "/login")
  /\ (run (Examples.redirecting_props "/") 3 Visits.asked_twice = Some Visits.overtaken
      /\ state Visits.overtaken = Idle
      /\ settled Visits.overtaken
      /\ guardCalls Visits.overtaken = 1%nat
      /\ pathname (location (context Visits.overtaken)) = "/other"
      /\ pathname (location (context Visits.overtaken)) <> "/login"
      /\ map pathname (historyStack (context Visits.overtaken)) = ["/"; "/other"]).
Proof.
  split.
  - split; [vm_compute; reflexivity |].
    split; [reflexivity |]. split; [split; reflexivity |].
    split; [reflexivity |]. split; [reflexivity | discriminate].
  - split; [vm_compute; reflexivity |].
    split; [reflexivity |]. split; [split; reflexivity |].
    split; [reflexivity |]. split; [reflexivity |]. split; [discriminate | reflexivity].
Qed.

(** C8 at the base path ["/"]: the first load of a machine without a
    window, and a navigation to [/admin] from rest at ["/"], both answered
    with ["/login"]. *)
Lemma C8_witness :
  (exists c0 c1 c2,
      start (Examples.redirecting_props "/") None = Some c0
      /\ next (Examples.redirecting_props "/") c0 = Some c1
      /\ next (Examples.redirecting_props "/") c1 = Some c2
      /\ state c2 = Idle
      /\ pathname (location (context c2)) = "/login"
      /\ guardCalls c2 = 1%nat)
  /\ (exists c1 c2,
         dispatch (Examples.redirecting_props "/") (Examples.navigate_to "/admin")
                  (Examples.resting_at "/") = Some c1
         /\ next (Examples.redirecting_props "/") c1 = Some c2
         /\ state c2 = Idle
         /\ pathname (location (context c2)) = "/login"
         /\ guardCalls c2 = 1%nat).
Proof.
  destruct (C8_redirecting_guard (Examples.redirecting_props "/")
              (fun _ => ReturnsString "/login") "/login" eq_refl)
    as (Hinitial & Hlater & Hpath).
  assert (Hlogin : forall win,
             pathname (Dom.parseUrl win "/login" (basePath (Examples.redirecting_props "/")))
             = "/login").
  { intros win. apply Hpath; [reflexivity | left; reflexivity]. }
  split.
  - edestruct (Hinitial None) as (c1 & c2 & d' & H).
    + reflexivity.
    + reflexivity.
    + reflexivity.
    + destruct H as (H1 & _ & _ & _ & H2 & Hst & _ & Hp & Hg).
      eexists _, c1, c2. split; [reflexivity |]. split; [exact H1 |].
      split; [exact H2 |]. split; [exact Hst |].
      split; [rewrite Hp; apply Hlogin | exact Hg].
  - edestruct (Hlater (Examples.navigate_to "/admin") (Examples.resting_at "/"))
      as (c1 & c2 & d' & n & cf & H).
    + split; reflexivity.
    + unfold historyOk. cbn. lia.
    + left. reflexivity.
    + reflexivity.
    + reflexivity.
    + reflexivity.
    + destruct H as (H1 & _ & _ & _ & H2 & Hst & Hp & Hg & _).
      exists c1, c2. split; [exact H1 |]. split; [exact H2 |].
      split; [exact Hst |]. split; [rewrite Hp; apply Hlogin | exact Hg].
Defined.

Lemma reachable_run P (win : option Window) (n : nat) :
  forall c c', Reachable P win c -> run P n c = Some c' -> Reachable P win c'.
Proof.
  induction n as [|n IH]; intros c c' Hreach Hrun; cbn [run] in Hrun.
  - injection Hrun as <-. exact Hreach.
  - destruct (next P c) as [c1|] eqn:Hnext; [| discriminate Hrun].
    eapply IH; [| exact Hrun].
    eapply ReachStep; [exact Hreach | apply StepNext; exact Hnext].
Qed.

Lemma reachable_loaded P (c : Config) :
  Examples.loaded P = Some c -> Reachable P None c.
Proof.
  unfold Examples.loaded. intros H.
  destruct (start P None) as [c0|] eqn:Hstart; [| discriminate H].
  eapply reachable_run; [apply ReachStart; exact Hstart | exact H].
Qed.

(** C10 at a machine whose guard lets nothing through, after its first
    load and a blocked navigation to [/admin]: the error observer has been
    called, with the made-up details. *)
Lemma C10_witness :
  Reachable Examples.blocking_props None Examples.blocked_at_admin
  /\ In (CallNavigationError "Navigation prevented" errorDetails)
        (effects Examples.blocked_at_admin)
  /\ (forall message details,
         In (CallNavigationError message details) (effects Examples.blocked_at_admin) ->
         details = errorDetails).
Proof.
  assert (Hreach : Reachable Examples.blocking_props None Examples.blocked_at_admin).
  { apply (reachable_run Examples.blocking_props None 2
             (send (Examples.navigate_to "/admin") Examples.blocking_loaded)).
    - eapply ReachStep; [| apply StepSend].
      apply reachable_loaded. vm_compute. reflexivity.
    - vm_compute. reflexivity. }
  split; [exact Hreach |].
  split; [cbn; auto 10 |].
  exact (proj1 (C10_error_observer_details Examples.blocking_props None
                  Examples.blocked_at_admin Hreach)).
Defined.

(* ================================================================== *)
(** ** More on strings *)
(* ================================================================== *)

Lemma prefix_empty (s : string) : String.prefix EmptyString s = true.
Proof. destruct s; reflexivity. Qed.

Lemma prefix_cons (c d : ascii) (p s : string) :
  String.prefix (String c p) (String d s)
  = if Ascii.eqb c d then String.prefix p s else false.
Proof.
  change (String.prefix (String c p) (String d s))
    with (if Ascii.ascii_dec c d then String.prefix p s else false).
  destruct (Ascii.ascii_dec c d) as [-> | Hne].
  - now rewrite Ascii.eqb_refl.
  - destruct (Ascii.eqb_spec c d); [contradiction | reflexivity].
Qed.

Lemma includes_cons (x c : ascii) (s : string) :
  Js.includes (String c s) (String x EmptyString)
  = Ascii.eqb x c || Js.includes s (String x EmptyString).
Proof.
  cbn [Js.includes]. rewrite prefix_cons, prefix_empty.
  destruct (Ascii.eqb x c); reflexivity.
Qed.

Lemma length_append (a b : string) :
  String.length (a +:+ b) = (String.length a + String.length b)%nat.
Proof.
  induction a as [|c a IH]; [reflexivity |].
  rewrite append_cons. cbn [String.length]. now rewrite IH.
Qed.

Lemma drop_append (a b : string) : Js.drop (String.length a) (a +:+ b) = b.
Proof.
  induction a as [|c a IH]; [destruct b; reflexivity |].
  rewrite append_cons. exact IH.
Qed.

Lemma take_append (a b : string) : Js.take (String.length a) (a +:+ b) = a.
Proof.
  induction a as [|c a IH]; [destruct b; reflexivity |].
  rewrite append_cons. cbn [String.length Js.take]. now rewrite IH.
Qed.

Lemma endsWith_append (a b : string) : Js.endsWith (a +:+ b) b = true.
Proof.
  unfold Js.endsWith. rewrite length_append.
  replace (String.length a + String.length b - String.length b)%nat
    with (String.length a) by lia.
  rewrite drop_append, String.eqb_refl, andb_true_r.
  apply Nat.leb_le. lia.
Qed.

Lemma includes_drop (n : nat) (s : string) (x : ascii) :
  Js.includes (Js.drop n s) (String x EmptyString) = true ->
  Js.includes s (String x EmptyString) = true.
Proof.
  revert s. induction n as [|n IH]; intros s H; [destruct s; exact H |].
  destruct s as [|c s]; [exact H |].
  rewrite includes_cons. apply orb_true_iff. right. apply IH. exact H.
Qed.

(** a pattern that ends in [/*] has a [*] *)
Lemma endsWith_wildcard (s : string) :
  Js.endsWith s "/*" = true -> Js.includes s "*" = true.
Proof.
  unfold Js.endsWith. intros H. apply andb_true_iff in H. destruct H as [_ H].
  apply String.eqb_eq in H.
  apply (includes_drop (String.length s - String.length "/*") s "*").
  rewrite H. reflexivity.
Qed.

(* ================================================================== *)
(** ** Which pathnames a pattern matches *)
(* ================================================================== *)

Lemma tokenize_literal (c : ascii) (s : string) :
  Ascii.eqb c ":" = false -> Dom.tokenize (String c s) = Dom.TLit c :: Dom.tokenize s.
Proof. intros H. cbn [Dom.tokenize]. rewrite H. reflexivity. Qed.

(** without parameters the regular expression is the pattern itself *)
Lemma matchTokens_literal (pattern : string) :
  Js.includes pattern ":" = false ->
  forall pathname,
    Dom.matchTokens (Dom.tokenize pattern) pathname
    = if String.eqb pathname pattern then Some [] else None.
Proof.
  induction pattern as [|c pattern IH]; intros Hno pathname.
  - cbn. destruct pathname; reflexivity.
  - rewrite includes_cons in Hno. apply orb_false_iff in Hno.
    destruct Hno as [Hc Hrest].
    rewrite tokenize_literal by (rewrite Ascii.eqb_sym; exact Hc).
    cbn [Dom.matchTokens]. destruct pathname as [|d pathname]; [reflexivity |].
    rewrite (IH Hrest). cbn [String.eqb].
    destruct (Ascii.eqb d c); reflexivity.
Qed.

Lemma static_match (pathname : string) (r : Types.RouteDefinition) :
  Specificity.isStatic r = true ->
  Pattern.regexFree (Types.path r) = true ->
  Dom.matchesPattern pathname (Types.path r) = true -> pathname = Types.path r.
Proof.
  destruct r as [pattern n m]. unfold Specificity.isStatic. cbn [Types.path].
  intros H _. apply andb_true_iff in H. destruct H as [Hcolon Hstar].
  apply negb_true_iff in Hcolon, Hstar.
  unfold Dom.matchesPattern.
  destruct (String.eqb_spec pathname pattern) as [-> | Hne]; [reflexivity |].
  assert (H1 : String.eqb pattern "*" = false).
  { destruct (String.eqb_spec pattern "*") as [-> | _]; [discriminate Hstar | reflexivity]. }
  assert (H2 : String.eqb pattern "/*" = false).
  { destruct (String.eqb_spec pattern "/*") as [-> | _]; [discriminate Hstar | reflexivity]. }
  assert (H3 : Js.endsWith pattern "/*" = false).
  { destruct (Js.endsWith pattern "/*") eqn:He; [| reflexivity].
    apply endsWith_wildcard in He. congruence. }
  rewrite H1, H2, H3. cbn [orb]. rewrite (matchTokens_literal pattern Hcolon).
  destruct (String.eqb_spec pathname pattern); [contradiction | discriminate].
Qed.

(** X1.  A static pattern - one without [:] and without [*] - that has
    no operator of regular expressions in it matches its own text and no
    other pathname. *)
Theorem X1_static_pattern_matches_itself_only :
  forall (pathname : string) (r : Types.RouteDefinition),
    Specificity.isStatic r = true ->
    Pattern.regexFree (Types.path r) = true ->
    (Dom.matchesPattern pathname (Types.path r) = true <-> pathname = Types.path r).
Proof.
  intros pathname r Hstatic Hfree. split.
  - apply static_match; assumption.
  - intros ->. unfold Dom.matchesPattern. now rewrite String.eqb_refl.
Qed.

(** X1 at the pattern [/about]. *)
Lemma X1_witness :
  Dom.matchesPattern "/about" "/about" = true
  /\ (Dom.matchesPattern "/about/us" "/about" = true <-> "/about/us" = "/about").
Proof.
  split; [reflexivity |].
  apply (X1_static_pattern_matches_itself_only "/about/us" (Examples.route "/about"));
    reflexivity.
Defined.

(** X2.  A pattern [prefix/*] with a non-empty prefix matches the
    prefix itself and what continues it after a slash (and its own text),
    nothing else: [/admin/*] does not match [/administrator]. *)
Theorem X2_prefix_wildcard_matches_at_segment_boundary :
  forall (pathname prefix : string),
    prefix <> EmptyString ->
    (Dom.matchesPattern pathname (prefix +:+ "/*") = true
     <-> pathname = prefix +:+ "/*"
         \/ pathname = prefix
         \/ exists rest, pathname = prefix +:+ "/" +:+ rest).
Proof.
  intros pathname prefix Hne. unfold Dom.matchesPattern.
  destruct (String.eqb_spec pathname (prefix +:+ "/*")) as [-> | Hdiff]; [tauto |].
  assert (H1 : String.eqb (prefix +:+ "/*") "*" = false).
  { destruct (String.eqb_spec (prefix +:+ "/*") "*") as [H | _]; [| reflexivity].
    apply (f_equal String.length) in H. rewrite length_append in H. cbn in H. lia. }
  assert (H2 : String.eqb (prefix +:+ "/*") "/*" = false).
  { destruct (String.eqb_spec (prefix +:+ "/*") "/*") as [H | _]; [| reflexivity].
    apply (f_equal String.length) in H. rewrite length_append in H.
    destruct prefix; [contradiction | cbn in H; lia]. }
  rewrite H1, H2, endsWith_append. cbn [orb].
  unfold Js.sliceDropLast. rewrite length_append.
  replace (String.length prefix + String.length "/*" - 2)%nat
    with (String.length prefix) by (cbn; lia).
  rewrite take_append. rewrite orb_true_iff, startsWith_iff, String.eqb_eq.
  split.
  - intros [[rest H] | H]; [right; right; exists rest | right; left; exact H].
    rewrite H. now rewrite append_assoc.
  - intros [H | [H | [rest H]]]; [contradiction | right; exact H | left; exists rest].
    rewrite H. now rewrite append_assoc.
Qed.

(** X2 at [/admin/*]: [/admin/users] is matched, [/administrator] is not. *)
Lemma X2_witness :
  Dom.matchesPattern "/admin/users" "/admin/*" = true
  /\ Dom.matchesPattern "/administrator" "/admin/*" = false.
Proof.
  assert (Hne : "/admin" <> EmptyString) by discriminate.
  split.
  - apply (X2_prefix_wildcard_matches_at_segment_boundary "/admin/users" "/admin" Hne).
    right. right. exists "users". reflexivity.
  - destruct (Dom.matchesPattern "/administrator" "/admin/*") eqn:H; [| reflexivity].
    apply (X2_prefix_wildcard_matches_at_segment_boundary "/administrator" "/admin" Hne) in H.
    destruct H as [H | [H | [rest H]]]; discriminate H.
Defined.

(* ================================================================== *)
(** ** The parameters of a match *)
(* ================================================================== *)

Lemma matchTokens_param (n : string) (ts : list Dom.Token) (s : string) :
  Dom.matchTokens (Dom.TParam n :: ts) s
  = Pattern.groupLoop n (Dom.matchTokens ts) EmptyString s.
Proof. reflexivity. Qed.

Lemma includes_snoc (a : string) (d x : ascii) :
  Js.includes (a +:+ String d EmptyString) (String x EmptyString)
  = Js.includes a (String x EmptyString) || Ascii.eqb x d.
Proof.
  induction a as [|c a IH].
  - change (EmptyString +:+ String d EmptyString) with (String d EmptyString).
    rewrite includes_cons. cbn. now rewrite !orb_false_r.
  - rewrite append_cons, !includes_cons, IH. now rewrite orb_assoc.
Qed.

Lemma snoc_not_empty (a : string) (d : ascii) : a +:+ String d EmptyString <> EmptyString.
Proof. destruct a; discriminate. Qed.

Lemma groupLoop_groups (n : string) (k : string -> option (list (string * string))) :
  forall s captured groups,
    Js.includes captured "/" = false ->
    Pattern.groupLoop n k captured s = Some groups ->
    exists v rest suffix,
      groups = (n, v) :: rest /\ Query.segmentValue v /\ k suffix = Some rest.
Proof.
  induction s as [|d s IH]; intros captured groups Hcap H; cbn [Pattern.groupLoop] in H;
    [discriminate H |].
  destruct (Ascii.eqb d "/") eqn:Hd; [discriminate H |].
  assert (Hcap' : Js.includes (captured +:+ String d EmptyString) "/" = false).
  { rewrite includes_snoc, Hcap, Ascii.eqb_sym, Hd. reflexivity. }
  destruct (Pattern.groupLoop n k (captured +:+ String d EmptyString) s) as [r|] eqn:Hloop.
  - injection H as <-. exact (IH _ _ Hcap' Hloop).
  - destruct (k s) as [r|] eqn:Hk; [| discriminate H].
    injection H as <-. exists (captured +:+ String d EmptyString), r, s.
    repeat split; [apply snoc_not_empty | exact Hcap' | exact Hk].
Qed.

(** the groups of a match are the parameters of the pattern, in order,
    each with a segment for its value *)
Lemma matchTokens_groups (ts : list Dom.Token) :
  forall s groups,
    Dom.matchTokens ts s = Some groups ->
    map fst groups = Pattern.paramNamesOf ts
    /\ Forall Query.segmentValue (map snd groups).
Proof.
  induction ts as [|[c | n] ts IH]; intros s groups H.
  - cbn in H. destruct (String.eqb s ""); [| discriminate H].
    injection H as <-. split; [reflexivity | constructor].
  - cbn [Dom.matchTokens] in H. destruct s as [|d s]; [discriminate H |].
    destruct (Ascii.eqb d c); [| discriminate H].
    exact (IH _ _ H).
  - rewrite matchTokens_param in H.
    destruct (groupLoop_groups n _ s EmptyString groups eq_refl H)
      as (v & rest & suffix & -> & Hv & Hrest).
    destruct (IH _ _ Hrest) as [Hnames Hvalues].
    cbn [map fst snd Pattern.paramNamesOf]. split; [now rewrite Hnames |].
    constructor; assumption.
Qed.

Lemma objSet_fresh {V} (o : list (string * V)) (k : string) (v : V) :
  ~ In k (map fst o) -> Types.objSet o k v = o ++ [(k, v)].
Proof.
  induction o as [|[k' v'] o IH]; intros Hfresh; [reflexivity |].
  cbn [Types.objSet]. cbn [map fst In] in Hfresh.
  destruct (String.eqb_spec k' k) as [-> | Hne]; [tauto |].
  rewrite IH by tauto. reflexivity.
Qed.

(** assigning groups with different names, one after the other, to an
    object without these names appends them *)
Lemma assign_groups {V} (groups o : list (string * V)) :
  List.NoDup (map fst o ++ map fst groups) ->
  fold_left (fun o kv => Types.objSet o (fst kv) (snd kv)) groups o = o ++ groups.
Proof.
  revert o. induction groups as [|[k v] groups IH]; intros o Hnd.
  - cbn. now rewrite app_nil_r.
  - cbn [fold_left fst snd]. cbn [map fst] in Hnd.
    rewrite objSet_fresh.
    + rewrite IH.
      * now rewrite <- app_assoc.
      * rewrite map_app. cbn [map fst]. rewrite <- app_assoc. exact Hnd.
    + apply NoDup_remove_2 in Hnd. intros Hin. apply Hnd.
      apply in_or_app. left. exact Hin.
Qed.

Lemma regexFree_no_wildcard (pattern : string) :
  Pattern.regexFree pattern = true -> Js.includes pattern "*" = false.
Proof.
  induction pattern as [|c s IH]; intros H; [reflexivity |].
  cbn [Pattern.regexFree] in H. apply andb_true_iff in H. destruct H as [Hc Hs].
  rewrite includes_cons, (IH Hs), orb_false_r.
  destruct (Ascii.eqb_spec "*"%char c) as [<- | _]; [discriminate Hc | reflexivity].
Qed.

Lemma no_wildcard_not_catch_all (pattern : string) :
  Js.includes pattern "*" = false ->
  String.eqb pattern "*" || String.eqb pattern "/*" || Js.endsWith pattern "/*" = false.
Proof.
  intros Hstar.
  destruct (String.eqb_spec pattern "*") as [-> | _]; [discriminate Hstar |].
  destruct (String.eqb_spec pattern "/*") as [-> | _]; [discriminate Hstar |].
  destruct (Js.endsWith pattern "/*") eqn:He; [| reflexivity].
  apply endsWith_wildcard in He. congruence.
Qed.

(** for a well-formed pattern [extractParams] returns the groups of the
    match as they are *)
Lemma extractParams_groups (pathname pattern : string) :
  Pattern.wellFormed pattern ->
  Dom.extractParams pathname pattern
  = match Dom.matchTokens (Dom.tokenize pattern) pathname with
    | Some groups => groups
    | None => []
    end.
Proof.
  intros (Hfree & _ & Hnd). unfold Dom.extractParams.
  rewrite (no_wildcard_not_catch_all pattern (regexFree_no_wildcard pattern Hfree)).
  destruct (Dom.matchTokens (Dom.tokenize pattern) pathname) as [groups|] eqn:Hm;
    [| reflexivity].
  destruct (matchTokens_groups _ _ _ Hm) as [Hnames _].
  rewrite assign_groups; [reflexivity |].
  cbn [map app]. rewrite Hnames. exact Hnd.
Qed.

(** what a group has taken stands in front of what the rest of the
    pattern has matched *)
Lemma groupLoop_split (n : string) (k : string -> option (list (string * string))) :
  forall s captured groups,
    Pattern.groupLoop n k captured s = Some groups ->
    exists taken suffix rest,
      s = taken +:+ suffix
      /\ groups = (n, captured +:+ taken) :: rest
      /\ k suffix = Some rest.
Proof.
  induction s as [|d s IH]; intros captured groups H; cbn [Pattern.groupLoop] in H;
    [discriminate H |].
  destruct (Ascii.eqb d "/"); [discriminate H |].
  destruct (Pattern.groupLoop n k (captured +:+ String d EmptyString) s) as [r|] eqn:Hloop.
  - injection H as <-.
    destruct (IH _ _ Hloop) as (taken & suffix & rest & -> & -> & Hk).
    exists (String d taken), suffix, rest. repeat split; [| exact Hk].
    now rewrite append_assoc.
  - destruct (k s) as [r|] eqn:Hk; [| discriminate H].
    injection H as <-. exists (String d EmptyString), s, r. repeat split. exact Hk.
Qed.

Lemma objGet_In {V} (o : list (string * V)) (k : string) (v : V) :
  List.NoDup (map fst o) -> In (k, v) o -> Types.objGet o k = Some v.
Proof.
  induction o as [|[k' v'] o IH]; intros Hnd Hin; [contradiction |].
  cbn [map fst] in Hnd. apply List.NoDup_cons_iff in Hnd. destruct Hnd as [Hfresh Hnd].
  cbn [Types.objGet]. destruct Hin as [[= -> ->] | Hin].
  - now rewrite String.eqb_refl.
  - destruct (String.eqb_spec k' k) as [-> | _]; [| exact (IH Hnd Hin)].
    exfalso. apply Hfresh. apply (in_map fst) in Hin. exact Hin.
Qed.

(** the groups of a match, put back in the place of the parameters, give
    the text that was matched *)
Lemma matchTokens_fill (ts : list Dom.Token) :
  forall s groups params,
    Dom.matchTokens ts s = Some groups ->
    (forall n v, In (n, v) groups -> Types.objGet params n = Some v) ->
    Pattern.fillTokens ts params = s.
Proof.
  induction ts as [|[c | n] ts IH]; intros s groups params H Hparams.
  - cbn in H. destruct (String.eqb_spec s "") as [-> | _]; [reflexivity | discriminate H].
  - cbn [Dom.matchTokens] in H. destruct s as [|d s]; [discriminate H |].
    destruct (Ascii.eqb_spec d c) as [-> | _]; [| discriminate H].
    cbn [Pattern.fillTokens]. f_equal. exact (IH _ _ _ H Hparams).
  - rewrite matchTokens_param in H.
    destruct (groupLoop_split n _ s EmptyString groups H)
      as (taken & suffix & rest & -> & -> & Hrest).
    change (EmptyString +:+ taken) with taken in Hparams.
    cbn [Pattern.fillTokens]. rewrite (Hparams n taken) by (left; reflexivity).
    f_equal. apply (IH _ _ _ Hrest). intros n0 v0 Hin. apply Hparams. right. exact Hin.
Qed.

(** X3.  For a well-formed pattern every entry that [extractParams]
    returns has a parameter of the pattern for its key and a segment - not
    empty, without a slash - for its value; and when the pattern matches a
    pathname other than itself, the keys are the parameters of the pattern,
    each once and in order, and the values are the pieces of the pathname
    that stand where the parameters stand in the pattern: the pattern with
    the values in the place of its parameters is the pathname. *)
Theorem X3_extracted_params_are_segments :
  forall (pathname pattern : string),
    Pattern.wellFormed pattern ->
    Forall (fun kv => In (fst kv) (Pattern.paramNames pattern)
                      /\ Query.segmentValue (snd kv))
           (Dom.extractParams pathname pattern)
    /\ (pathname <> pattern ->
        Dom.matchesPattern pathname pattern = true ->
        map fst (Dom.extractParams pathname pattern) = Pattern.paramNames pattern
        /\ Pattern.fill pattern (Dom.extractParams pathname pattern) = pathname).
Proof.
  intros pathname pattern Hwf. rewrite (extractParams_groups pathname pattern Hwf).
  destruct Hwf as (Hfree & _ & Hnd).
  pose proof (no_wildcard_not_catch_all pattern (regexFree_no_wildcard pattern Hfree)) as Hnot.
  apply orb_false_iff in Hnot. destruct Hnot as [Hnot Hends].
  unfold Dom.matchesPattern. rewrite Hnot, Hends.
  destruct (Dom.matchTokens (Dom.tokenize pattern) pathname) as [groups|] eqn:Hm.
  - destruct (matchTokens_groups _ _ _ Hm) as [Hnames Hvalues]. split.
    + rewrite List.Forall_forall. intros [k v] Hin. cbn [fst snd]. split.
      * unfold Pattern.paramNames. rewrite <- Hnames.
        apply (in_map fst) in Hin. exact Hin.
      * rewrite List.Forall_forall in Hvalues. apply Hvalues.
        apply (in_map snd) in Hin. exact Hin.
    + intros _ _. split; [exact Hnames |].
      apply (matchTokens_fill _ _ groups groups Hm).
      intros n v Hin. apply objGet_In; [| exact Hin].
      rewrite Hnames. exact Hnd.
  - split; [constructor |]. intros Hne.
    destruct (String.eqb_spec pathname pattern); [contradiction | discriminate].
Qed.

(** X3 at [/users/:id/posts/:postId] and [/users/42/posts/7]. *)
Lemma X3_witness :
  map fst (Dom.extractParams "/users/42/posts/7" "/users/:id/posts/:postId")
  = ["id"; "postId"]
  /\ Pattern.fill "/users/:id/posts/:postId"
                  (Dom.extractParams "/users/42/posts/7" "/users/:id/posts/:postId")
     = "/users/42/posts/7".
Proof.
  assert (Hwf : Pattern.wellFormed "/users/:id/posts/:postId").
  { split; [reflexivity |]. split; [reflexivity |].
    replace (Pattern.paramNames "/users/:id/posts/:postId") with ["id"; "postId"]
      by reflexivity.
    constructor; [cbn; intuition discriminate |].
    constructor; [cbn; tauto | constructor]. }
  apply (proj2 (X3_extracted_params_are_segments
                  "/users/42/posts/7" "/users/:id/posts/:postId" Hwf)).
  - discriminate.
  - reflexivity.
Defined.

Lemma includes_append (a b : string) (x : ascii) :
  Js.includes (a +:+ b) (String x EmptyString)
  = Js.includes a (String x EmptyString) || Js.includes b (String x EmptyString).
Proof.
  induction a as [|c a IH].
  - change (EmptyString +:+ b) with b. reflexivity.
  - rewrite append_cons, !includes_cons, IH. now rewrite orb_assoc.
Qed.

Lemma tokenize_literals (s : string) :
  Js.includes s ":" = false -> Dom.tokenize s = Pattern.literals s.
Proof.
  induction s as [|c s IH]; intros H; [reflexivity |].
  rewrite includes_cons in H. apply orb_false_iff in H. destruct H as [Hc Hs].
  rewrite tokenize_literal by (rewrite Ascii.eqb_sym; exact Hc).
  cbn [Pattern.literals]. now rewrite IH.
Qed.

Lemma tokenize_prefix (prefix rest : string) :
  Js.includes prefix ":" = false ->
  Dom.tokenize (prefix +:+ rest) = Pattern.literals prefix ++ Dom.tokenize rest.
Proof.
  induction prefix as [|c s IH]; intros H; [reflexivity |].
  rewrite includes_cons in H. apply orb_false_iff in H. destruct H as [Hc Hs].
  rewrite append_cons, tokenize_literal by (rewrite Ascii.eqb_sym; exact Hc).
  cbn [Pattern.literals app]. now rewrite IH.
Qed.

Lemma word_no_colon (s : string) :
  Pattern.allChars Js.isWordChar s = true -> Js.includes s ":" = false.
Proof.
  induction s as [|c s IH]; intros H; [reflexivity |].
  cbn [Pattern.allChars] in H. apply andb_true_iff in H. destruct H as [Hc Hs].
  rewrite includes_cons, (IH Hs), orb_false_r.
  destruct (Ascii.eqb_spec ":"%char c) as [<- | _]; [discriminate Hc | reflexivity].
Qed.

Lemma word_regexFree (s : string) :
  Pattern.allChars Js.isWordChar s = true -> Pattern.regexFree s = true.
Proof.
  induction s as [|c s IH]; intros H; [reflexivity |].
  cbn [Pattern.allChars] in H. apply andb_true_iff in H. destruct H as [Hc Hs].
  cbn [Pattern.regexFree]. rewrite (IH Hs), andb_true_r.
  unfold Pattern.isRegexOperator. cbn [existsb].
  repeat match goal with
         | |- context [Ascii.eqb c ?x] =>
             destruct (Ascii.eqb_spec c x) as [-> | _]; [discriminate Hc |]
         end.
  reflexivity.
Qed.

Lemma gatherWord_literals (s : string) :
  Pattern.allChars Js.isWordChar s = true ->
  Dom.gatherWord (Pattern.literals s) = (s, []).
Proof.
  induction s as [|c s IH]; intros H; [reflexivity |].
  cbn [Pattern.allChars] in H. apply andb_true_iff in H. destruct H as [Hc Hs].
  cbn [Pattern.literals Dom.gatherWord]. rewrite Hc, (IH Hs). reflexivity.
Qed.

(** a colon followed by a word is one parameter *)
Lemma tokenize_param (name : string) :
  name <> EmptyString -> Pattern.allChars Js.isWordChar name = true ->
  Dom.tokenize (":" +:+ name) = [Dom.TParam name].
Proof.
  intros Hne Hword. change (":" +:+ name) with (String ":" name).
  cbn [Dom.tokenize]. rewrite Ascii.eqb_refl.
  rewrite (tokenize_literals name (word_no_colon name Hword)).
  rewrite (gatherWord_literals name Hword).
  destruct name; [contradiction | reflexivity].
Qed.

Lemma matchTokens_literals_prefix (prefix : string) (ts : list Dom.Token) (s : string) :
  Dom.matchTokens (Pattern.literals prefix ++ ts) (prefix +:+ s) = Dom.matchTokens ts s.
Proof.
  induction prefix as [|c p IH]; [reflexivity |].
  rewrite append_cons. cbn [Pattern.literals app Dom.matchTokens].
  now rewrite Ascii.eqb_refl.
Qed.

(** a group in front of the end takes a whole segment *)
Lemma groupLoop_last (n : string) :
  forall value captured,
    Query.segmentValue value ->
    Pattern.groupLoop n (Dom.matchTokens []) captured value
    = Some [(n, captured +:+ value)].
Proof.
  induction value as [|d v IH]; intros captured [Hne Hslash]; [contradiction |].
  rewrite includes_cons in Hslash. apply orb_false_iff in Hslash.
  destruct Hslash as [Hd Hv].
  cbn [Pattern.groupLoop]. rewrite Ascii.eqb_sym, Hd.
  destruct v as [|e v].
  - reflexivity.
  - rewrite IH by (split; [discriminate | exact Hv]).
    rewrite append_assoc. reflexivity.
Qed.

(** X4.  A pattern that is a text followed by one parameter, as
    [/users/:id], matches that text followed by any one segment, and
    [extractParams] returns the segment under the name of the parameter. *)
Theorem X4_trailing_parameter :
  forall (prefix name value : string),
    Js.includes prefix ":" = false ->
    Pattern.regexFree prefix = true ->
    Pattern.allChars Js.isWordChar name = true ->
    Pattern.groupName name = true ->
    Query.segmentValue value ->
    Dom.matchesPattern (prefix +:+ value) (prefix +:+ ":" +:+ name) = true
    /\ Dom.extractParams (prefix +:+ value) (prefix +:+ ":" +:+ name) = [(name, value)].
Proof.
  intros prefix name value Hcolon Hfree Hword Hname Hvalue.
  assert (Hne : name <> EmptyString) by (destruct name; [discriminate Hname | discriminate]).
  assert (Hm : Dom.matchTokens (Dom.tokenize (prefix +:+ ":" +:+ name)) (prefix +:+ value)
               = Some [(name, value)]).
  { rewrite (tokenize_prefix prefix _ Hcolon), (tokenize_param name Hne Hword).
    rewrite matchTokens_literals_prefix, matchTokens_param.
    now rewrite (groupLoop_last name value EmptyString Hvalue). }
  assert (Hstar : Js.includes (prefix +:+ ":" +:+ name) "*" = false).
  { rewrite !includes_append, (regexFree_no_wildcard prefix Hfree),
      (regexFree_no_wildcard name (word_regexFree name Hword)). reflexivity. }
  pose proof (no_wildcard_not_catch_all _ Hstar) as Hnot.
  split.
  - unfold Dom.matchesPattern.
    destruct (String.eqb (prefix +:+ value) (prefix +:+ ":" +:+ name)); [reflexivity |].
    apply orb_false_iff in Hnot. destruct Hnot as [-> ->]. now rewrite Hm.
  - unfold Dom.extractParams. rewrite Hnot, Hm. reflexivity.
Qed.

(** X4 at [/users/:id] and [/users/42]. *)
Lemma X4_witness :
  Dom.matchesPattern "/users/42" "/users/:id" = true
  /\ Dom.extractParams "/users/42" "/users/:id" = [("id", "42")].
Proof.
  apply (X4_trailing_parameter "/users/" "id" "42");
    first [reflexivity | split; [discriminate | reflexivity]].
Defined.

(* ================================================================== *)
(** ** What the lookup returns *)
(* ================================================================== *)

(** X5.  The route [findBestMatchingRoute] returns is one of the list
    and matches the pathname; it returns none exactly when no route of the
    list matches. *)
Theorem X5_best_match_is_a_match :
  forall (pathname : string) (routes : list Types.RouteDefinition),
    (forall r, Dom.findBestMatchingRoute pathname routes = Some r ->
               In r routes /\ Specificity.matching pathname r = true)
    /\ (Dom.findBestMatchingRoute pathname routes = None
        <-> forall r, In r routes -> Specificity.matching pathname r = false).
Proof.
  intros pathname routes. unfold Dom.findBestMatchingRoute, Dom.sortedRoutes.
  fold (Specificity.matching pathname). split.
  - intros r H. apply find_some in H. destruct H as [Hin Hm]. split; [| exact Hm].
    eapply Permutation_in; [apply Permutation_sym, sort_perm | exact Hin].
  - rewrite find_none_forall. split; intros H r Hin; apply H.
    + eapply Permutation_in; [apply sort_perm | exact Hin].
    + eapply Permutation_in; [apply Permutation_sym, sort_perm | exact Hin].
Qed.

(** X6.  When the list has a static route whose pattern is the pathname
    itself, and no static route of the list has an operator of regular
    expressions in its pattern, the lookup returns a static route whose
    pattern is the pathname - never a route with a parameter or a wildcard,
    wherever the routes stand in the list. *)
Theorem X6_exact_static_route_wins :
  forall (pathname : string) (routes : list Types.RouteDefinition)
         (r : Types.RouteDefinition),
    In r routes ->
    Specificity.isStatic r = true ->
    Types.path r = pathname ->
    Forall (fun route => Specificity.isStatic route = true ->
                         Pattern.regexFree (Types.path route) = true) routes ->
    exists r',
      Dom.findBestMatchingRoute pathname routes = Some r'
      /\ In r' routes
      /\ Specificity.isStatic r' = true
      /\ Types.path r' = pathname.
Proof.
  intros pathname routes r Hin Hstatic Hpath Hplain.
  assert (Hmatch : Specificity.matching pathname r = true).
  { unfold Specificity.matching, Dom.matchesPattern. rewrite Hpath.
    now rewrite String.eqb_refl. }
  unfold Dom.findBestMatchingRoute, Dom.sortedRoutes.
  fold (Specificity.matching pathname).
  assert (Hs := sort_sorted Dom.compareRoutes compareRoutes_total compareRoutes_trans routes).
  assert (Hin' : In r (Dom.sort Dom.compareRoutes routes))
    by (eapply Permutation_in; [apply sort_perm | exact Hin]).
  destruct (find (Specificity.matching pathname) (Dom.sort Dom.compareRoutes routes))
    as [r'|] eqn:Hfind.
  - destruct (find_sorted_least _ compareRoutes_refl _ _ _ Hs Hfind) as (Hin1 & Hm1 & Hleast).
    assert (Hstatic' : Specificity.isStatic r' = true).
    { specialize (Hleast r Hin' Hmatch). apply notAfter_iff in Hleast.
      destruct (Specificity.isStatic r') eqn:H'; [reflexivity |].
      exfalso. apply Hleast. left. split; assumption. }
    assert (Hin2 : In r' routes)
      by (eapply Permutation_in; [apply Permutation_sym, sort_perm | exact Hin1]).
    exists r'. split; [reflexivity |]. split; [exact Hin2 |].
    split; [exact Hstatic' |].
    rewrite List.Forall_forall in Hplain. symmetry.
    apply (static_match pathname r' Hstatic' (Hplain r' Hin2 Hstatic')). exact Hm1.
  - rewrite find_none_forall in Hfind. specialize (Hfind r Hin'). congruence.
Qed.

(** X6 at the routes [/*], [/:page] and [/about], looked up for [/about]. *)
Lemma X6_witness :
  exists r',
    Dom.findBestMatchingRoute "/about"
      [Examples.route "/*"; Examples.route "/:page"; Examples.route "/about"]
    = Some r'
    /\ Types.path r' = "/about".
Proof.
  destruct (X6_exact_static_route_wins "/about"
              [Examples.route "/*"; Examples.route "/:page"; Examples.route "/about"]
              (Examples.route "/about"))
    as (r' & Hfind & _ & _ & Hpath).
  - right. right. left. reflexivity.
  - reflexivity.
  - reflexivity.
  - repeat (apply List.Forall_cons; [intros H; try discriminate H; reflexivity |]).
    apply List.Forall_nil.
  - exists r'. split; assumption.
Defined.

(** X7.  The comparator handed to [sort] is a consistent one: swapping
    its arguments swaps the sign of the result, a route compares equal to
    itself, and "not after" is transitive. *)
Theorem X7_comparator_is_consistent :
  forall a b c : Types.RouteDefinition,
    ((Dom.compareRoutes a b < 0)%Z <-> (0 < Dom.compareRoutes b a)%Z)
    /\ (Dom.compareRoutes a b = 0%Z <-> Dom.compareRoutes b a = 0%Z)
    /\ Dom.compareRoutes a a = 0%Z
    /\ ((Dom.compareRoutes a b <= 0)%Z -> (Dom.compareRoutes b c <= 0)%Z ->
        (Dom.compareRoutes a c <= 0)%Z).
Proof.
  intros a b c. split; [| split; [| split]].
  - rewrite compareRoutes_neg, compareRoutes_pos. tauto.
  - rewrite !tie_iff. tauto.
  - apply compareRoutes_refl.
  - apply compareRoutes_trans.
Qed.

(* ================================================================== *)
(** ** The query of a location *)
(* ================================================================== *)

Lemma objGet_objSet {V} (o : list (string * V)) (k k' : string) (v : V) :
  Types.objGet (Types.objSet o k v) k'
  = if String.eqb k k' then Some v else Types.objGet o k'.
Proof.
  induction o as [|[k0 v0] o IH]; cbn [Types.objSet Types.objGet].
  - destruct (String.eqb k k'); reflexivity.
  - destruct (String.eqb_spec k0 k) as [-> | Hne]; cbn [Types.objGet].
    + destruct (String.eqb k k'); reflexivity.
    + rewrite IH. destruct (String.eqb_spec k0 k') as [-> | Hne'].
      * destruct (String.eqb_spec k k') as [-> | _]; [contradiction | reflexivity].
      * reflexivity.
Qed.

Lemma objGet_addQueryEntry (q : list (string * Types.QueryValue))
  (key value k : string) :
  Types.objGet (Dom.addQueryEntry q (key, value)) k
  = if String.eqb key k then Some (Query.step (Types.objGet q key) value)
    else Types.objGet q k.
Proof.
  unfold Dom.addQueryEntry, Query.step.
  destruct (Types.objGet q key) as [[s | l]|].
  - destruct s as [|a s]; cbn [String.eqb]; apply objGet_objSet.
  - apply objGet_objSet.
  - apply objGet_objSet.
Qed.

Lemma valuesOf_cons (k key value : string) (entries : list (string * string)) :
  Query.valuesOf k ((key, value) :: entries)
  = if String.eqb key k then value :: Query.valuesOf k entries
    else Query.valuesOf k entries.
Proof.
  unfold Query.valuesOf. cbn [List.filter fst].
  destruct (String.eqb key k); reflexivity.
Qed.

Lemma valuesOf_app (k : string) (a b : list (string * string)) :
  Query.valuesOf k (a ++ b) = Query.valuesOf k a ++ Query.valuesOf k b.
Proof.
  unfold Query.valuesOf. now rewrite List.filter_app, map_app.
Qed.

Lemma query_fold (entries : list (string * string)) :
  forall (q : list (string * Types.QueryValue)) (k : string),
    Types.objGet (fold_left Dom.addQueryEntry entries q) k
    = fold_left (fun stored v => Some (Query.step stored v))
                (Query.valuesOf k entries) (Types.objGet q k).
Proof.
  induction entries as [|[key value] entries IH]; intros q k; [reflexivity |].
  cbn [fold_left]. rewrite IH, objGet_addQueryEntry, valuesOf_cons.
  destruct (String.eqb_spec key k) as [-> | _]; reflexivity.
Qed.

Lemma step_array (vs : list string) :
  forall l, fold_left (fun stored v => Some (Query.step stored v)) vs
                      (Some (Types.QArr l))
            = Some (Types.QArr (l ++ vs)).
Proof.
  induction vs as [|v vs IH]; intros l; cbn [fold_left Query.step].
  - now rewrite app_nil_r.
  - rewrite IH, <- app_assoc. reflexivity.
Qed.

Lemma step_string (a : ascii) (s : string) (vs : list string) :
  fold_left (fun stored v => Some (Query.step stored v)) vs
            (Some (Types.QStr (String a s)))
  = match vs with
    | [] => Some (Types.QStr (String a s))
    | _ :: _ => Some (Types.QArr (String a s :: vs))
    end.
Proof.
  destruct vs as [|v vs]; [reflexivity |].
  cbn [fold_left Query.step]. apply step_array.
Qed.

Lemma step_empty (vs : list string) :
  fold_left (fun stored v => Some (Query.step stored v)) vs
            (Some (Types.QStr EmptyString))
  = match Query.dropEmpty vs with
    | [] => Some (Types.QStr EmptyString)
    | [v] => Some (Types.QStr v)
    | l => Some (Types.QArr l)
    end.
Proof.
  induction vs as [|v vs IH]; [reflexivity |].
  cbn [fold_left Query.step]. destruct v as [|a s].
  - exact IH.
  - rewrite step_string. cbn [Query.dropEmpty]. destruct vs; reflexivity.
Qed.

Lemma step_collapsed (vs : list string) :
  fold_left (fun stored v => Some (Query.step stored v)) vs None = Query.collapsed vs.
Proof.
  destruct vs as [|v vs]; [reflexivity |].
  cbn [fold_left Query.step]. unfold Query.collapsed. destruct v as [|a s].
  - cbn [Query.dropEmpty]. apply step_empty.
  - rewrite step_string. cbn [Query.dropEmpty]. destruct vs; reflexivity.
Qed.

Lemma parseUrl_query (win : option Platform.Window) (url basePath : string) :
  Types.query (Dom.parseUrl win url basePath)
  = fold_left Dom.addQueryEntry (Platform.url_searchParams (Query.urlOf win url)) [].
Proof. reflexivity. Qed.

(** X8.  The query [parseUrl] returns holds under a key what the
    values of that key in the address come to: nothing for a key that is
    absent, the value for a single one, the list of the values for more -
    but empty values in front are lost: [?a=&a=1] gives ["1"], not
    [["", "1"]].  (No key of the address is a name that objects inherit.) *)
Theorem X8_query_values_collapse :
  forall (win : option Platform.Window) (url basePath k : string),
    forallb Query.plainKey
            (map fst (Platform.url_searchParams (Query.urlOf win url))) = true ->
    Types.objGet (Types.query (Dom.parseUrl win url basePath)) k
    = Query.collapsed
        (Query.valuesOf k (Platform.url_searchParams (Query.urlOf win url))).
Proof.
  intros win url basePath k _.
  rewrite parseUrl_query, query_fold. apply step_collapsed.
Qed.

(** X8 at [/s?a=&a=1&b=2&b=&b=3&c=]. *)
Lemma X8_witness :
  let q := Types.query (Dom.parseUrl None "/s?a=&a=1&b=2&b=&b=3&c=" "/") in
  Types.objGet q "a" = Some (Types.QStr "1")
  /\ Types.objGet q "b" = Some (Types.QArr ["2"; ""; "3"])
  /\ Types.objGet q "c" = Some (Types.QStr "")
  /\ Types.objGet q "d" = None.
Proof.
  cbv zeta.
  rewrite !(X8_query_values_collapse None "/s?a=&a=1&b=2&b=&b=3&c=" "/")
    by reflexivity.
  repeat split; reflexivity.
Defined.

Lemma lastOf_snoc (vs : list string) (v : string) :
  Query.lastOf (vs ++ [v]) = Some v.
Proof. unfold Query.lastOf. now rewrite rev_app_distr. Qed.

Lemma fromEntries_snoc (entries : list (string * string)) (key value : string) :
  Machine.fromEntries (entries ++ [(key, value)])
  = Types.objSet (Machine.fromEntries entries) key (Types.QStr value).
Proof. unfold Machine.fromEntries. now rewrite fold_left_app. Qed.

Lemma fromEntries_last (entries : list (string * string)) (k : string) :
  Types.objGet (Machine.fromEntries entries) k
  = option_map Types.QStr (Query.lastOf (Query.valuesOf k entries)).
Proof.
  induction entries as [|[key value] entries IH] using rev_ind; [reflexivity |].
  rewrite fromEntries_snoc, objGet_objSet, valuesOf_app, valuesOf_cons.
  destruct (String.eqb_spec key k) as [-> | _].
  - change (Query.valuesOf k []) with (@nil string). now rewrite lastOf_snoc.
  - change (Query.valuesOf k []) with (@nil string). now rewrite app_nil_r.
Qed.

(** X9.  The target of an event that names a pathname and a search
    string has, under each key, the last value the search string gives
    that key, as a string - where [parseUrl] would have the list of all
    of them. *)
Theorem X9_event_query_keeps_last_value :
  forall (event : Machine.Event) (currentLocation : Types.RouteLocation)
         (basePath : string) (win : option Platform.Window) (p s k : string),
    Machine.ev_pathname event = Some p ->
    Machine.ev_search event = Some s ->
    s <> EmptyString ->
    Types.objGet
      (Types.query (Machine.createNavigationTarget event currentLocation basePath win)) k
    = option_map Types.QStr
        (Query.lastOf (Query.valuesOf k (Platform.URLSearchParams s))).
Proof.
  intros event currentLocation basePath win p s k Hp Hs Hne.
  unfold Machine.createNavigationTarget. rewrite Hp, Hs.
  cbn [Types.query Machine.truthy default from_option id].
  destruct (String.eqb_spec s "") as [-> | _]; [contradiction |].
  cbn [negb]. apply fromEntries_last.
Qed.

(** X9 at the search string [?tag=a&tag=b]. *)
Lemma X9_witness :
  let event := Machine.mkEvent Machine.NAVIGATE (Some "/s") (Some "?tag=a&tag=b")
                               None None None in
  Types.objGet
    (Types.query (Machine.createNavigationTarget event (Examples.at_path "/") "/" None))
    "tag"
  = Some (Types.QStr "b")
  /\ Types.objGet (Types.query (Dom.parseUrl None "/s?tag=a&tag=b" "/")) "tag"
     = Some (Types.QArr ["a"; "b"]).
Proof.
  cbv zeta. split; [| reflexivity].
  rewrite (X9_event_query_keeps_last_value _ _ _ _ "/s" "?tag=a&tag=b" "tag");
    [reflexivity | reflexivity | reflexivity | discriminate].
Defined.

(* ================================================================== *)
(** ** The base path in front of an address *)
(* ================================================================== *)

Lemma startsWith_append (a b : string) : Js.startsWith (a +:+ b) a = true.
Proof. apply startsWith_iff. exists b. reflexivity. Qed.

(** X10.  From an address that begins with the characters of the base
    path, [parseUrl] cuts exactly those characters, whether a segment ends
    there or not; what is left is the pathname, and [/] when nothing is
    left.  With the base path [/app] the address [/app/users] is read as
    [/users], and [/apple] as [le].  (The address is a path that the host
    reads as it is written.) *)
Theorem X10_base_path_is_cut_as_text :
  forall (win : option Platform.Window) (basePath rest : string),
    basePath <> "/" ->
    Address.verbatimPath (basePath +:+ rest) = true ->
    Types.pathname (Dom.parseUrl win (basePath +:+ rest) basePath)
    = Js.orElse rest "/".
Proof.
  intros win basePath rest Hbase Hverbatim.
  unfold Address.verbatimPath in Hverbatim.
  apply andb_true_iff in Hverbatim. destruct Hverbatim as [H _].
  unfold Prefix.plainPath in H.
  apply andb_true_iff in H. destruct H as [H Hhash].
  apply andb_true_iff in H. destruct H as [H Hquery].
  apply andb_true_iff in H. destruct H as [Hslash Hdouble].
  apply negb_true_iff in Hhash, Hquery, Hdouble.
  rewrite parseUrl_path_absolute by assumption.
  unfold Dom.parseUrl. rewrite (URL_path_absolute _ _ Hslash Hdouble).
  unfold Platform.components. rewrite (cutAt_absent "#" _ Hhash).
  rewrite (cutAt_absent "?" _ Hquery).
  cbn [Types.pathname Platform.assemble Platform.url_pathname].
  assert (Hroot : Platform.rootIfEmpty (basePath +:+ rest) = basePath +:+ rest).
  { destruct (basePath +:+ rest); [discriminate Hslash | reflexivity]. }
  rewrite Hroot, startsWith_append.
  destruct (String.eqb_spec basePath "/") as [-> | _]; [contradiction |].
  cbn [negb andb]. unfold Js.sliceFrom. now rewrite drop_append.
Qed.

(** X10 at the base path [/app]. *)
Lemma X10_witness :
  Types.pathname (Dom.parseUrl None "/app/users" "/app") = "/users"
  /\ Types.pathname (Dom.parseUrl None "/apple" "/app") = "le"
  /\ Types.pathname (Dom.parseUrl None "/app" "/app") = "/".
Proof.
  split; [| split].
  - apply (X10_base_path_is_cut_as_text None "/app" "/users");
      [discriminate | reflexivity].
  - apply (X10_base_path_is_cut_as_text None "/app" "le");
      [discriminate | reflexivity].
  - apply (X10_base_path_is_cut_as_text None "/app" "");
      [discriminate | reflexivity].
Defined.

(* ================================================================== *)
(** ** Name and metadata of a location *)
(* ================================================================== *)

Lemma enrich_idem (l : RouteLocation) (rs : option (list RouteDefinition)) :
  enrichLocationWithMeta (enrichLocationWithMeta l rs) rs = enrichLocationWithMeta l rs.
Proof.
  unfold enrichLocationWithMeta. destruct rs as [rs|]; [| reflexivity].
  unfold findRouteByLocation.
  destruct (Dom.findBestMatchingRoute (pathname l) rs) as [r|] eqn:Hr.
  - cbn [pathname]. rewrite Hr. reflexivity.
  - rewrite Hr. reflexivity.
Qed.

Lemma enrich_withRouteParams (l : RouteLocation) (rs : option (list RouteDefinition)) :
  enrichLocationWithMeta (withRouteParams l rs) rs
  = withRouteParams (enrichLocationWithMeta l rs) rs.
Proof.
  unfold enrichLocationWithMeta, withRouteParams. destruct rs as [rs|]; [| reflexivity].
  unfold findRouteByLocation.
  destruct (Dom.findBestMatchingRoute (pathname l) rs) as [r|] eqn:Hr.
  - cbn [pathname setParams]. rewrite Hr. reflexivity.
  - rewrite Hr. reflexivity.
Qed.

(** a target that has its name and metadata keeps them when the
    parameters are added: the location a commit makes current is the very
    one it hands to the history *)
Lemma committed_enriched (l : RouteLocation) (rs : option (list RouteDefinition)) :
  enrichLocationWithMeta (withRouteParams (enrichLocationWithMeta l rs) rs) rs
  = withRouteParams (enrichLocationWithMeta l rs) rs.
Proof. now rewrite enrich_withRouteParams, enrich_idem. Qed.

(** X11.  [enrichLocationWithMeta] changes nothing but the name and the
    metadata of a location, which it takes from the best matching route;
    it leaves the location as it is when there are no routes or none
    matches; doing it twice is doing it once; and it can be done before or
    after the parameters of the route are filled in. *)
Theorem X11_enrich_changes_name_and_meta_only :
  forall (l : RouteLocation) (rs : option (list RouteDefinition)),
    let e := enrichLocationWithMeta l rs in
    pathname e = pathname l /\ search e = search l /\ hash e = hash l
    /\ params e = params l /\ query e = query l
    /\ match rs with
       | Some routes =>
           match Dom.findBestMatchingRoute (pathname l) routes with
           | Some r => meta e = route_meta r /\ name e = route_name r
           | None => e = l
           end
       | None => e = l
       end
    /\ enrichLocationWithMeta e rs = e
    /\ enrichLocationWithMeta (withRouteParams l rs) rs = withRouteParams e rs.
Proof.
  intros l rs e.
  assert (Hfields : pathname e = pathname l /\ search e = search l /\ hash e = hash l
                    /\ params e = params l /\ query e = query l
                    /\ match rs with
                       | Some routes =>
                           match Dom.findBestMatchingRoute (pathname l) routes with
                           | Some r => meta e = route_meta r /\ name e = route_name r
                           | None => e = l
                           end
                       | None => e = l
                       end).
  { unfold e, enrichLocationWithMeta, findRouteByLocation.
    destruct rs as [routes|]; [| repeat split].
    destruct (Dom.findBestMatchingRoute (pathname l) routes); repeat split. }
  destruct Hfields as (H1 & H2 & H3 & H4 & H5 & H6).
  repeat (split; [assumption |]).
  split; [apply enrich_idem | apply enrich_withRouteParams].
Qed.

(* ================================================================== *)
(** ** The attributes of a link *)
(* ================================================================== *)

(** X12.  A link that is marked as current is marked as active too:
    when the current pathname, which is not empty, is the pathname of the
    link's address, [isActive] holds for that address. *)
Theorem X12_current_link_is_active :
  forall (P : Props) (service : Config) (to : string),
    pathname (location (context service)) <> EmptyString ->
    Methods.linkCurrent P service to = true ->
    Methods.linkActive P service to = true.
Proof.
  intros P service to Hne Hcur.
  unfold Methods.linkCurrent in Hcur. apply String.eqb_eq in Hcur.
  unfold Methods.linkActive, Connect.isActive, Connect.resolve, Connect.asPartial.
  cbn [p_pathname Js.optOrElse]. rewrite <- Hcur.
  unfold Js.orElse.
  destruct (String.eqb_spec (pathname (location (context service))) "") as [He | _];
    [contradiction |].
  apply startsWith_iff. exists EmptyString. now rewrite append_empty_r.
Qed.

(** X12 at a machine resting at [/users] and a link to [/users?page=2]. *)
Lemma X12_witness :
  Methods.linkActive Examples.bare_props (Examples.resting_at "/users") "/users?page=2"
  = true.
Proof.
  apply X12_current_link_is_active; [discriminate | reflexivity].
Defined.

(* ================================================================== *)
(** ** What each action adds to the effects *)
(* ================================================================== *)

Lemma performs_nil (c : Config) : Commit.performs [] c = c.
Proof. destruct c. unfold Commit.performs. cbn. now rewrite app_nil_r. Qed.

Lemma invokeNavigationStart_eq P (event : Event) (c : Config) (d : NavigationDetails) :
  pendingNavigation (context c) = Some d ->
  invokeNavigationStart P event c
  = Some (Commit.performs (Commit.when (onNavigationStart P) (CallNavigationStart d)) c).
Proof.
  intros H. unfold invokeNavigationStart, Commit.when. rewrite H.
  destruct (onNavigationStart P); [reflexivity | now rewrite performs_nil].
Qed.

Lemma invokeNavigationEnd_eq P (event : Event) (c : Config) (d : NavigationDetails) :
  pendingNavigation (context c) = Some d ->
  invokeNavigationEnd P event c
  = Some (Commit.performs (Commit.when (onNavigationEnd P) (CallNavigationEnd d)) c).
Proof.
  intros H. unfold invokeNavigationEnd, Commit.when. rewrite H.
  destruct (onNavigationEnd P); [reflexivity | now rewrite performs_nil].
Qed.

Lemma invokeOnNavigate_eq P (event : Event) (c : Config) (d : NavigationDetails) :
  pendingNavigation (context c) = Some d ->
  invokeOnNavigate P event c
  = Some (Commit.performs (Commit.when (onNavigate P) (CallNavigate d)) c).
Proof.
  intros H. unfold invokeOnNavigate, Commit.when. rewrite H.
  destruct (onNavigate P); [reflexivity | now rewrite performs_nil].
Qed.

Lemma scrollToTopEffect_eq P (event : Event) (c : Config) :
  scrollToTopEffect P event c
  = Some (Commit.performs
            (match window c with
             | Some _ => Commit.when (scrollToTop P) (ScrollTo 0 0)
             | None => []
             end) c).
Proof.
  unfold scrollToTopEffect, Commit.when. destruct (window c).
  - destruct (scrollToTop P); [reflexivity | now rewrite performs_nil].
  - now rewrite performs_nil.
Qed.

(** the guard lets the pending navigation through *)
Lemma invokeBeforeNavigate_allows P (event : Event) (c : Config) (d : NavigationDetails) :
  pendingNavigation (context c) = Some d ->
  Commit.allows P d = true ->
  invokeBeforeNavigate P event c
  = Some (send completeEvent (Commit.performs (Commit.asked P d) c)).
Proof.
  intros Hp Ha. unfold invokeBeforeNavigate, Commit.allows, Commit.asked in *.
  rewrite Hp. destruct (onBeforeNavigate P) as [g|]; [| now rewrite performs_nil].
  destruct (g d) as [|[|]|]; try discriminate Ha; reflexivity.
Qed.

(** the guard answers [false] *)
Lemma invokeBeforeNavigate_blocks P (event : Event) (c : Config) (d : NavigationDetails)
  (g : NavigationDetails -> GuardResult) :
  pendingNavigation (context c) = Some d ->
  onBeforeNavigate P = Some g ->
  g d = ReturnsBool false ->
  invokeBeforeNavigate P event c
  = Some (send preventedEvent (perform (CallBeforeNavigate d) c)).
Proof.
  intros Hp Hg Hd. unfold invokeBeforeNavigate. rewrite Hp, Hg, Hd. reflexivity.
Qed.

(** a machine with nothing waiting takes the event it is sent *)
Lemma next_send P (event : Event) (c : Config) :
  queue c = [] -> next P (send event c) = dispatch P event c.
Proof.
  intros Hq. unfold next, send. cbn [queue setQueue]. rewrite Hq. cbn [app].
  f_equal. destruct c. cbn in *. now subst.
Qed.

(* ================================================================== *)
(** ** The commit of a navigation *)
(* ================================================================== *)

(** NAVIGATION_COMPLETE in [navigating], in full: the configuration the
    machine comes to rest in *)
Lemma commit_navigating P (c : Config) (d : NavigationDetails) :
  state c = Navigating ->
  pendingNavigation (context c) = Some d ->
  historyOk (context c) ->
  let arrived := withRouteParams (to d) (routes P) in
  let stack := historyStack (context c) in
  let index := historyIndex (context c) in
  let url := Dom.createUrl (pathname arrived) (search arrived) (hash arrived) (basePath P) in
  dispatch P completeEvent c
  = Some (mkConfig Idle
            (mkContext (enrichLocationWithMeta arrived (routes P))
                       (Some (enrichLocationWithMeta (location (context c)) (routes P)))
                       false None (initialized (context c))
                       (match type d with
                        | push => firstn (index + 1) stack ++ [arrived]
                        | replace => <[index := arrived]> stack
                        | _ => stack
                        end)
                       (match type d with
                        | push => index + 1
                        | _ => index
                        end))
            (window c) (queue c) (timers c)
            (effects c
             ++ match window c with
                | None => []
                | Some _ =>
                    (if hashRouting P
                     then [AssignLocationHash (pathname arrived +:+ search arrived)]
                     else match type d, source d with
                          | back, Some browser | forward, Some browser => []
                          | replace, _ | back, _ | forward, _ => [HistoryReplaceState url]
                          | _, _ => [HistoryPushState url]
                          end)
                    ++ Commit.when (scrollToTop P) (ScrollTo 0 0)
                end
             ++ Commit.when (onNavigationEnd P) (CallNavigationEnd (Commit.committedDetails P d))
             ++ Commit.when (onNavigate P) (CallNavigate (Commit.committedDetails P d)))).
Proof.
  destruct c as [st x w q ts fx]. cbn [state context window queue timers effects].
  intros -> Hp Hok.
  set (arrived := withRouteParams (to d) (routes P)).
  set (stack := historyStack x). set (index := historyIndex x).
  unfold dispatch.
  cbn [on state ev_type completeEvent plainEvent choose find guard target actions
       default from_option id state_eqb negb entry runActions].
  unfold updateLocation at 1. cbn [context setState]. rewrite Hp.
  fold arrived.
  unfold updateHistory at 1.
  cbn [context setContext pendingNavigation setLocation setPendingNavigation
       setPreviousLocation historyStack historyIndex type to setTo setState
       state window queue timers effects].
  fold stack. fold index.
  assert (Hlt : (index <? length stack)%nat = true)
    by (apply Nat.ltb_lt; exact Hok).
  assert (Hlen : (length (firstn (index + 1) stack ++ [arrived]) - 1 = index + 1)%nat).
  { rewrite length_app, List.length_firstn. cbn [length]. unfold historyOk in Hok.
    fold stack in Hok. fold index in Hok. lia. }
  rewrite Hlt, Hlen. clear Hlt Hlen.
  destruct (type d) eqn:Hty;
    cbn [setContext setState setHistoryIndex setHistoryStack setLocation
         setPendingNavigation setPreviousLocation state context window queue timers
         effects location previousLocation navigating pendingNavigation initialized
         historyStack historyIndex];
    unfold updateBrowserHistory;
    cbn [setContext setState setHistoryIndex setHistoryStack setLocation
         setPendingNavigation setPreviousLocation state context window queue timers
         effects location previousLocation navigating pendingNavigation initialized
         historyStack historyIndex to setTo type source];
    rewrite ?Hty;
    (destruct w as [w|];
     [destruct (hashRouting P); [| destruct (source d) as [[| |]|]] |]);
    cbn [perform state context window queue timers effects];
    rewrite scrollToTopEffect_eq;
    rewrite (invokeNavigationEnd_eq P _ _ (setTo arrived d)) by reflexivity;
    rewrite (invokeOnNavigate_eq P _ _ (setTo arrived d)) by reflexivity;
    unfold clearNavigating, updateContext, Commit.performs, Commit.committedDetails;
    cbn [perform setContext setState setHistoryIndex setHistoryStack setLocation
         setPreviousLocation setPendingNavigation setNavigatingFlag state context
         window queue timers effects location previousLocation navigating
         pendingNavigation initialized historyStack historyIndex];
    fold arrived; rewrite <- ?app_assoc; cbn [app]; rewrite ?app_nil_r;
    reflexivity.
Qed.


(** NAVIGATION_COMPLETE in [initializing], in full: no address is
    written and nothing is scrolled *)
Lemma commit_initializing P (c : Config) (d : NavigationDetails) :
  state c = Initializing ->
  pendingNavigation (context c) = Some d ->
  historyOk (context c) ->
  let arrived := withRouteParams (to d) (routes P) in
  let stack := historyStack (context c) in
  let index := historyIndex (context c) in
  dispatch P completeEvent c
  = Some (mkConfig Idle
            (mkContext (enrichLocationWithMeta arrived (routes P))
                       (Some (enrichLocationWithMeta (location (context c)) (routes P)))
                       false None (initialized (context c))
                       (match type d with
                        | push => firstn (index + 1) stack ++ [arrived]
                        | replace => <[index := arrived]> stack
                        | _ => stack
                        end)
                       (match type d with
                        | push => index + 1
                        | _ => index
                        end))
            (window c) (queue c) (timers c)
            (effects c
             ++ Commit.when (onNavigationEnd P) (CallNavigationEnd (Commit.committedDetails P d))
             ++ Commit.when (onNavigate P) (CallNavigate (Commit.committedDetails P d)))).
Proof.
  destruct c as [st x w q ts fx]. cbn [state context window queue timers effects].
  intros -> Hp Hok.
  set (arrived := withRouteParams (to d) (routes P)).
  set (stack := historyStack x). set (index := historyIndex x).
  unfold dispatch.
  cbn [on state ev_type completeEvent plainEvent choose find guard target actions
       default from_option id state_eqb negb entry runActions].
  unfold updateLocation at 1. cbn [context setState]. rewrite Hp.
  fold arrived.
  unfold updateHistory at 1.
  cbn [context setContext pendingNavigation setLocation setPendingNavigation
       setPreviousLocation historyStack historyIndex type to setTo setState
       state window queue timers effects].
  fold stack. fold index.
  assert (Hlt : (index <? length stack)%nat = true)
    by (apply Nat.ltb_lt; exact Hok).
  assert (Hlen : (length (firstn (index + 1) stack ++ [arrived]) - 1 = index + 1)%nat).
  { rewrite length_app, List.length_firstn. cbn [length]. unfold historyOk in Hok.
    fold stack in Hok. fold index in Hok. lia. }
  rewrite Hlt, Hlen. clear Hlt Hlen.
  destruct (type d) eqn:Hty;
    rewrite (invokeNavigationEnd_eq P _ _ (setTo arrived d)) by reflexivity;
    rewrite (invokeOnNavigate_eq P _ _ (setTo arrived d)) by reflexivity;
    unfold clearNavigating, updateContext, Commit.performs, Commit.committedDetails;
    cbn [perform setContext setState setHistoryIndex setHistoryStack setLocation
         setPreviousLocation setPendingNavigation setNavigatingFlag state context
         window queue timers effects location previousLocation navigating
         pendingNavigation initialized historyStack historyIndex];
    fold arrived; rewrite <- ?app_assoc; reflexivity.
Qed.

(* ================================================================== *)
(** ** The start of each kind of navigation *)
(* ================================================================== *)

(** the fields of a configuration written with the setters *)
Ltac fields :=
  cbn [perform send setTimeout Commit.performs updateContext
       setContext setState setQueue setTimers setWindow
       setHistoryIndex setHistoryStack setLocation setPreviousLocation
       setPendingNavigation setNavigatingFlag setInitialized
       state context window queue timers effects
       location previousLocation navigating pendingNavigation initialized
       historyStack historyIndex].

Ltac fields_in H :=
  cbn [perform send setTimeout Commit.performs updateContext
       setContext setState setQueue setTimers setWindow
       setHistoryIndex setHistoryStack setLocation setPreviousLocation
       setPendingNavigation setNavigatingFlag setInitialized
       state context window queue timers effects
       location previousLocation navigating pendingNavigation initialized
       historyStack historyIndex] in H.

(** NAVIGATE, PUSH and REPLACE out of [idle] and [error] *)
Lemma transit_navigate P (event : Event) (c : Config) :
  state c = Idle \/ state c = Error ->
  ev_type event = NAVIGATE \/ ev_type event = PUSH \/ ev_type event = REPLACE ->
  let x := context c in
  let d := createNavigationDetailsWithMeta
             (Some (location x))
             (createNavigationTarget event (location x) (basePath P) (window c))
             (getNavigationType event) programmatic (routes P) in
  transit P event c
  = Some (Some (mkConfig Navigating
                  (mkContext (location x) (previousLocation x) true (Some d)
                             (initialized x) (historyStack x) (historyIndex x))
                  (window c) (queue c) (timers c)
                  (effects c
                   ++ Commit.when (onNavigationStart P) (CallNavigationStart d)))).
Proof.
  destruct c as [st x w q ts fx]. cbn [state context window queue timers effects].
  intros Hs Ht. unfold transit. cbn [state].
  assert (Hon : on P st (ev_type event) = [start_navigation P []]).
  { destruct Hs as [-> | ->]; destruct Ht as [-> | [-> | ->]]; reflexivity. }
  rewrite Hon.
  cbn [choose find start_navigation guard target actions default from_option id app
       runActions].
  unfold setNavigating.
  cbn [setState context window state queue timers effects setContext
       setNavigatingFlag setPendingNavigation location].
  erewrite (invokeNavigationStart_eq P) by reflexivity.
  reflexivity.
Qed.

(** BACK where there is an entry to go back to *)
Lemma transit_back P (c : Config) (l : RouteLocation) :
  state c = Idle \/ state c = Error ->
  canGoBack c = true ->
  historyStack (context c) !! (historyIndex (context c) - 1)%nat = Some l ->
  let x := context c in
  let stay := createNavigationDetailsWithMeta
                (Some (location x)) (location x) back programmatic (routes P) in
  let d := createNavigationDetailsWithMeta
             (Some (location x)) l back programmatic (routes P) in
  transit P (plainEvent BACK) c
  = Some (Some (mkConfig Navigating
                  (mkContext (location x) (previousLocation x) true (Some d)
                             (initialized x) (historyStack x) (historyIndex x - 1))
                  (window c) (queue c) (timers c)
                  (effects c
                   ++ Commit.when (onNavigationStart P) (CallNavigationStart stay)))).
Proof.
  destruct c as [st x w q ts fx]. cbn [state context window queue timers effects].
  intros Hs Hcan Hl. unfold transit. cbn [state].
  assert (Hon : on P st (ev_type (plainEvent BACK))
                = [guarded_navigation P canGoBack [goBack P]]).
  { destruct Hs as [-> | ->]; reflexivity. }
  rewrite Hon.
  cbn [choose find guarded_navigation guard]. rewrite Hcan.
  cbn [guarded_navigation target actions default from_option id app runActions].
  unfold setNavigating.
  cbn [setState context window state queue timers effects setContext
       setNavigatingFlag setPendingNavigation location].
  erewrite (invokeNavigationStart_eq P) by reflexivity.
  unfold goBack. fields.
  unfold canGoBack in Hcan. cbn [context] in Hcan. rewrite Hcan, Hl.
  reflexivity.
Qed.

(** FORWARD where there is an entry to go forward to *)
Lemma transit_forward P (c : Config) (l : RouteLocation) :
  state c = Idle \/ state c = Error ->
  canGoForward c = true ->
  historyStack (context c) !! (historyIndex (context c) + 1)%nat = Some l ->
  let x := context c in
  let stay := createNavigationDetailsWithMeta
                (Some (location x)) (location x) forward programmatic (routes P) in
  let d := createNavigationDetailsWithMeta
             (Some (location x)) l forward programmatic (routes P) in
  transit P (plainEvent FORWARD) c
  = Some (Some (mkConfig Navigating
                  (mkContext (location x) (previousLocation x) true (Some d)
                             (initialized x) (historyStack x) (historyIndex x + 1))
                  (window c) (queue c) (timers c)
                  (effects c
                   ++ Commit.when (onNavigationStart P) (CallNavigationStart stay)))).
Proof.
  destruct c as [st x w q ts fx]. cbn [state context window queue timers effects].
  intros Hs Hcan Hl. unfold transit. cbn [state].
  assert (Hon : on P st (ev_type (plainEvent FORWARD))
                = [guarded_navigation P canGoForward [goForward P]]).
  { destruct Hs as [-> | ->]; reflexivity. }
  rewrite Hon.
  cbn [choose find guarded_navigation guard]. rewrite Hcan.
  cbn [guarded_navigation target actions default from_option id app runActions].
  unfold setNavigating.
  cbn [setState context window state queue timers effects setContext
       setNavigatingFlag setPendingNavigation location].
  erewrite (invokeNavigationStart_eq P) by reflexivity.
  unfold goForward. fields.
  unfold canGoForward in Hcan. cbn [context] in Hcan. rewrite Hcan, Hl.
  reflexivity.
Qed.

(** POP_STATE out of [idle] *)
Lemma transit_popState P (c : Config) :
  state c = Idle ->
  let x := context c in
  let stay := createNavigationDetailsWithMeta
                (Some (location x)) (location x) back programmatic (routes P) in
  let d := createNavigationDetailsWithMeta
             (Some (location x))
             (Dom.parseUrl (window c) (currentUrl c) (basePath P))
             back browser (routes P) in
  transit P (plainEvent POP_STATE) c
  = Some (Some (mkConfig Navigating
                  (mkContext (location x) (previousLocation x) true (Some d)
                             (initialized x) (historyStack x) (historyIndex x))
                  (window c) (queue c) (timers c ++ [TimerSend completeEvent])
                  (effects c
                   ++ Commit.when (onNavigationStart P) (CallNavigationStart stay)))).
Proof.
  destruct c as [st x w q ts fx]. cbn [state context window queue timers effects].
  intros ->. unfold transit.
  cbn [state on ev_type plainEvent choose find start_navigation guard target actions
       default from_option id app runActions].
  unfold setNavigating.
  cbn [setState context window state queue timers effects setContext
       setNavigatingFlag setPendingNavigation location].
  erewrite (invokeNavigationStart_eq P) by reflexivity.
  reflexivity.
Qed.

(** out of rest, a navigation the guard lets through takes two steps *)
Lemma run_allowed P (event : Event) (c cb : Config) (d : NavigationDetails) :
  state c = Idle \/ state c = Error ->
  queue c = [] ->
  transit P event c = Some (Some cb) ->
  pendingNavigation (context cb) = Some d ->
  Commit.allows P d = true ->
  run P 2 (send event c)
  = dispatch P completeEvent (Commit.performs (Commit.asked P d) cb).
Proof.
  intros Hs Hq Htransit Hp Hallows.
  destruct (transit_started P event c cb Hs Htransit) as (_ & _ & Hqb & _).
  cbn [run]. rewrite (next_send P event c Hq).
  rewrite (dispatch_start P event c cb Hs Htransit).
  rewrite (invokeBeforeNavigate_allows P event cb d Hp Hallows).
  rewrite next_send by (cbn [Commit.performs queue]; now rewrite Hqb).
  destruct (dispatch P completeEvent _); reflexivity.
Qed.

(* ================================================================== *)
(** ** A navigation the guard lets through *)
(* ================================================================== *)

Lemma when_assoc {A} (a b c d : list A) : ((a ++ b) ++ c) ++ d = a ++ b ++ c ++ d.
Proof. now rewrite <- !app_assoc. Qed.

(** X13.  NAVIGATE or PUSH sent to a machine at rest, the guard letting
    the navigation through: after two steps the machine is at rest in
    [idle] at the target, with the parameters of its route.  The history
    keeps its entries up to the current one and gets the new location as
    its last entry, so there is no way forward any more.  The observers are
    called in this order: [onNavigationStart], the guard, then - with a
    window - the address is written (by [pushState], or to the hash under
    hash routing) and the page scrolled, then [onNavigationEnd] and
    [onNavigate]. *)
Theorem X13_push_navigation :
  forall (P : Props) (event : Event) (c : Config),
    state c = Idle \/ state c = Error ->
    settled c ->
    historyOk (context c) ->
    ev_type event = NAVIGATE \/ ev_type event = PUSH ->
    let from := location (context c) in
    let d := createNavigationDetailsWithMeta
               (Some from)
               (createNavigationTarget event from (basePath P) (window c))
               push programmatic (routes P) in
    Commit.allows P d = true ->
    let arrived := withRouteParams (to d) (routes P) in
    exists c',
      run P 2 (send event c) = Some c'
      /\ state c' = Idle /\ settled c'
      /\ location (context c') = arrived
      /\ previousLocation (context c') = Some (enrichLocationWithMeta from (routes P))
      /\ navigating (context c') = false
      /\ pendingNavigation (context c') = None
      /\ historyStack (context c')
         = firstn (historyIndex (context c) + 1) (historyStack (context c)) ++ [arrived]
      /\ historyIndex (context c') = (historyIndex (context c) + 1)%nat
      /\ canGoForward c' = false
      /\ effects c'
         = effects c
           ++ Commit.when (onNavigationStart P) (CallNavigationStart d)
           ++ Commit.asked P d
           ++ match window c with
              | None => []
              | Some _ =>
                  (if hashRouting P
                   then AssignLocationHash (pathname arrived +:+ search arrived)
                   else HistoryPushState
                          (Dom.createUrl (pathname arrived) (search arrived)
                                         (hash arrived) (basePath P)))
                  :: Commit.when (scrollToTop P) (ScrollTo 0 0)
              end
           ++ Commit.when (onNavigationEnd P)
                          (CallNavigationEnd (Commit.committedDetails P d))
           ++ Commit.when (onNavigate P) (CallNavigate (Commit.committedDetails P d)).
Proof.
  intros P event c Hs [Hq Ht] Hok Hty from d Hallows arrived.
  assert (Hpush : getNavigationType event = push).
  { unfold getNavigationType. destruct Hty as [-> | ->]; reflexivity. }
  assert (Htransit := transit_navigate P event c Hs
                        (match Hty with
                         | or_introl H => or_introl H
                         | or_intror H => or_intror (or_introl H)
                         end)).
  cbv zeta in Htransit. rewrite Hpush in Htransit. fold from in Htransit. fold d in Htransit.
  assert (Hrun := run_allowed P event c _ d Hs Hq Htransit eq_refl Hallows).
  rewrite commit_navigating with (d := d) in Hrun;
    [| reflexivity | reflexivity | exact Hok].
  cbv zeta in Hrun. change (type d) with push in Hrun.
  change (source d) with (Some programmatic) in Hrun. fields_in Hrun.
  eexists. split; [exact Hrun |]. fields.
  split; [reflexivity |]. split; [split; [exact Hq | exact Ht] |].
  split; [apply committed_enriched |].
  split; [reflexivity |]. split; [reflexivity |]. split; [reflexivity |].
  split; [reflexivity |]. split; [reflexivity |].
  split.
  { unfold canGoForward. fields. apply Nat.ltb_ge.
    rewrite length_app, List.length_firstn. cbn [length]. unfold historyOk in Hok. lia. }
  rewrite when_assoc. repeat f_equal.
  destruct (window c); [| reflexivity]. destruct (hashRouting P); reflexivity.
Qed.

(** X13 at a machine resting at [/], sent to [/about]. *)
Lemma X13_witness :
  exists c',
    run Examples.bare_props 2 (send (Examples.navigate_to "/about") (Examples.resting_at "/"))
    = Some c'
    /\ pathname (location (context c')) = "/about"
    /\ historyStack (context c') = [Examples.at_path "/"; location (context c')]
    /\ historyIndex (context c') = 1%nat.
Proof.
  destruct (X13_push_navigation Examples.bare_props (Examples.navigate_to "/about")
              (Examples.resting_at "/"))
    as (c' & Hrun & _ & _ & Hloc & _ & _ & _ & Hstack & Hidx & _).
  - left. reflexivity.
  - split; reflexivity.
  - unfold historyOk. cbn. lia.
  - left. reflexivity.
  - reflexivity.
  - exists c'. split; [exact Hrun |]. rewrite Hstack, Hidx, Hloc.
    repeat split; reflexivity.
Defined.

(** X14.  REPLACE sent to a machine at rest, the guard letting the
    navigation through: after two steps the machine is at rest in [idle]
    at the target; the history has the new location in the place of the
    current entry, and its length and its index are what they were; with a
    window the address is written by [replaceState] (or to the hash under
    hash routing). *)
Theorem X14_replace_navigation :
  forall (P : Props) (event : Event) (c : Config),
    state c = Idle \/ state c = Error ->
    settled c ->
    historyOk (context c) ->
    ev_type event = REPLACE ->
    let from := location (context c) in
    let d := createNavigationDetailsWithMeta
               (Some from)
               (createNavigationTarget event from (basePath P) (window c))
               replace programmatic (routes P) in
    Commit.allows P d = true ->
    let arrived := withRouteParams (to d) (routes P) in
    exists c',
      run P 2 (send event c) = Some c'
      /\ state c' = Idle /\ settled c'
      /\ location (context c') = arrived
      /\ previousLocation (context c') = Some (enrichLocationWithMeta from (routes P))
      /\ historyStack (context c')
         = <[historyIndex (context c) := arrived]> (historyStack (context c))
      /\ historyStack (context c') !! historyIndex (context c') = Some arrived
      /\ length (historyStack (context c')) = length (historyStack (context c))
      /\ historyIndex (context c') = historyIndex (context c)
      /\ effects c'
         = effects c
           ++ Commit.when (onNavigationStart P) (CallNavigationStart d)
           ++ Commit.asked P d
           ++ match window c with
              | None => []
              | Some _ =>
                  (if hashRouting P
                   then AssignLocationHash (pathname arrived +:+ search arrived)
                   else HistoryReplaceState
                          (Dom.createUrl (pathname arrived) (search arrived)
                                         (hash arrived) (basePath P)))
                  :: Commit.when (scrollToTop P) (ScrollTo 0 0)
              end
           ++ Commit.when (onNavigationEnd P)
                          (CallNavigationEnd (Commit.committedDetails P d))
           ++ Commit.when (onNavigate P) (CallNavigate (Commit.committedDetails P d)).
Proof.
  intros P event c Hs [Hq Ht] Hok Hty from d Hallows arrived.
  assert (Hrep : getNavigationType event = replace).
  { unfold getNavigationType. now rewrite Hty. }
  assert (Htransit := transit_navigate P event c Hs (or_intror (or_intror Hty))).
  cbv zeta in Htransit. rewrite Hrep in Htransit. fold from in Htransit. fold d in Htransit.
  assert (Hrun := run_allowed P event c _ d Hs Hq Htransit eq_refl Hallows).
  rewrite commit_navigating with (d := d) in Hrun;
    [| reflexivity | reflexivity | exact Hok].
  cbv zeta in Hrun. change (type d) with replace in Hrun.
  change (source d) with (Some programmatic) in Hrun. fields_in Hrun.
  eexists. split; [exact Hrun |]. fields.
  split; [reflexivity |]. split; [split; [exact Hq | exact Ht] |].
  split; [apply committed_enriched |].
  split; [reflexivity |]. split; [reflexivity |].
  split; [apply list_lookup_insert_eq; exact Hok |].
  split; [apply length_insert |]. split; [reflexivity |].
  rewrite when_assoc. repeat f_equal.
  destruct (window c); [| reflexivity]. destruct (hashRouting P); reflexivity.
Qed.

(** X14 at a machine resting at [/], its entry replaced by [/login]. *)
Lemma X14_witness :
  exists c',
    run Examples.bare_props 2
        (send (mkEvent REPLACE (Some "/login") None None None None) (Examples.resting_at "/"))
    = Some c'
    /\ pathname (location (context c')) = "/login"
    /\ historyStack (context c') = [location (context c')]
    /\ historyIndex (context c') = 0%nat.
Proof.
  destruct (X14_replace_navigation Examples.bare_props
              (mkEvent REPLACE (Some "/login") None None None None)
              (Examples.resting_at "/"))
    as (c' & Hrun & _ & _ & Hloc & _ & Hstack & _ & _ & Hidx & _).
  - left. reflexivity.
  - split; reflexivity.
  - unfold historyOk. cbn. lia.
  - reflexivity.
  - reflexivity.
  - exists c'. split; [exact Hrun |]. rewrite Hstack, Hidx, Hloc.
    repeat split; reflexivity.
Defined.

(* ================================================================== *)
(** ** Back and forward *)
(* ================================================================== *)

(** X15.  [back()] on a machine at rest that can go back, the guard
    letting the navigation through: after two steps the machine is at rest
    at the entry before the current one; the history keeps its entries and
    the index is one less.  [onNavigationStart] is told a navigation whose
    target is the location the machine is at, the guard and the later
    observers are told the entry gone back to; with a window the address of
    that entry is written by [replaceState]. *)
Theorem X15_back_navigation :
  forall (P : Props) (c : Config) (l : RouteLocation),
    state c = Idle \/ state c = Error ->
    settled c ->
    historyOk (context c) ->
    canGoBack c = true ->
    historyStack (context c) !! (historyIndex (context c) - 1)%nat = Some l ->
    let from := location (context c) in
    let stay := createNavigationDetailsWithMeta
                  (Some from) from back programmatic (routes P) in
    let d := createNavigationDetailsWithMeta
               (Some from) l back programmatic (routes P) in
    Commit.allows P d = true ->
    let arrived := withRouteParams (to d) (routes P) in
    exists c',
      run P 2 (Methods.back c) = Some c'
      /\ state c' = Idle /\ settled c'
      /\ location (context c') = arrived
      /\ pathname (location (context c')) = pathname l
      /\ previousLocation (context c') = Some (enrichLocationWithMeta from (routes P))
      /\ historyStack (context c') = historyStack (context c)
      /\ historyIndex (context c') = (historyIndex (context c) - 1)%nat
      /\ canGoForward c' = true
      /\ effects c'
         = effects c
           ++ Commit.when (onNavigationStart P) (CallNavigationStart stay)
           ++ Commit.asked P d
           ++ match window c with
              | None => []
              | Some _ =>
                  (if hashRouting P
                   then AssignLocationHash (pathname arrived +:+ search arrived)
                   else HistoryReplaceState
                          (Dom.createUrl (pathname arrived) (search arrived)
                                         (hash arrived) (basePath P)))
                  :: Commit.when (scrollToTop P) (ScrollTo 0 0)
              end
           ++ Commit.when (onNavigationEnd P)
                          (CallNavigationEnd (Commit.committedDetails P d))
           ++ Commit.when (onNavigate P) (CallNavigate (Commit.committedDetails P d)).
Proof.
  intros P c l Hs [Hq Ht] Hok Hcan Hl from stay d Hallows arrived.
  assert (Hpos : (0 < historyIndex (context c))%nat)
    by (apply Nat.ltb_lt; exact Hcan).
  assert (Htransit := transit_back P c l Hs Hcan Hl).
  cbv zeta in Htransit. fold from in Htransit. fold d in Htransit. fold stay in Htransit.
  unfold Methods.back.
  assert (Hrun := run_allowed P (plainEvent BACK) c _ d Hs Hq Htransit eq_refl Hallows).
  rewrite commit_navigating with (d := d) in Hrun;
    [| reflexivity | reflexivity | unfold historyOk in *; fields; lia].
  cbv zeta in Hrun. change (type d) with back in Hrun.
  change (source d) with (Some programmatic) in Hrun. fields_in Hrun.
  eexists. split; [exact Hrun |]. fields.
  split; [reflexivity |]. split; [split; [exact Hq | exact Ht] |].
  split; [apply committed_enriched |].
  split; [rewrite pathname_enrich, pathname_withRouteParams; apply pathname_enrich |].
  split; [reflexivity |]. split; [reflexivity |]. split; [reflexivity |].
  split; [unfold canGoForward; fields; apply Nat.ltb_lt; unfold historyOk in Hok; lia |].
  rewrite when_assoc. repeat f_equal.
  destruct (window c); [| reflexivity]. destruct (hashRouting P); reflexivity.
Qed.

(** X15 at a machine that has gone from [/] to [/about]. *)
Lemma X15_witness :
  exists c',
    run Examples.bare_props 2 (Methods.back Visits.at_second) = Some c'
    /\ pathname (location (context c')) = "/"
    /\ historyIndex (context c') = 0%nat
    /\ canGoForward c' = true.
Proof.
  destruct (X15_back_navigation Examples.bare_props Visits.at_second (Examples.at_path "/"))
    as (c' & Hrun & _ & _ & _ & Hpath & _ & _ & Hidx & Hfwd & _).
  - left. reflexivity.
  - split; reflexivity.
  - unfold historyOk. cbn. lia.
  - reflexivity.
  - reflexivity.
  - reflexivity.
  - exists c'. split; [exact Hrun |]. rewrite Hpath, Hidx, Hfwd.
    repeat split; reflexivity.
Defined.

(** X16.  [forward()] on a machine at rest that can go forward, the
    guard letting the navigation through: after two steps the machine is at
    rest at the entry after the current one; the history keeps its entries
    and the index is one more.  [onNavigationStart] is told a navigation
    whose target is the location the machine is at; with a window the
    address of the entry is written by [replaceState]. *)
Theorem X16_forward_navigation :
  forall (P : Props) (c : Config) (l : RouteLocation),
    state c = Idle \/ state c = Error ->
    settled c ->
    canGoForward c = true ->
    historyStack (context c) !! (historyIndex (context c) + 1)%nat = Some l ->
    let from := location (context c) in
    let stay := createNavigationDetailsWithMeta
                  (Some from) from forward programmatic (routes P) in
    let d := createNavigationDetailsWithMeta
               (Some from) l forward programmatic (routes P) in
    Commit.allows P d = true ->
    let arrived := withRouteParams (to d) (routes P) in
    exists c',
      run P 2 (Methods.forward c) = Some c'
      /\ state c' = Idle /\ settled c'
      /\ location (context c') = arrived
      /\ pathname (location (context c')) = pathname l
      /\ previousLocation (context c') = Some (enrichLocationWithMeta from (routes P))
      /\ historyStack (context c') = historyStack (context c)
      /\ historyIndex (context c') = (historyIndex (context c) + 1)%nat
      /\ canGoBack c' = true
      /\ effects c'
         = effects c
           ++ Commit.when (onNavigationStart P) (CallNavigationStart stay)
           ++ Commit.asked P d
           ++ match window c with
              | None => []
              | Some _ =>
                  (if hashRouting P
                   then AssignLocationHash (pathname arrived +:+ search arrived)
                   else HistoryReplaceState
                          (Dom.createUrl (pathname arrived) (search arrived)
                                         (hash arrived) (basePath P)))
                  :: Commit.when (scrollToTop P) (ScrollTo 0 0)
              end
           ++ Commit.when (onNavigationEnd P)
                          (CallNavigationEnd (Commit.committedDetails P d))
           ++ Commit.when (onNavigate P) (CallNavigate (Commit.committedDetails P d)).
Proof.
  intros P c l Hs [Hq Ht] Hcan Hl from stay d Hallows arrived.
  assert (Hroom : (historyIndex (context c) + 1 < length (historyStack (context c)))%nat)
    by (apply lookup_lt_Some in Hl; exact Hl).
  assert (Htransit := transit_forward P c l Hs Hcan Hl).
  cbv zeta in Htransit. fold from in Htransit. fold d in Htransit. fold stay in Htransit.
  unfold Methods.forward.
  assert (Hrun := run_allowed P (plainEvent FORWARD) c _ d Hs Hq Htransit eq_refl Hallows).
  rewrite commit_navigating with (d := d) in Hrun;
    [| reflexivity | reflexivity | unfold historyOk; fields; exact Hroom].
  cbv zeta in Hrun. change (type d) with forward in Hrun.
  change (source d) with (Some programmatic) in Hrun. fields_in Hrun.
  eexists. split; [exact Hrun |]. fields.
  split; [reflexivity |]. split; [split; [exact Hq | exact Ht] |].
  split; [apply committed_enriched |].
  split; [rewrite pathname_enrich, pathname_withRouteParams; apply pathname_enrich |].
  split; [reflexivity |]. split; [reflexivity |]. split; [reflexivity |].
  split; [unfold canGoBack; fields; apply Nat.ltb_lt; lia |].
  rewrite when_assoc. repeat f_equal.
  destruct (window c); [| reflexivity]. destruct (hashRouting P); reflexivity.
Qed.

(** X16 at a machine that has gone from [/] to [/about] and back. *)
Lemma X16_witness :
  exists c',
    run Examples.bare_props 2 (Methods.forward Visits.at_first) = Some c'
    /\ pathname (location (context c')) = "/about"
    /\ historyIndex (context c') = 1%nat.
Proof.
  destruct (X16_forward_navigation Examples.bare_props Visits.at_first
              (Examples.at_path "/about"))
    as (c' & Hrun & _ & _ & _ & Hpath & _ & _ & Hidx & _).
  - left. reflexivity.
  - split; reflexivity.
  - reflexivity.
  - reflexivity.
  - reflexivity.
  - exists c'. split; [exact Hrun |]. rewrite Hpath, Hidx. split; reflexivity.
Defined.

(** X17.  [back()] that the guard answers with [false]: the machine
    ends in [error] at the location it was at, but the index of the history
    has moved back by one all the same, so it no longer points at
    the entry of the current location. *)
Theorem X17_blocked_back_moves_the_index :
  forall (P : Props) (c : Config) (l : RouteLocation)
         (g : NavigationDetails -> GuardResult),
    state c = Idle \/ state c = Error ->
    settled c ->
    canGoBack c = true ->
    historyStack (context c) !! (historyIndex (context c) - 1)%nat = Some l ->
    onBeforeNavigate P = Some g ->
    g (createNavigationDetailsWithMeta
         (Some (location (context c))) l back programmatic (routes P))
    = ReturnsBool false ->
    exists c',
      run P 2 (Methods.back c) = Some c'
      /\ state c' = Error /\ settled c'
      /\ location (context c') = location (context c)
      /\ navigating (context c') = false
      /\ pendingNavigation (context c') = None
      /\ historyStack (context c') = historyStack (context c)
      /\ historyIndex (context c') = (historyIndex (context c) - 1)%nat
      /\ historyIndex (context c') <> historyIndex (context c)
      /\ historyStack (context c') !! historyIndex (context c') = Some l.
Proof.
  intros P c l g Hs [Hq Ht] Hcan Hl Hg Hfalse.
  assert (Hpos : (0 < historyIndex (context c))%nat)
    by (apply Nat.ltb_lt; exact Hcan).
  assert (Htransit := transit_back P c l Hs Hcan Hl). cbv zeta in Htransit.
  unfold Methods.back. cbn [run].
  rewrite (next_send P _ c Hq).
  rewrite (dispatch_start P _ c _ Hs Htransit).
  rewrite invokeBeforeNavigate_blocks with (g := g) (d :=
    createNavigationDetailsWithMeta (Some (location (context c))) l back programmatic
                                    (routes P));
    [| reflexivity | exact Hg | exact Hfalse].
  rewrite next_send by (fields; exact Hq).
  unfold preventedEvent. rewrite dispatch_error by (left; reflexivity).
  eexists. split; [reflexivity |].
  destruct (onNavigationError P); fields;
    (split; [reflexivity |]); (split; [split; [exact Hq | exact Ht] |]);
    repeat (split; [reflexivity |]); (split; [lia | exact Hl]).
Qed.

(** X17 at a machine that has gone from [/] to [/about], with a guard
    that lets nothing through. *)
Lemma X17_witness :
  exists c',
    run Examples.blocking_props 2 (Methods.back Visits.at_second) = Some c'
    /\ state c' = Error
    /\ pathname (location (context c')) = "/about"
    /\ historyIndex (context c') = 0%nat.
Proof.
  destruct (X17_blocked_back_moves_the_index Examples.blocking_props Visits.at_second
              (Examples.at_path "/") (fun _ => ReturnsBool false))
    as (c' & Hrun & Hst & _ & Hloc & _ & _ & _ & Hidx & _).
  - left. reflexivity.
  - split; reflexivity.
  - reflexivity.
  - reflexivity.
  - reflexivity.
  - reflexivity.
  - exists c'. split; [exact Hrun |]. rewrite Hst, Hloc, Hidx.
    repeat split; reflexivity.
Defined.

(* ================================================================== *)
(** ** The browser's own back and forward *)
(* ================================================================== *)

Lemma run_plus P (n m : nat) (c : Config) :
  run P (n + m) c
  = match run P n c with
    | Some c' => run P m c'
    | None => None
    end.
Proof.
  revert c. induction n as [|n IH]; intros c; [reflexivity |].
  cbn [Nat.add run]. destruct (next P c); [apply IH | reflexivity].
Qed.

(** X18.  POP_STATE sent to a machine at rest in [idle], the guard
    letting the navigation through: after four steps the machine is at rest
    at the address the window shows.  The history is not touched: its
    entries and its index are what they were, wherever the browser has
    moved.  Nothing is written to the browser's history (under hash routing
    the hash is assigned), and the second NAVIGATION_COMPLETE, sent by the
    timer, is dropped. *)
Theorem X18_pop_state_leaves_history :
  forall (P : Props) (c : Config),
    state c = Idle ->
    settled c ->
    historyOk (context c) ->
    let from := location (context c) in
    let stay := createNavigationDetailsWithMeta
                  (Some from) from back programmatic (routes P) in
    let d := createNavigationDetailsWithMeta
               (Some from) (Dom.parseUrl (window c) (currentUrl c) (basePath P))
               back browser (routes P) in
    Commit.allows P d = true ->
    let arrived := withRouteParams (to d) (routes P) in
    exists c',
      run P 4 (send (plainEvent POP_STATE) c) = Some c'
      /\ state c' = Idle /\ settled c'
      /\ location (context c') = arrived
      /\ pathname (location (context c'))
         = pathname (Dom.parseUrl (window c) (currentUrl c) (basePath P))
      /\ historyStack (context c') = historyStack (context c)
      /\ historyIndex (context c') = historyIndex (context c)
      /\ effects c'
         = effects c
           ++ Commit.when (onNavigationStart P) (CallNavigationStart stay)
           ++ Commit.asked P d
           ++ match window c with
              | None => []
              | Some _ =>
                  (if hashRouting P
                   then [AssignLocationHash (pathname arrived +:+ search arrived)]
                   else [])
                  ++ Commit.when (scrollToTop P) (ScrollTo 0 0)
              end
           ++ Commit.when (onNavigationEnd P)
                          (CallNavigationEnd (Commit.committedDetails P d))
           ++ Commit.when (onNavigate P) (CallNavigate (Commit.committedDetails P d)).
Proof.
  intros P c Hs [Hq Ht] Hok from stay d Hallows arrived.
  assert (Htransit := transit_popState P c Hs).
  cbv zeta in Htransit. fold from in Htransit. fold d in Htransit. fold stay in Htransit.
  assert (Hrun := run_allowed P (plainEvent POP_STATE) c _ d (or_introl Hs) Hq Htransit
                    eq_refl Hallows).
  rewrite commit_navigating with (d := d) in Hrun;
    [| reflexivity | reflexivity | exact Hok].
  cbv zeta in Hrun. change (type d) with back in Hrun.
  change (source d) with (Some browser) in Hrun. fields_in Hrun.
  rewrite Hq, Ht in Hrun. cbn [app] in Hrun.
  match type of Hrun with _ = Some ?r => set (c2 := r) in Hrun end.
  assert (Hall : Forall (eq (TimerSend completeEvent)) [TimerSend completeEvent])
    by (repeat constructor).
  destruct (run_flush P [TimerSend completeEvent] Hall c2
              (or_introl eq_refl) eq_refl eq_refl)
    as (cf & Hflush & Hset & Hst & Hctx & Hfx & _).
  exists cf. split.
  { change 4%nat with (2 + 2)%nat. rewrite run_plus, Hrun. exact Hflush. }
  rewrite Hst, Hctx, Hfx. unfold c2. fields.
  split; [reflexivity |]. split; [exact Hset |].
  split; [apply committed_enriched |].
  split; [rewrite pathname_enrich, pathname_withRouteParams; apply pathname_enrich |].
  split; [reflexivity |]. split; [reflexivity |].
  rewrite when_assoc. reflexivity.
Qed.

(** X18 at a machine at rest at [/] in a browser that shows [/about]. *)
Lemma X18_witness :
  exists c',
    run Examples.bare_props 4 (send (plainEvent POP_STATE) Visits.behind_browser) = Some c'
    /\ pathname (location (context c')) = "/about"
    /\ historyStack (context c') = [Examples.at_path "/"]
    /\ historyIndex (context c') = 0%nat
    /\ effects c' = [ScrollTo 0 0].
Proof.
  destruct (X18_pop_state_leaves_history Examples.bare_props Visits.behind_browser)
    as (c' & Hrun & _ & _ & _ & Hpath & Hstack & Hidx & Hfx).
  - reflexivity.
  - split; reflexivity.
  - unfold historyOk. cbn. lia.
  - reflexivity.
  - exists c'. split; [exact Hrun |]. rewrite Hpath, Hstack, Hidx, Hfx.
    repeat split; reflexivity.
Defined.

(* ================================================================== *)
(** ** The first load *)
(* ================================================================== *)

Lemma initialGuardCallback_allows P (c : Config) (d : NavigationDetails) :
  pendingNavigation (context c) = Some d ->
  Commit.allows P d = true ->
  initialGuardCallback P c
  = Some (send completeEvent (Commit.performs (Commit.asked P d) c)).
Proof.
  intros Hp Ha. unfold initialGuardCallback, Commit.allows, Commit.asked in *.
  rewrite Hp. destruct (onBeforeNavigate P) as [g|]; [| now rewrite performs_nil].
  destruct (g d) as [|[|]|]; try discriminate Ha; reflexivity.
Qed.

Lemma withRouteParams_idem (l : RouteLocation) (rs : option (list RouteDefinition)) :
  withRouteParams (withRouteParams l rs) rs = withRouteParams l rs.
Proof.
  unfold withRouteParams. destruct rs as [rs|]; [| reflexivity].
  unfold findRouteByLocation.
  destruct (Dom.findBestMatchingRoute (pathname l) rs) as [r|] eqn:Hr.
  - cbn [pathname setParams]. rewrite Hr. reflexivity.
  - rewrite Hr. reflexivity.
Qed.

(** X19.  The first load, the guard letting it through: two steps
    after its construction the machine is at rest in [idle] at the address
    of the window - at [/] without a window - whatever [initialLocation]
    says; the location [initialLocation] gives is the one entry of the
    history and the previous location.  The guard, [onNavigationEnd] and
    [onNavigate] are called, in this order; [onNavigationStart] is not, no
    address is written and nothing is scrolled. *)
Theorem X19_first_load :
  forall (P : Props) (win : option Window) (c0 : Config),
    start P win = Some c0 ->
    let first := getInitialLocation (initialLocation P) (basePath P) win in
    let address := match win with
                   | Some w => location_href w
                   | None => "/"
                   end in
    let read := Dom.parseUrl win address (basePath P) in
    let d := createNavigationDetailsWithMeta
               None (withRouteParams read (routes P)) initial browser (routes P) in
    Commit.allows P d = true ->
    exists c',
      run P 2 c0 = Some c'
      /\ state c' = Idle /\ settled c'
      /\ location (context c')
         = enrichLocationWithMeta (withRouteParams read (routes P)) (routes P)
      /\ pathname (location (context c')) = pathname read
      /\ previousLocation (context c') = Some (enrichLocationWithMeta first (routes P))
      /\ historyStack (context c') = [first]
      /\ historyIndex (context c') = 0%nat
      /\ initialized (context c') = true
      /\ effects c'
         = Commit.asked P d
           ++ Commit.when (onNavigationEnd P)
                          (CallNavigationEnd (Commit.committedDetails P d))
           ++ Commit.when (onNavigate P) (CallNavigate (Commit.committedDetails P d)).
Proof.
  intros P win c0 Hstart first address read d Hallows.
  rewrite start_unfold in Hstart. injection Hstart as <-.
  cbn [run]. unfold next at 1. fields. cbn [app fire].
  rewrite initialGuardCallback_allows with (d := d);
    [| reflexivity | exact Hallows].
  rewrite next_send by reflexivity.
  rewrite commit_initializing with (d := d);
    [| reflexivity | reflexivity | unfold historyOk; cbn; lia].
  cbv zeta. change (type d) with initial. fields.
  eexists. split; [reflexivity |]. fields.
  split; [reflexivity |]. split; [split; reflexivity |].
  split.
  { change (to d) with (enrichLocationWithMeta (withRouteParams read (routes P)) (routes P)).
    now rewrite <- enrich_withRouteParams, withRouteParams_idem, enrich_idem. }
  split.
  { rewrite pathname_enrich, pathname_withRouteParams.
    change (to d) with (enrichLocationWithMeta (withRouteParams read (routes P)) (routes P)).
    now rewrite pathname_enrich, pathname_withRouteParams. }
  repeat (split; [reflexivity |]). reflexivity.
Qed.

(** X19 at a machine without a window that is told to start from
    [/dashboard]: it comes to rest at [/]. *)
Lemma X19_witness :
  exists c0 c',
    start (Visits.starting_at "/dashboard") None = Some c0
    /\ run (Visits.starting_at "/dashboard") 2 c0 = Some c'
    /\ pathname (location (context c')) = "/"
    /\ map pathname (historyStack (context c')) = ["/dashboard"].
Proof.
  destruct (start (Visits.starting_at "/dashboard") None) as [c0|] eqn:Hstart;
    [| discriminate Hstart].
  destruct (X19_first_load (Visits.starting_at "/dashboard") None c0 Hstart)
    as (c' & Hrun & _ & _ & _ & Hpath & _ & Hstack & _).
  - reflexivity.
  - exists c0, c'. split; [reflexivity |]. split; [exact Hrun |].
    rewrite Hpath, Hstack. split; reflexivity.
Defined.

(* ================================================================== *)
(** ** Events that are dropped *)
(* ================================================================== *)

(** X20.  Events no transition takes are dropped without a trace.
    Before the first load is complete every request to navigate is; during
    a navigation every request but NAVIGATE - so REPLACE, PUSH, BACK,
    FORWARD, POP_STATE and HASH_CHANGE are; at rest BACK at the first entry
    and FORWARD at the last, and HASH_CHANGE without hash routing; in
    [error] POP_STATE and HASH_CHANGE. *)
Theorem X20_dropped_events :
  forall (P : Props) (event : Event) (c : Config),
    (state c = Initializing ->
     ev_type event <> NAVIGATION_COMPLETE -> ev_type event <> NAVIGATION_ERROR ->
     dispatch P event c = Some c)
    /\ (state c = Navigating ->
        ev_type event <> NAVIGATION_COMPLETE -> ev_type event <> NAVIGATION_ERROR ->
        ev_type event <> NAVIGATE ->
        dispatch P event c = Some c)
    /\ (state c = Idle \/ state c = Error ->
        (ev_type event = BACK /\ canGoBack c = false)
        \/ (ev_type event = FORWARD /\ canGoForward c = false)
        \/ ev_type event = NAVIGATION_COMPLETE \/ ev_type event = NAVIGATION_ERROR
        \/ ev_type event = INITIALIZE ->
        dispatch P event c = Some c)
    /\ (state c = Idle -> ev_type event = HASH_CHANGE -> hashRouting P = false ->
        dispatch P event c = Some c)
    /\ (state c = Error -> ev_type event = POP_STATE \/ ev_type event = HASH_CHANGE ->
        dispatch P event c = Some c).
Proof.
  intros P event c. unfold dispatch. repeat split.
  - intros -> H1 H2. destruct (ev_type event); try reflexivity; contradiction.
  - intros -> H1 H2 H3. destruct (ev_type event); try reflexivity; contradiction.
  - intros Hs [[-> Hcan] | [[-> Hcan] | [-> | [-> | ->]]]];
      destruct Hs as [-> | ->];
      cbn [on choose find guarded_navigation guard];
      rewrite ?Hcan; reflexivity.
  - intros -> -> Hhash.
    cbn [on choose find guarded_navigation guard]. unfold isHashRouting.
    rewrite Hhash. reflexivity.
  - intros -> [-> | ->]; reflexivity.
Qed.

(* ================================================================== *)
(** ** A navigation that overtakes another *)
(* ================================================================== *)

Lemma filter_when_start (given : bool) (d : NavigationDetails) :
  List.filter isGuardCall (Commit.when given (CallNavigationStart d)) = [].
Proof. destruct given; reflexivity. Qed.

(** X21.  NAVIGATE handled while a navigation is under way puts its
    own target in the place of the pending one without the guard being
    asked and without anything being sent: [onNavigationStart] is called,
    and that is all.  The NAVIGATION_COMPLETE that was sent for the
    navigation before then commits this target, which the guard has never
    seen. *)
Theorem X21_navigate_overtakes_unguarded :
  forall (P : Props) (event : Event) (c : Config),
    state c = Navigating ->
    ev_type event = NAVIGATE ->
    historyOk (context c) ->
    let from := location (context c) in
    let d := createNavigationDetailsWithMeta
               (Some from)
               (createNavigationTarget event from (basePath P) (window c))
               push programmatic (routes P) in
    exists c1 c2,
      dispatch P event c = Some c1
      /\ state c1 = Navigating
      /\ pendingNavigation (context c1) = Some d
      /\ queue c1 = queue c /\ timers c1 = timers c
      /\ effects c1
         = effects c ++ Commit.when (onNavigationStart P) (CallNavigationStart d)
      /\ guardCalls c1 = guardCalls c
      /\ dispatch P completeEvent c1 = Some c2
      /\ state c2 = Idle
      /\ location (context c2) = withRouteParams (to d) (routes P)
      /\ guardCalls c2 = guardCalls c.
Proof.
  intros P event c Hs Hty Hok from d.
  assert (H1 : dispatch P event c
               = Some (mkConfig Navigating
                         (mkContext from (previousLocation (context c)) true (Some d)
                                    (initialized (context c)) (historyStack (context c))
                                    (historyIndex (context c)))
                         (window c) (queue c) (timers c)
                         (effects c
                          ++ Commit.when (onNavigationStart P) (CallNavigationStart d)))).
  { destruct c as [st x w q ts fx]. cbn [state] in Hs. subst st.
    unfold dispatch. cbn [state]. rewrite Hty.
    cbn [on choose find guard target actions default from_option id state_eqb negb
         runActions].
    unfold setNavigating. fields.
    erewrite (invokeNavigationStart_eq P) by reflexivity.
    unfold getNavigationType. rewrite Hty. reflexivity. }
  match type of H1 with _ = Some ?r => set (c1 := r) in H1 end.
  destruct (dispatch_complete P c1 d (or_introl eq_refl) eq_refl Hok)
    as (c2 & H2 & Hst2 & Hloc2 & _ & _ & _ & _ & _ & _ & (es & Hes & Hquiet)).
  exists c1, c2. split; [exact H1 |].
  assert (Hcalls : guardCalls c1 = guardCalls c).
  { unfold guardCalls, c1. fields.
    now rewrite List.filter_app, filter_when_start, app_nil_r. }
  repeat (split; [reflexivity |]).
  split; [exact Hcalls |]. split; [exact H2 |]. split; [exact Hst2 |].
  split; [rewrite Hloc2; apply committed_enriched |].
  rewrite <- Hcalls. exact (guardCalls_quiet _ _ es Hes Hquiet).
Qed.

(** X21 at the machine whose guard lets nothing through, handling a
    NAVIGATE to [/admin] while another navigation is under way: [/admin]
    is committed. *)
Lemma X21_witness :
  let busy := mkConfig Navigating
                (mkContext (Examples.at_path "/") None true
                           (Some (mkDetails (Some (Examples.at_path "/"))
                                            (Examples.at_path "/about") push
                                            (Some programmatic)))
                           true [Examples.at_path "/"] 0)
                None [completeEvent] [] [] in
  exists c1 c2,
    dispatch Examples.blocking_props (Examples.navigate_to "/admin") busy = Some c1
    /\ dispatch Examples.blocking_props completeEvent c1 = Some c2
    /\ pathname (location (context c2)) = "/admin"
    /\ guardCalls c2 = 0%nat.
Proof.
  intros busy.
  destruct (X21_navigate_overtakes_unguarded Examples.blocking_props
              (Examples.navigate_to "/admin") busy)
    as (c1 & c2 & H1 & _ & _ & _ & _ & _ & _ & H2 & _ & Hloc & Hcalls).
  - reflexivity.
  - reflexivity.
  - unfold historyOk. cbn. lia.
  - exists c1, c2. split; [exact H1 |]. split; [exact H2 |].
    rewrite Hloc, Hcalls. split; reflexivity.
Defined.

(* ================================================================== *)
(** ** From the methods to the machine *)
(* ================================================================== *)

(** X24.  [navigate(to)] for an address sends NAVIGATE, or REPLACE with
    the option [replace], and the target the machine makes of that event
    has the pathname, the search string and the fragment that [parseUrl]
    reads from the address, and no parameters; its query is made anew from
    the search string, with the last value of each key. *)
Theorem X24_navigate_targets_the_parsed_address :
  forall (P : Props) (service : Config) (to : string) (replaceOption : bool)
         (currentLocation : RouteLocation),
    let event := Methods.navigateEvent P service (Connect.ToString to) replaceOption in
    let read := Dom.parseUrl (window service) to (basePath P) in
    let target := createNavigationTarget event currentLocation (basePath P)
                                         (window service) in
    Methods.navigate P service (Connect.ToString to) replaceOption = send event service
    /\ ev_type event = (if replaceOption then REPLACE else NAVIGATE)
    /\ pathname target = Js.orElse (pathname read) "/"
    /\ search target = search read
    /\ hash target = hash read
    /\ params target = []
    /\ query target
       = (if String.eqb (search read) "" then []
          else fromEntries (URLSearchParams (search read))).
Proof.
  intros P service to replaceOption currentLocation event read target.
  assert (Hor : forall s, Js.orElse (Js.orElse s "") "" = s).
  { intros s. unfold Js.orElse. destruct (String.eqb_spec s "") as [-> | Hne];
      [reflexivity |]. destruct (String.eqb_spec s ""); [contradiction | reflexivity]. }
  assert (Hroot : forall s, Js.orElse (Js.orElse s "/") "/" = Js.orElse s "/").
  { intros s. unfold Js.orElse. destruct (String.eqb_spec s "") as [-> | Hne];
      [reflexivity |]. destruct (String.eqb_spec s ""); [contradiction | reflexivity]. }
  split; [reflexivity |]. split; [reflexivity |].
  unfold target, createNavigationTarget, event, Methods.navigateEvent, Connect.resolve,
    Connect.asPartial.
  cbn [ev_pathname ev_search ev_hash p_pathname p_search p_hash Js.optOrElse
       pathname search hash params query truthy default from_option id].
  fold read.
  split; [apply Hroot |].
  split; [apply Hor |]. split; [apply Hor |]. split; [reflexivity |].
  unfold Js.orElse at 1 2.
  destruct (String.eqb_spec (search read) "") as [He | Hne].
  - reflexivity.
  - cbn [negb]. unfold Js.orElse.
    destruct (String.eqb_spec (search read) ""); [contradiction | reflexivity].
Qed.

(* ================================================================== *)
(** ** The computed values *)
(* ================================================================== *)

(** X25.  When the current location has been given name and metadata
    by [enrichLocationWithMeta] and a route matches it, the computed
    [currentRouteName] and [currentRouteMeta] are the name and the metadata
    of the location. *)
Theorem X25_computed_route_is_the_locations :
  forall (P : Props) (service : Config) (l : RouteLocation)
         (rs : list RouteDefinition),
    routes P = Some rs ->
    location (context service) = enrichLocationWithMeta l (routes P) ->
    Dom.findBestMatchingRoute (pathname l) rs <> None ->
    Methods.currentRouteName P service = name (location (context service))
    /\ Methods.currentRouteMeta P service = meta (location (context service)).
Proof.
  intros P service l rs Hrs Hloc Hmatch.
  unfold Methods.currentRouteName, Methods.currentRouteMeta, Methods.currentRoute.
  rewrite Hloc, Hrs. unfold findRouteByLocation. rewrite pathname_enrich.
  unfold enrichLocationWithMeta, findRouteByLocation.
  destruct (Dom.findBestMatchingRoute (pathname l) rs) as [r|]; [| contradiction].
  split; reflexivity.
Qed.

(** X25 at the route [/users/:id], named [user], and the location
    [/users/42]. *)
Lemma X25_witness :
  let P := Examples.props_with "/" (Some [mkRoute "/users/:id" (Some "user") None]) None in
  let service :=
    mkConfig Idle
      (mkContext (enrichLocationWithMeta (Examples.at_path "/users/42") (routes P))
                 None false None true [Examples.at_path "/users/42"] 0)
      None [] [] [] in
  Methods.currentRouteName P service = Some "user"
  /\ name (location (context service)) = Some "user".
Proof.
  intros P service.
  destruct (X25_computed_route_is_the_locations P service (Examples.at_path "/users/42")
              [mkRoute "/users/:id" (Some "user") None])
    as [Hname _].
  - reflexivity.
  - reflexivity.
  - discriminate.
  - rewrite Hname. split; reflexivity.
Defined.

(* ================================================================== *)
(** ** The flag [navigating] *)
(* ================================================================== *)

Ltac steady_by_cases H :=
  repeat match type of H with
         | context [match ?x with _ => _ end] => destruct x eqn:?
         | context [if ?x then _ else _] => destruct x eqn:?
         end;
  try discriminate H; injection H as <-; repeat split; cbn;
  try discriminate; try congruence; auto.

Lemma updateLocation_steady P : Commit.steady (updateLocation P).
Proof. intros event c c' H. unfold updateLocation in H. steady_by_cases H. Qed.

Lemma updateHistory_steady : Commit.steady updateHistory.
Proof. intros event c c' H. unfold updateHistory in H. steady_by_cases H. Qed.

Lemma goBack_steady P : Commit.steady (goBack P).
Proof. intros event c c' H. unfold goBack in H. steady_by_cases H. Qed.

Lemma goForward_steady P : Commit.steady (goForward P).
Proof. intros event c c' H. unfold goForward in H. steady_by_cases H. Qed.

Lemma handlePopState_steady P : Commit.steady (handlePopState P).
Proof. intros event c c' H. unfold handlePopState in H. steady_by_cases H. Qed.

Lemma handleHashChange_steady P : Commit.steady (handleHashChange P).
Proof. intros event c c' H. unfold handleHashChange in H. steady_by_cases H. Qed.

Lemma invokeNavigationStart_steady P : Commit.steady (invokeNavigationStart P).
Proof. intros event c c' H. unfold invokeNavigationStart in H. steady_by_cases H. Qed.

Lemma invokeNavigationEnd_steady P : Commit.steady (invokeNavigationEnd P).
Proof. intros event c c' H. unfold invokeNavigationEnd in H. steady_by_cases H. Qed.

Lemma invokeOnNavigate_steady P : Commit.steady (invokeOnNavigate P).
Proof. intros event c c' H. unfold invokeOnNavigate in H. steady_by_cases H. Qed.

Lemma invokeBeforeNavigate_steady P : Commit.steady (invokeBeforeNavigate P).
Proof. intros event c c' H. unfold invokeBeforeNavigate in H. steady_by_cases H. Qed.

Lemma updateBrowserHistory_steady P : Commit.steady (updateBrowserHistory P).
Proof. intros event c c' H. unfold updateBrowserHistory in H. steady_by_cases H. Qed.

Lemma scrollToTopEffect_steady P : Commit.steady (scrollToTopEffect P).
Proof. intros event c c' H. unfold scrollToTopEffect in H. steady_by_cases H. Qed.

Create HintDb steady discriminated.
#[export] Hint Constants Opaque : steady.
#[export] Hint Resolve updateLocation_steady updateHistory_steady goBack_steady
  goForward_steady handlePopState_steady handleHashChange_steady
  invokeNavigationStart_steady invokeNavigationEnd_steady invokeOnNavigate_steady
  invokeBeforeNavigate_steady updateBrowserHistory_steady scrollToTopEffect_steady
  : steady.

Ltac each_steady :=
  repeat (apply List.Forall_cons; [solve [auto with steady] |]);
  apply List.Forall_nil.

Lemma runActions_steady (acts : list Action) :
  Forall Commit.steady acts ->
  forall event c c', runActions acts event c = Some c' ->
    state c' = state c
    /\ navigating (context c') = navigating (context c)
    /\ (pendingNavigation (context c) <> None -> pendingNavigation (context c') <> None).
Proof.
  induction 1 as [|a acts Ha _ IH]; intros event c c' H; cbn [runActions] in H.
  - injection H as <-. repeat split. auto.
  - destruct (a event c) as [c1|] eqn:H1; [| discriminate H].
    destruct (Ha _ _ _ H1) as (Hs1 & Hn1 & Hp1).
    destruct (IH _ _ _ H) as (Hs & Hn & Hp).
    repeat split; [congruence | congruence | auto].
Qed.

(** a transition that starts a navigation leaves the machine busy *)
Lemma runActions_busy P (rest : list Action) (event : Event) (c c' : Config) :
  Forall Commit.steady rest ->
  runActions (setNavigating P :: rest) event c = Some c' ->
  state c' = state c
  /\ navigating (context c') = true
  /\ pendingNavigation (context c') <> None.
Proof.
  intros Hrest H. cbn [runActions] in H. unfold setNavigating in H.
  destruct (runActions_steady rest Hrest _ _ _ H) as (Hs & Hn & Hp).
  repeat split; [exact Hs | exact Hn | apply Hp; discriminate].
Qed.

(** a transition that ends with [clearNavigating] leaves it at rest *)
Lemma runActions_rest (acts : list Action) (event : Event) (c c' : Config) :
  Forall Commit.steady acts ->
  runActions (acts ++ [clearNavigating]) event c = Some c' ->
  state c' = state c
  /\ navigating (context c') = false
  /\ pendingNavigation (context c') = None.
Proof.
  intros Hacts H. rewrite runActions_app in H.
  destruct (runActions acts event c) as [c1|] eqn:H1; [| discriminate H].
  destruct (runActions_steady acts Hacts _ _ _ H1) as (Hs & _ & _).
  cbn [runActions] in H. unfold clearNavigating in H. injection H as <-.
  repeat split. exact Hs.
Qed.

Lemma runActions_failed P (event : Event) (c c' : Config) :
  runActions [clearNavigating; invokeNavigationError P] event c = Some c' ->
  state c' = state c
  /\ navigating (context c') = false
  /\ pendingNavigation (context c') = None.
Proof.
  intros H. cbn [runActions] in H. unfold clearNavigating, invokeNavigationError in H.
  destruct (ev_error event); [destruct (onNavigationError P) |];
    injection H as <-; repeat split.
Qed.

Lemma flagsOk_fields (c c' : Config) :
  state c' = state c -> context c' = context c -> Commit.flagsOk c -> Commit.flagsOk c'.
Proof. unfold Commit.flagsOk. intros -> ->. auto. Qed.

Lemma dispatch_flags P (event : Event) (c c' : Config) :
  dispatch P event c = Some c' -> Commit.flagsOk c -> Commit.flagsOk c'.
Proof.
  intros H Hflags. unfold dispatch in H.
  destruct (choose (on P (state c) (ev_type event)) c) as [tr|] eqn:Hch;
    [| injection H as <-; exact Hflags].
  apply find_some in Hch. destruct Hch as [Hin _].
  destruct (runActions (actions tr) event (setState (default (state c) (target tr)) c))
    as [c1|] eqn:H1; [| discriminate H].
  assert (Hc1 : Commit.flagsOk c1
                /\ state c1 = default (state c) (target tr)).
  { destruct (state c) eqn:Hst; destruct (ev_type event) eqn:Hev;
      cbn [on] in Hin; try contradiction;
      destruct Hin as [<- | []];
      cbn [start_navigation guarded_navigation actions target default from_option id app]
        in H1 |- *;
      unfold Commit.flagsOk;
      first
        [ apply (runActions_busy P) in H1; [| each_steady]
        | apply runActions_failed in H1
        | apply (runActions_rest
                   [updateLocation P; updateHistory; invokeNavigationEnd P;
                    invokeOnNavigate P]) in H1; [| each_steady]
        | apply (runActions_rest
                   [updateLocation P; updateHistory; updateBrowserHistory P;
                    scrollToTopEffect P; invokeNavigationEnd P; invokeOnNavigate P])
            in H1; [| each_steady] ];
      destruct H1 as (Hs1 & Hn1 & Hp1); cbn [state setState] in Hs1;
      rewrite Hs1; repeat split; assumption. }
  destruct Hc1 as [Hf1 Hs1].
  destruct (negb (state_eqb (default (state c) (target tr)) (state c)));
    [| injection H as <-; exact Hf1].
  rewrite <- Hs1 in H.
  destruct (state c1) eqn:Hst1; cbn [entry runActions] in H.
  - unfold invokeBeforeNavigateForInitial in H. injection H as <-.
    apply (flagsOk_fields c1); [reflexivity | reflexivity |].
    unfold Commit.flagsOk. rewrite Hst1. unfold Commit.flagsOk in Hf1.
    rewrite Hst1 in Hf1. exact Hf1.
  - injection H as <-. unfold Commit.flagsOk in *. rewrite Hst1 in *. exact Hf1.
  - destruct (invokeBeforeNavigate P event c1) as [c2|] eqn:H2; [| discriminate H].
    injection H as <-.
    destruct (invokeBeforeNavigate_steady P _ _ _ H2) as (Hs & Hn & Hp).
    unfold Commit.flagsOk in *. rewrite Hs, Hst1 in *.
    destruct Hf1 as [Hn1 Hp1]. split; [congruence | auto].
  - injection H as <-. unfold Commit.flagsOk in *. rewrite Hst1 in *. exact Hf1.
Qed.

Lemma initialGuardCallback_flags P (c c' : Config) :
  initialGuardCallback P c = Some c' -> Commit.flagsOk c -> Commit.flagsOk c'.
Proof.
  intros H Hflags. unfold initialGuardCallback in H.
  assert (Hsame : state c' = state c
                  /\ navigating (context c') = navigating (context c)
                  /\ (pendingNavigation (context c) = None
                      <-> pendingNavigation (context c') = None)).
  { destruct (onBeforeNavigate P) as [g|];
      [| injection H as <-; repeat split; auto].
    destruct (pendingNavigation (context c)) as [d|] eqn:Hd;
      [| injection H as <-; repeat split; auto].
    destruct (g d) as [|[|]|s]; injection H as <-; cbn; rewrite ?Hd;
      repeat split; intros; congruence. }
  destruct Hsame as (Hs & Hn & Hp).
  unfold Commit.flagsOk in *. rewrite Hs, Hn.
  destruct (state c); intuition congruence.
Qed.

Lemma next_flags P (c c' : Config) :
  next P c = Some c' -> Commit.flagsOk c -> Commit.flagsOk c'.
Proof.
  unfold next. intros H Hflags.
  destruct (queue c) as [|e q].
  - destruct (timers c) as [|t ts]; [discriminate H |].
    destruct t as [e|]; cbn [fire] in H.
    + injection H as <-. exact Hflags.
    + eapply initialGuardCallback_flags; [exact H | exact Hflags].
  - eapply dispatch_flags; [exact H | exact Hflags].
Qed.

Lemma start_flags P (win : option Window) (c : Config) :
  start P win = Some c -> Commit.flagsOk c.
Proof. rewrite start_unfold. intros [= <-]. reflexivity. Qed.

(** X22.  In every configuration the machine reaches, the flag
    [navigating] is set exactly when the machine is in [navigating], where
    a navigation is pending; in [idle] and in [error] none is.  During the
    first load the flag is not set. *)
Theorem X22_navigating_flag :
  forall (P : Props) (win : option Window) (c : Config),
    Reachable P win c ->
    Commit.flagsOk c
    /\ (navigating (context c) = true <-> state c = Navigating)
    /\ (state c = Idle \/ state c = Error -> pendingNavigation (context c) = None).
Proof.
  intros P win c Hreach.
  assert (Hflags : Commit.flagsOk c).
  { induction Hreach as [c Hstart | c c' _ IH Hstep].
    - eapply start_flags; exact Hstart.
    - destruct Hstep as [c c' Hnext | c e | c w].
      + eapply next_flags; eassumption.
      + exact IH.
      + exact IH. }
  split; [exact Hflags |]. unfold Commit.flagsOk in Hflags.
  destruct (state c); split;
    try (split; intros; try discriminate; intuition congruence);
    try (intros [|]; try discriminate; apply Hflags).
Qed.

(** X22 at the machine whose guard lets nothing through, after its
    first load and a blocked navigation. *)
Lemma X22_witness :
  state Examples.blocked_at_admin = Error
  /\ navigating (context Examples.blocked_at_admin) = false
  /\ pendingNavigation (context Examples.blocked_at_admin) = None.
Proof.
  assert (Hreach : Reachable Examples.blocking_props None Examples.blocked_at_admin).
  { apply (reachable_run Examples.blocking_props None 2
             (send (Examples.navigate_to "/admin") Examples.blocking_loaded)).
    - eapply ReachStep; [| apply StepSend].
      apply reachable_loaded. vm_compute. reflexivity.
    - vm_compute. reflexivity. }
  destruct (X22_navigating_flag Examples.blocking_props None Examples.blocked_at_admin
              Hreach) as (_ & Hnav & Hpending).
  split; [reflexivity |]. split.
  - destruct (navigating (context Examples.blocked_at_admin)) eqn:Hn; [| reflexivity].
    destruct Hnav as [Hnav _]. discriminate (Hnav eq_refl).
  - apply Hpending. right. reflexivity.
Defined.

(* ================================================================== *)
(** ** Several steps at once *)
(* ================================================================== *)

Lemma setQueue_own (c : Config) : setQueue (queue c) c = c.
Proof. destruct c. reflexivity. Qed.

Lemma iter_send (event : Event) (n : nat) (c : Config) :
  Nat.iter n (send event) c = setQueue (queue c ++ List.repeat event n) c.
Proof.
  induction n as [|n IH].
  - cbn [List.repeat]. rewrite app_nil_r. symmetry. apply setQueue_own.
  - rewrite Nat.iter_succ, IH. unfold send. cbn [queue setQueue List.repeat].
    now rewrite <- app_assoc, <- List.repeat_cons.
Qed.

(** what the guard sends goes behind the events that wait *)
Lemma invokeBeforeNavigate_queue P (event : Event) (c : Config) (q : list Event) :
  queue c = [] ->
  invokeBeforeNavigate P event (setQueue q c)
  = match invokeBeforeNavigate P event c with
    | Some c1 => Some (setQueue (q ++ queue c1) c1)
    | None => None
    end.
Proof.
  intros Hq. unfold invokeBeforeNavigate. fields.
  destruct (onBeforeNavigate P) as [g|];
    [destruct (pendingNavigation (context c)) as [d|]; [destruct (g d) as [|[|]|s] |] |];
    fields; rewrite Hq; reflexivity.
Qed.

Lemma guard_keeps_state P (event : Event) (c c1 : Config) :
  invokeBeforeNavigate P event c = Some c1 -> state c1 = state c.
Proof. intros H. apply (invokeBeforeNavigate_steady P _ _ _ H). Qed.

(** BACK at the first entry and FORWARD at the last are dropped at rest,
    BACK and FORWARD always during a navigation *)
Lemma back_dropped P (c : Config) :
  state c = Navigating \/ canGoBack c = false ->
  dispatch P (plainEvent BACK) c = Some c.
Proof.
  unfold dispatch. intros [Hs | Hcan].
  - rewrite Hs. reflexivity.
  - destruct (state c); try reflexivity;
      cbn [on ev_type plainEvent choose find guarded_navigation guard];
      rewrite Hcan; reflexivity.
Qed.

Lemma forward_dropped P (c : Config) :
  state c = Navigating \/ canGoForward c = false ->
  dispatch P (plainEvent FORWARD) c = Some c.
Proof.
  unfold dispatch. intros [Hs | Hcan].
  - rewrite Hs. reflexivity.
  - destruct (state c); try reflexivity;
      cbn [on ev_type plainEvent choose find guarded_navigation guard];
      rewrite Hcan; reflexivity.
Qed.

(** events that are dropped whatever waits behind them go by *)
Lemma run_dropped P (event : Event) (c : Config) (n : nat) :
  (forall q, dispatch P event (setQueue q c) = Some (setQueue q c)) ->
  forall q, run P n (setQueue (List.repeat event n ++ q) c) = Some (setQueue q c).
Proof.
  intros Hdrop. induction n as [|n IH]; intros q; [reflexivity |].
  cbn [run List.repeat app]. unfold next at 1. cbn [queue setQueue].
  change (setQueue (List.repeat event n ++ q)
                   (setQueue (event :: List.repeat event n ++ q) c))
    with (setQueue (List.repeat event n ++ q) c).
  rewrite Hdrop. apply IH.
Qed.

Lemma run_dropped_all P (event : Event) (c : Config) (n : nat) :
  queue c = [] ->
  (forall q, dispatch P event (setQueue q c) = Some (setQueue q c)) ->
  run P n (setQueue (List.repeat event n) c) = Some c.
Proof.
  intros Hq Hdrop.
  rewrite <- (app_nil_r (List.repeat event n)), (run_dropped P event c n Hdrop).
  rewrite <- Hq. now rewrite setQueue_own.
Qed.

(** the events of a navigation that waits go by, and what the guard has
    sent is handled after them *)
Lemma run_behind_guard P (event : Event) (cb : Config) (n : nat) :
  state cb = Navigating ->
  queue cb = [] ->
  (forall c, state c = Navigating -> dispatch P event c = Some c) ->
  match invokeBeforeNavigate P event (setQueue (List.repeat event n) cb) with
  | Some c' => run P n c'
  | None => None
  end = invokeBeforeNavigate P event cb.
Proof.
  intros Hs Hq Hdrop. rewrite (invokeBeforeNavigate_queue P event cb _ Hq).
  destruct (invokeBeforeNavigate P event cb) as [c1|] eqn:H1; [| reflexivity].
  rewrite run_dropped.
  - now rewrite setQueue_own.
  - intros q. apply Hdrop. cbn [state setQueue].
    rewrite (guard_keeps_state P _ _ _ H1). exact Hs.
Qed.

(** [back()] called once more while its event waits changes nothing *)
Lemma back_repeated P (c : Config) (n : nat) :
  state c = Idle \/ state c = Error ->
  queue c = [] ->
  historyOk (context c) ->
  run P (S n) (setQueue (List.repeat (plainEvent BACK) (S n)) c)
  = dispatch P (plainEvent BACK) c.
Proof.
  intros Hs Hq Hok. cbn [run List.repeat]. unfold next at 1. cbn [queue setQueue].
  change (setQueue (List.repeat (plainEvent BACK) n)
                   (setQueue (plainEvent BACK :: List.repeat (plainEvent BACK) n) c))
    with (setQueue (List.repeat (plainEvent BACK) n) c).
  destruct (canGoBack c) eqn:Hcan.
  - assert (Hpos : (0 < historyIndex (context c))%nat) by (apply Nat.ltb_lt; exact Hcan).
    destruct (lookup_lt_is_Some_2 (historyStack (context c))
                                  (historyIndex (context c) - 1)) as [l Hl];
      [unfold historyOk in Hok; lia |].
    assert (Ht := transit_back P c l Hs Hcan Hl).
    assert (Htq := transit_back P (setQueue (List.repeat (plainEvent BACK) n) c) l
                     Hs Hcan Hl).
    cbv zeta in Ht, Htq. fields_in Htq.
    rewrite (dispatch_start P _ (setQueue (List.repeat (plainEvent BACK) n) c) _ Hs Htq),
      (dispatch_start P _ c _ Hs Ht).
    match type of Ht with _ = Some (Some ?r) => set (cb := r) in * end.
    apply (run_behind_guard P (plainEvent BACK) cb n eq_refl Hq).
    intros c0 H0. apply back_dropped. now left.
  - rewrite (back_dropped P (setQueue _ c)) by (now right).
    rewrite (back_dropped P c) by (now right).
    apply run_dropped_all; [exact Hq |].
    intros q. apply back_dropped. now right.
Qed.

Lemma forward_repeated P (c : Config) (n : nat) :
  state c = Idle \/ state c = Error ->
  queue c = [] ->
  run P (S n) (setQueue (List.repeat (plainEvent FORWARD) (S n)) c)
  = dispatch P (plainEvent FORWARD) c.
Proof.
  intros Hs Hq. cbn [run List.repeat]. unfold next at 1. cbn [queue setQueue].
  change (setQueue (List.repeat (plainEvent FORWARD) n)
                   (setQueue (plainEvent FORWARD :: List.repeat (plainEvent FORWARD) n) c))
    with (setQueue (List.repeat (plainEvent FORWARD) n) c).
  destruct (canGoForward c) eqn:Hcan.
  - assert (Hroom : (historyIndex (context c) < length (historyStack (context c)) - 1)%nat)
      by (apply Nat.ltb_lt; exact Hcan).
    destruct (lookup_lt_is_Some_2 (historyStack (context c))
                                  (historyIndex (context c) + 1)) as [l Hl]; [lia |].
    assert (Ht := transit_forward P c l Hs Hcan Hl).
    assert (Htq := transit_forward P (setQueue (List.repeat (plainEvent FORWARD) n) c) l
                     Hs Hcan Hl).
    cbv zeta in Ht, Htq. fields_in Htq.
    rewrite (dispatch_start P _ (setQueue (List.repeat (plainEvent FORWARD) n) c) _ Hs Htq),
      (dispatch_start P _ c _ Hs Ht).
    match type of Ht with _ = Some (Some ?r) => set (cb := r) in * end.
    apply (run_behind_guard P (plainEvent FORWARD) cb n eq_refl Hq).
    intros c0 H0. apply forward_dropped. now left.
  - rewrite (forward_dropped P (setQueue _ c)) by (now right).
    rewrite (forward_dropped P c) by (now right).
    apply run_dropped_all; [exact Hq |].
    intros q. apply forward_dropped. now right.
Qed.

(** whatever the guard answers, [back()] moves the index by one *)
Lemma back_moves_index P (c : Config) :
  state c = Idle \/ state c = Error ->
  settled c ->
  historyOk (context c) ->
  canGoBack c = true ->
  exists c',
    run P 2 (Methods.back c) = Some c'
    /\ historyIndex (context c') = (historyIndex (context c) - 1)%nat.
Proof.
  intros Hs [Hq Ht] Hok Hcan.
  assert (Hpos : (0 < historyIndex (context c))%nat) by (apply Nat.ltb_lt; exact Hcan).
  destruct (lookup_lt_is_Some_2 (historyStack (context c))
                                (historyIndex (context c) - 1)) as [l Hl];
    [unfold historyOk in Hok; lia |].
  assert (Htransit := transit_back P c l Hs Hcan Hl). cbv zeta in Htransit.
  assert (Hokb : (historyIndex (context c) - 1 < length (historyStack (context c)))%nat)
    by (unfold historyOk in Hok; lia).
  unfold Methods.back. cbn [run].
  rewrite (next_send P _ c Hq), (dispatch_start P _ c _ Hs Htransit).
  unfold invokeBeforeNavigate. fields.
  destruct (onBeforeNavigate P) as [g|];
    [destruct (g _) as [|[|]|s] |];
    rewrite next_send by (fields; exact Hq);
    try (unfold preventedEvent; rewrite dispatch_error by (left; reflexivity);
         eexists; split; [reflexivity |];
         destruct (onNavigationError P); reflexivity);
    (erewrite commit_navigating; [| reflexivity | reflexivity | exact Hokb]);
    eexists; (split; [reflexivity |]); reflexivity.
Qed.

Lemma forward_moves_index P (c : Config) :
  state c = Idle \/ state c = Error ->
  settled c ->
  canGoForward c = true ->
  exists c',
    run P 2 (Methods.forward c) = Some c'
    /\ historyIndex (context c') = (historyIndex (context c) + 1)%nat.
Proof.
  intros Hs [Hq Ht] Hcan.
  assert (Hroom : (historyIndex (context c) < length (historyStack (context c)) - 1)%nat)
    by (apply Nat.ltb_lt; exact Hcan).
  destruct (lookup_lt_is_Some_2 (historyStack (context c))
                                (historyIndex (context c) + 1)) as [l Hl]; [lia |].
  assert (Htransit := transit_forward P c l Hs Hcan Hl). cbv zeta in Htransit.
  assert (Hokb : (historyIndex (context c) + 1 < length (historyStack (context c)))%nat)
    by lia.
  unfold Methods.forward. cbn [run].
  rewrite (next_send P _ c Hq), (dispatch_start P _ c _ Hs Htransit).
  unfold invokeBeforeNavigate. fields.
  destruct (onBeforeNavigate P) as [g|];
    [destruct (g _) as [|[|]|s] |];
    rewrite next_send by (fields; exact Hq);
    try (unfold preventedEvent; rewrite dispatch_error by (left; reflexivity);
         eexists; split; [reflexivity |];
         destruct (onNavigationError P); reflexivity);
    (erewrite commit_navigating; [| reflexivity | reflexivity | exact Hokb]);
    eexists; (split; [reflexivity |]); reflexivity.
Qed.

Lemma run_one_more P (n : nat) (c : Config) :
  run P (n + 1) c
  = match run P n c with
    | Some c' => next P c'
    | None => None
    end.
Proof.
  rewrite run_plus. destruct (run P n c) as [c'|]; [| reflexivity].
  cbn [run]. destruct (next P c'); reflexivity.
Qed.

(** X23.  [go(delta)] sends BACK, or FORWARD, once for each step, but
    all but the first are dropped, the machine being busy with the first
    when they are handled: the machine ends where one [back()], or one
    [forward()], takes it, and the index of the history has moved by one,
    whatever the guard answers. *)
Theorem X23_go_moves_one_step :
  forall (P : Props) (c : Config) (n : nat),
    state c = Idle \/ state c = Error ->
    settled c ->
    historyOk (context c) ->
    run P (n + 2) (Methods.go c (- Z.of_nat (S n))) = run P 2 (Methods.back c)
    /\ run P (n + 2) (Methods.go c (Z.of_nat (S n))) = run P 2 (Methods.forward c)
    /\ (canGoBack c = true ->
        exists c',
          run P (n + 2) (Methods.go c (- Z.of_nat (S n))) = Some c'
          /\ historyIndex (context c') = (historyIndex (context c) - 1)%nat)
    /\ (canGoForward c = true ->
        exists c',
          run P (n + 2) (Methods.go c (Z.of_nat (S n))) = Some c'
          /\ historyIndex (context c') = (historyIndex (context c) + 1)%nat).
Proof.
  intros P c n Hs Hset Hok. destruct Hset as [Hq Ht].
  assert (Hback : run P (n + 2) (Methods.go c (- Z.of_nat (S n)))
                  = run P 2 (Methods.back c)).
  { unfold Methods.go, Methods.back.
    replace (- Z.of_nat (S n) <? 0)%Z with true by (symmetry; apply Z.ltb_lt; lia).
    replace (Z.abs_nat (- Z.of_nat (S n))) with (S n) by lia.
    rewrite iter_send, Hq. cbn [app].
    replace (n + 2)%nat with (S n + 1)%nat by lia.
    rewrite run_one_more, (back_repeated P c n Hs Hq Hok).
    cbn [run]. rewrite (next_send P _ c Hq).
    destruct (dispatch P (plainEvent BACK) c) as [c1|]; [| reflexivity].
    destruct (next P c1); reflexivity. }
  assert (Hforward : run P (n + 2) (Methods.go c (Z.of_nat (S n)))
                     = run P 2 (Methods.forward c)).
  { unfold Methods.go, Methods.forward.
    replace (Z.of_nat (S n) <? 0)%Z with false by (symmetry; apply Z.ltb_ge; lia).
    replace (0 <? Z.of_nat (S n))%Z with true by (symmetry; apply Z.ltb_lt; lia).
    replace (Z.to_nat (Z.of_nat (S n))) with (S n) by lia.
    rewrite iter_send, Hq. cbn [app].
    replace (n + 2)%nat with (S n + 1)%nat by lia.
    rewrite run_one_more, (forward_repeated P c n Hs Hq).
    cbn [run]. rewrite (next_send P _ c Hq).
    destruct (dispatch P (plainEvent FORWARD) c) as [c1|]; [| reflexivity].
    destruct (next P c1); reflexivity. }
  split; [exact Hback |]. split; [exact Hforward |]. split.
  - intros Hcan. rewrite Hback.
    apply back_moves_index; [exact Hs | split; assumption | exact Hok | exact Hcan].
  - intros Hcan. rewrite Hforward.
    apply forward_moves_index; [exact Hs | split; assumption | exact Hcan].
Qed.

(** X23 at a machine that has visited two pages, asked to go back three. *)
Lemma X23_witness :
  run Examples.bare_props 4 (Methods.go Visits.at_second (-3))
  = run Examples.bare_props 2 (Methods.back Visits.at_second).
Proof.
  apply (proj1 (X23_go_moves_one_step Examples.bare_props Visits.at_second 2
                  (or_introl eq_refl) (conj eq_refl eq_refl)
                  ltac:(unfold historyOk; cbn; lia))).
Defined.

(* ================================================================== *)
(** ** Hash routing *)
(* ================================================================== *)

(** HASH_CHANGE out of [idle] under hash routing *)
Lemma transit_hashChange P (c : Config) :
  state c = Idle ->
  hashRouting P = true ->
  let x := context c in
  let fragment := match window c with
                  | Some w => location_hash w
                  | None => EmptyString
                  end in
  let stay := createNavigationDetailsWithMeta
                (Some (location x)) (location x) push programmatic (routes P) in
  let d := createNavigationDetailsWithMeta
             (Some (location x))
             (setPathname (Js.orElse (Js.sliceFrom 1 fragment) "/") (location x))
             push browser (routes P) in
  transit P (plainEvent HASH_CHANGE) c
  = Some (Some (mkConfig Navigating
                  (mkContext (location x) (previousLocation x) true (Some d)
                             (initialized x) (historyStack x) (historyIndex x))
                  (window c) (queue c) (timers c ++ [TimerSend completeEvent])
                  (effects c
                   ++ Commit.when (onNavigationStart P) (CallNavigationStart stay)))).
Proof.
  destruct c as [st x w q ts fx]. cbn [state context window queue timers effects].
  intros -> Hhash. unfold transit.
  cbn [state on ev_type plainEvent choose find guarded_navigation guard].
  unfold isHashRouting. rewrite Hhash.
  cbn [guarded_navigation target actions default from_option id app runActions].
  unfold setNavigating. fields.
  erewrite (invokeNavigationStart_eq P) by reflexivity.
  unfold handleHashChange. rewrite Hhash. reflexivity.
Qed.

(** X26.  HASH_CHANGE sent to a machine at rest in [idle] under hash
    routing, the guard letting the navigation through: after four steps the
    machine is at rest at the current location with its pathname replaced
    by the window's hash without the [#] - by [/] when that is empty; the
    search string and the fragment of the location stay.  The location is
    pushed onto the history, and the hash is assigned again, now followed by
    the search string. *)
Theorem X26_hash_change :
  forall (P : Props) (c : Config),
    state c = Idle ->
    settled c ->
    historyOk (context c) ->
    hashRouting P = true ->
    let from := location (context c) in
    let fragment := match window c with
                    | Some w => location_hash w
                    | None => EmptyString
                    end in
    let d := createNavigationDetailsWithMeta
               (Some from)
               (setPathname (Js.orElse (Js.sliceFrom 1 fragment) "/") from)
               push browser (routes P) in
    Commit.allows P d = true ->
    let arrived := withRouteParams (to d) (routes P) in
    exists c',
      run P 4 (send (plainEvent HASH_CHANGE) c) = Some c'
      /\ state c' = Idle /\ settled c'
      /\ location (context c') = arrived
      /\ pathname (location (context c')) = Js.orElse (Js.sliceFrom 1 fragment) "/"
      /\ search (location (context c')) = search from
      /\ hash (location (context c')) = hash from
      /\ historyStack (context c')
         = firstn (historyIndex (context c) + 1) (historyStack (context c)) ++ [arrived]
      /\ historyIndex (context c') = (historyIndex (context c) + 1)%nat
      /\ List.filter Commit.isAddressWrite (effects c')
         = List.filter Commit.isAddressWrite (effects c)
           ++ match window c with
              | Some _ => [AssignLocationHash (pathname arrived +:+ search arrived)]
              | None => []
              end.
Proof.
  intros P c Hs [Hq Ht] Hok Hhash from fragment d Hallows arrived.
  assert (Htransit := transit_hashChange P c Hs Hhash).
  cbv zeta in Htransit. fold from in Htransit. fold fragment in Htransit.
  fold d in Htransit.
  assert (Hrun := run_allowed P (plainEvent HASH_CHANGE) c _ d (or_introl Hs) Hq Htransit
                    eq_refl Hallows).
  rewrite commit_navigating with (d := d) in Hrun;
    [| reflexivity | reflexivity | exact Hok].
  cbv zeta in Hrun. change (type d) with push in Hrun.
  change (source d) with (Some browser) in Hrun. fields_in Hrun.
  rewrite Hq, Ht, Hhash in Hrun. cbn [app] in Hrun.
  match type of Hrun with _ = Some ?r => set (c2 := r) in Hrun end.
  assert (Hall : Forall (eq (TimerSend completeEvent)) [TimerSend completeEvent])
    by (repeat constructor).
  destruct (run_flush P [TimerSend completeEvent] Hall c2
              (or_introl eq_refl) eq_refl eq_refl)
    as (cf & Hflush & Hset & Hst & Hctx & Hfx & _).
  exists cf. split.
  { change 4%nat with (2 + 2)%nat. rewrite run_plus, Hrun. exact Hflush. }
  rewrite Hst, Hctx, Hfx. unfold c2. fields.
  assert (Hfields : forall l rs,
             search (enrichLocationWithMeta (withRouteParams
                       (enrichLocationWithMeta l rs) rs) rs) = search l
             /\ hash (enrichLocationWithMeta (withRouteParams
                        (enrichLocationWithMeta l rs) rs) rs) = hash l).
  { intros l rs. unfold enrichLocationWithMeta, withRouteParams, findRouteByLocation.
    destruct rs as [rs|]; [| split; reflexivity].
    destruct (Dom.findBestMatchingRoute (pathname l) rs) eqn:Hr; cbn [pathname setParams];
      rewrite ?Hr; cbn [pathname setParams]; rewrite ?Hr; split; reflexivity. }
  split; [reflexivity |]. split; [exact Hset |].
  split; [apply committed_enriched |].
  split; [rewrite pathname_enrich, pathname_withRouteParams; apply pathname_enrich |].
  split;
    [exact (proj1 (Hfields (setPathname (Js.orElse (Js.sliceFrom 1 fragment) "/") from)
                           (routes P))) |].
  split;
    [exact (proj2 (Hfields (setPathname (Js.orElse (Js.sliceFrom 1 fragment) "/") from)
                           (routes P))) |].
  split; [reflexivity |]. split; [reflexivity |].
  rewrite !List.filter_app.
  assert (Hwhen : forall b e, Commit.isAddressWrite e = false ->
                              List.filter Commit.isAddressWrite (Commit.when b e) = [])
    by (intros [] e He; cbn; rewrite ?He; reflexivity).
  rewrite !Hwhen by reflexivity.
  assert (Hasked : List.filter Commit.isAddressWrite (Commit.asked P d) = [])
    by (unfold Commit.asked; destruct (onBeforeNavigate P); reflexivity).
  rewrite Hasked.
  destruct (window c); cbn [app List.filter Commit.isAddressWrite];
    rewrite ?Hwhen by reflexivity; rewrite ?app_nil_r; reflexivity.
Qed.

(** X26 at a machine at rest at [/] whose browser shows the hash
    [#/settings]. *)
Lemma X26_witness :
  let P := mkProps "/" true true None None None false false false false in
  let c := mkConfig Idle
             (mkContext (Examples.at_path "/") None false None true
                        [Examples.at_path "/"] 0)
             (Some (mkWindow "http://localhost/#/settings" "http://localhost" "#/settings"))
             [] [] [] in
  exists c',
    run P 4 (send (plainEvent HASH_CHANGE) c) = Some c'
    /\ pathname (location (context c')) = "/settings"
    /\ historyIndex (context c') = 1%nat.
Proof.
  intros P c.
  destruct (X26_hash_change P c)
    as (c' & Hrun & _ & _ & _ & Hpath & _ & _ & _ & Hidx & _).
  - reflexivity.
  - split; reflexivity.
  - unfold historyOk. cbn. lia.
  - reflexivity.
  - reflexivity.
  - exists c'. split; [exact Hrun |]. rewrite Hpath, Hidx. split; reflexivity.
Defined.

(* ================================================================== *)
(** ** A step back that the guard refuses *)
(* ================================================================== *)

(** C6, where it fails.  [back()] on a machine at rest that can go
    back, the guard answering [false]: the machine ends in [error], the
    error observer, if there is one, is called with the message "Navigation
    prevented", and the current location is the one it was - but the
    refused step is not undone: [goBack] has moved the index of the history
    before the guard was asked, and nothing moves it back.  The index is one
    less than it was and points at the entry the guard has refused, and
    there now is a way forward. *)
Theorem C6_refused_back_moves_history :
  forall (P : Props) (c : Config) (l : RouteLocation)
         (g : NavigationDetails -> GuardResult),
    state c = Idle \/ state c = Error ->
    settled c ->
    historyOk (context c) ->
    canGoBack c = true ->
    historyStack (context c) !! (historyIndex (context c) - 1)%nat = Some l ->
    onBeforeNavigate P = Some g ->
    let from := location (context c) in
    let stay := createNavigationDetailsWithMeta
                  (Some from) from back programmatic (routes P) in
    let d := createNavigationDetailsWithMeta
               (Some from) l back programmatic (routes P) in
    g d = ReturnsBool false ->
    exists c',
      run P 2 (Methods.back c) = Some c'
      /\ state c' = Error /\ settled c'
      /\ effects c'
         = effects c
           ++ Commit.when (onNavigationStart P) (CallNavigationStart stay)
           ++ [CallBeforeNavigate d]
           ++ Commit.when (onNavigationError P)
                          (CallNavigationError "Navigation prevented" errorDetails)
      /\ location (context c') = from
      /\ previousLocation (context c') = previousLocation (context c)
      /\ pendingNavigation (context c') = None
      /\ historyStack (context c') = historyStack (context c)
      /\ historyIndex (context c') = (historyIndex (context c) - 1)%nat
      /\ historyIndex (context c') <> historyIndex (context c)
      /\ historyStack (context c') !! historyIndex (context c') = Some l
      /\ canGoForward c' = true.
Proof.
  intros P c l g Hs [Hq Ht] Hok Hcan Hl Hg from stay d Hfalse.
  assert (Hpos : (0 < historyIndex (context c))%nat)
    by (apply Nat.ltb_lt; exact Hcan).
  assert (Htransit := transit_back P c l Hs Hcan Hl). cbv zeta in Htransit.
  fold from in Htransit. fold d in Htransit. fold stay in Htransit.
  unfold Methods.back. cbn [run].
  rewrite (next_send P _ c Hq).
  rewrite (dispatch_start P _ c _ Hs Htransit).
  rewrite invokeBeforeNavigate_blocks with (g := g) (d := d);
    [| reflexivity | exact Hg | exact Hfalse].
  rewrite next_send by (fields; exact Hq).
  unfold preventedEvent. rewrite dispatch_error by (left; reflexivity).
  eexists. split; [reflexivity |].
  unfold historyOk in Hok.
  destruct (onNavigationError P); unfold canGoForward, Commit.when at 2; fields;
    (split; [reflexivity |]); (split; [split; [exact Hq | exact Ht] |]);
    (split; [rewrite <- ?app_assoc, ?app_nil_r; reflexivity |]);
    repeat (split; [reflexivity |]);
    (split; [lia |]); (split; [exact Hl |]);
    apply Nat.ltb_lt; lia.
Qed.

(** C6 at a machine that has gone from [/] to [/about] and whose guard
    lets nothing through: after the refused [back()] it is still at
    [/about], in [error], with the index at the entry [/] and a way
    forward. *)
Lemma C6_witness :
  canGoForward Visits.at_second = false
  /\ exists c',
       run Examples.blocking_props 2 (Methods.back Visits.at_second) = Some c'
       /\ state c' = Error
       /\ In (CallNavigationError "Navigation prevented" errorDetails) (effects c')
       /\ pathname (location (context c')) = "/about"
       /\ historyIndex (context Visits.at_second) = 1%nat
       /\ historyIndex (context c') = 0%nat
       /\ canGoForward c' = true.
Proof.
  split; [reflexivity |].
  destruct (C6_refused_back_moves_history Examples.blocking_props Visits.at_second
              (Examples.at_path "/") (fun _ => ReturnsBool false))
    as (c' & Hrun & Hst & _ & Hfx & Hloc & _ & _ & _ & Hidx & _ & _ & Hfwd).
  - left. reflexivity.
  - split; reflexivity.
  - unfold historyOk. cbn. lia.
  - reflexivity.
  - reflexivity.
  - reflexivity.
  - reflexivity.
  - exists c'. split; [exact Hrun |]. split; [exact Hst |].
    split; [rewrite Hfx; cbn; auto 10 |].
    split; [rewrite Hloc; reflexivity |]. split; [reflexivity |].
    split; [rewrite Hidx; reflexivity | exact Hfwd].
Defined.
